(** * Security log processor: line classification and batch threat analysis

    A shallow embedding of [security_processor.py]:
    - [parse_log_line] (with [_get_severity] and [_extract_metadata]) and the
      pattern registry built in [SecurityProcessor.__init__];
    - [analyze_events].

    Text is [string]: a sequence of 8-bit characters, read as the code points
    below 256.  Python's [str] methods ([strip], [split], [lower], [in]) and
    the [re] character classes are given on that range.  The regular
    expressions of the registry are embedded as syntax trees and run by a
    backtracking matcher that explores alternatives in the order of Python's
    [re] (greedy repetition, left alternative first, leftmost start).

    [datetime.strptime] and [datetime.now] belong to the Python library: the
    first is a parameter of the development (a partial function, [None] for
    [ValueError]), the second an extra argument of [parse_log_line]. *)

From Stdlib Require Import String Ascii List Arith Lia Bool NArith.
From Stdlib Require Import Decimal DecimalString DecimalNat.
From stdpp Require Import gmap strings.
Import ListNotations.

#[local] Arguments String.append : simpl nomatch.


(** ** Characters *)

Module Char.

Definition code (c : ascii) : N := N_of_ascii c.

Definition in_range (lo hi : N) (c : ascii) : bool :=
  ((lo <=? code c) && (code c <=? hi))%N.

(** [str.isspace] on one character, which is also the class [\s]. *)
Definition isspace (c : ascii) : bool :=
  in_range 9 13 c || in_range 28 32 c
  || (code c =? 133)%N || (code c =? 160)%N.

(** The class [\d]. *)
Definition isdecimal (c : ascii) : bool := in_range 48 57 c.

Definition isupper_ascii (c : ascii) : bool := in_range 65 90 c.
Definition islower_ascii (c : ascii) : bool := in_range 97 122 c.

(** Letters and numeric characters above 127. *)
Definition isalnum_high (c : ascii) : bool :=
  (code c =? 170)%N || (code c =? 178)%N || (code c =? 179)%N
  || (code c =? 181)%N || (code c =? 185)%N || (code c =? 186)%N
  || in_range 188 190 c
  || in_range 192 214 c || in_range 216 246 c || in_range 248 255 c.

(** The class [\w]. *)
Definition isword (c : ascii) : bool :=
  isdecimal c || isupper_ascii c || islower_ascii c
  || (code c =? 95)%N || isalnum_high c.

(** [str.lower] on one character. *)
Definition lower (c : ascii) : ascii :=
  if isupper_ascii c
     || ((in_range 192 222 c) && negb (code c =? 215)%N)
  then ascii_of_N (code c + 32)
  else c.

Definition eqb_ci (p c : ascii) : bool := Ascii.eqb (lower c) (lower p).

Definition newline : ascii := ascii_of_N 10.

End Char.

(** ** The [str] methods the processor uses *)

Module Str.

Fixpoint lower (s : string) : string :=
  match s with
  | EmptyString => EmptyString
  | String c s' => String (Char.lower c) (lower s')
  end.

Fixpoint lstrip (s : string) : string :=
  match s with
  | EmptyString => EmptyString
  | String c s' => if Char.isspace c then lstrip s' else s
  end.

(** Right strip: a character is kept when it is not a space or when
    something is kept after it. *)
Fixpoint rstrip (s : string) : string :=
  match s with
  | EmptyString => EmptyString
  | String c s' =>
      match rstrip s' with
      | EmptyString => if Char.isspace c then EmptyString else String c EmptyString
      | t => String c t
      end
  end.

(** [s.strip()] *)
Definition strip (s : string) : string := rstrip (lstrip s).

Fixpoint drop (n : nat) (s : string) : string :=
  match n, s with
  | O, _ => s
  | S _, EmptyString => EmptyString
  | S n', String _ s' => drop n' s'
  end.

(** The first occurrence of [sep] in [s]: what is before and after it. *)
Fixpoint partition (sep s : string) : option (string * string) :=
  if String.prefix sep s then Some (EmptyString, drop (String.length sep) s)
  else
    match s with
    | EmptyString => None
    | String c s' =>
        match partition sep s' with
        | Some (a, b) => Some (String c a, b)
        | None => None
        end
    end.

(** [sub in s] *)
Definition contains (sub s : string) : bool :=
  match partition sub s with Some _ => true | None => false end.

(** [s.split(sep, maxsplit)] for a non-empty [sep] and [maxsplit >= 0]. *)
Fixpoint split (sep : string) (maxsplit : nat) (s : string) : list string :=
  match maxsplit with
  | O => [s]
  | S n =>
      match partition sep s with
      | None => [s]
      | Some (a, b) => a :: split sep n b
      end
  end.

(** Every character of [s] satisfies [p]. *)
Fixpoint all_chars (p : ascii -> bool) (s : string) : bool :=
  match s with
  | EmptyString => true
  | String c s' => p c && all_chars p s'
  end.

(** A blank line: empty, or white space only. *)
Definition isblank (s : string) : bool := all_chars Char.isspace s.

(** [occurs_at sep n s]: [sep] occurs in [s] at offset [n]. *)
Definition occurs_at (sep : string) (n : nat) (s : string) : Prop :=
  exists a b, s = a +:+ sep +:+ b /\ String.length a = n.

(** No bar among the characters of [s]. *)
Definition no_bar (s : string) : bool :=
  all_chars (fun c => negb (Ascii.eqb c "|")) s.

(** [sep.join(parts)] *)
Definition join (sep : string) (parts : list string) : string :=
  String.concat sep parts.

End Str.

(** ** Regular expressions *)

Module Re.

Inductive regex : Type :=
| Eps
| Chr (p : ascii -> bool)
| Cat (r1 r2 : regex)
| Alt (r1 r2 : regex)
| Star (r : regex)
| Group (n : nat) (r : regex).

(** Captured groups, most recent binding first. *)
Definition captures : Type := list (nat * string).

Fixpoint lookup (n : nat) (c : captures) : option string :=
  match c with
  | [] => None
  | (m, w) :: c' => if Nat.eqb m n then Some w else lookup n c'
  end.

(** What was consumed between the input [s] and its suffix [s']. *)
Definition consumed (s s' : string) : string :=
  String.substring 0 (String.length s - String.length s') s.

Definition cont : Type := string -> captures -> option captures.

(** Greedy repetition of [body]: one more iteration first, then what
    follows.  An iteration that consumes nothing is given up; the
    repetitions of the registry are over one character, so theirs always
    consume.  [fuel] bounds the number of iterations; the length of the
    input is enough, since each iteration consumes a character
    ([ReFacts.found_occurs]: no match is missed). *)
Fixpoint star_loop (body : string -> captures -> cont -> option captures)
         (k : cont) (fuel : nat) (s : string) (c : captures)
  : option captures :=
  match fuel with
  | O => k s c
  | S fuel' =>
      match body s c
              (fun s1 c1 =>
                 if String.length s1 <? String.length s
                 then star_loop body k fuel' s1 c1 else None) with
      | Some res => Some res
      | None => k s c
      end
  end.

(** Backtracking matcher in continuation-passing style: [k] is what remains
    to be matched after [r]; a failure of [k] makes [r] try its next
    alternative. *)
Fixpoint rmatch (r : regex) (s : string) (c : captures) (k : cont)
         {struct r} : option captures :=
  match r with
  | Eps => k s c
  | Chr p =>
      match s with
      | String a s' => if p a then k s' c else None
      | EmptyString => None
      end
  | Cat r1 r2 => rmatch r1 s c (fun s1 c1 => rmatch r2 s1 c1 k)
  | Alt r1 r2 =>
      match rmatch r1 s c k with
      | Some res => Some res
      | None => rmatch r2 s c k
      end
  | Star r1 => star_loop (rmatch r1) k (String.length s) s c
  | Group n r1 =>
      rmatch r1 s c (fun s1 c1 => k s1 ((n, consumed s s1) :: c1))
  end.

(** [re.groups]: the number of capturing groups. *)
Fixpoint ngroups (r : regex) : nat :=
  match r with
  | Eps | Chr _ => 0
  | Cat r1 r2 | Alt r1 r2 => ngroups r1 + ngroups r2
  | Star r1 => ngroups r1
  | Group _ r1 => S (ngroups r1)
  end.

(** A match object, as far as the processor looks at it: [m.groups()],
    with [None] for a group that took no part in the match. *)
Definition Match : Type := list (option string).

Definition groups_of (r : regex) (c : captures) : Match :=
  map (fun i => lookup i c) (seq 1 (ngroups r)).

(** [m.group(i)] for [1 <= i <= re.groups]. *)
Definition group (m : Match) (i : nat) : option string :=
  match nth_error m (i - 1) with
  | Some g => g
  | None => None
  end.

Definition match_here (r : regex) (s : string) : option captures :=
  rmatch r s [] (fun _ c => Some c).

Fixpoint search_captures (r : regex) (s : string) : option captures :=
  match match_here r s with
  | Some c => Some c
  | None =>
      match s with
      | EmptyString => None
      | String _ s' => search_captures r s'
      end
  end.

(** [pattern.search(s)] *)
Definition search (r : regex) (s : string) : option Match :=
  match search_captures r s with
  | Some c => Some (groups_of r c)
  | None => None
  end.

(** *** What a match is *)

(** [cmatch r w c c']: the expression [r] matches exactly the text [w] and
    takes the captures [c] to [c'].  Every iteration of a repetition
    consumes something. *)
Inductive cmatch : regex -> string -> captures -> captures -> Prop :=
| CM_Eps c : cmatch Eps "" c c
| CM_Chr (p : ascii -> bool) a c :
    p a = true -> cmatch (Chr p) (String a "") c c
| CM_Cat r1 r2 w1 w2 c c1 c2 :
    cmatch r1 w1 c c1 -> cmatch r2 w2 c1 c2 ->
    cmatch (Cat r1 r2) (w1 +:+ w2) c c2
| CM_AltL r1 r2 w c c' : cmatch r1 w c c' -> cmatch (Alt r1 r2) w c c'
| CM_AltR r1 r2 w c c' : cmatch r2 w c c' -> cmatch (Alt r1 r2) w c c'
| CM_Star_nil r c : cmatch (Star r) "" c c
| CM_Star_cons r w1 w2 c c1 c2 :
    cmatch r w1 c c1 -> w1 <> "" -> cmatch (Star r) w2 c1 c2 ->
    cmatch (Star r) (w1 +:+ w2) c c2
| CM_Group n r w c c' :
    cmatch r w c c' -> cmatch (Group n r) w c ((n, w) :: c').

(** A successful run of the matcher went through a match of [r] and then
    through its continuation. *)
Definition sound_at (run : string -> captures -> cont -> option captures)
           (r : regex) : Prop :=
  forall s c k res,
    run s c k = Some res ->
    exists w s' c', s = w +:+ s' /\ cmatch r w c c' /\ k s' c' = Some res.

(** The groups of an expression in which every group sits on the spine of
    concatenations (under no alternative and no repetition) and holds no
    group itself; [None] for another expression. *)
Fixpoint spine_groups (r : regex) : option (list nat) :=
  match r with
  | Eps | Chr _ => Some []
  | Cat r1 r2 =>
      match spine_groups r1, spine_groups r2 with
      | Some a, Some b => Some (a ++ b)
      | _, _ => None
      end
  | Group n r1 => if ngroups r1 =? 0 then Some [n] else None
  | Alt _ _ | Star _ => if ngroups r =? 0 then Some [] else None
  end.

(** *** Pattern syntax *)

Fixpoint seq_ (rs : list regex) : regex :=
  match rs with
  | [] => Eps
  | [r] => r
  | r :: rs' => Cat r (seq_ rs')
  end.

Definition plus (r : regex) : regex := Cat r (Star r).
Definition opt (r : regex) : regex := Alt r Eps.

(** A literal character, respectively text, under [re.I]. *)
Definition chr_ci (p : ascii) : regex := Chr (Char.eqb_ci p).

Fixpoint lit (s : string) : regex :=
  match s with
  | EmptyString => Eps
  | String p EmptyString => chr_ci p
  | String p s' => Cat (chr_ci p) (lit s')
  end.

Definition dot : regex := Chr (fun c => negb (Ascii.eqb c Char.newline)).
Definition ws : regex := Chr Char.isspace.
Definition nonws : regex := Chr (fun c => negb (Char.isspace c)).
Definition digit : regex := Chr Char.isdecimal.
Definition word : regex := Chr Char.isword.
Definition notchr (p : ascii) : regex := Chr (fun c => negb (Ascii.eqb c p)).
Definition digit_or_dot : regex :=
  Chr (fun c => Char.isdecimal c || Ascii.eqb c ".").

End Re.

(** ** Data model *)

Inductive SecuritySeverity : Type := CRITICAL | HIGH | MEDIUM | LOW.

Inductive SecurityRule : Type := EGRESS | BRUTE_FORCE | SUDO | OOM_KILL | OTHER.

Definition severity_value (s : SecuritySeverity) : string :=
  match s with
  | CRITICAL => "critical"
  | HIGH => "high"
  | MEDIUM => "medium"
  | LOW => "low"
  end.

Definition rule_value (r : SecurityRule) : string :=
  match r with
  | EGRESS => "egress"
  | BRUTE_FORCE => "brute_force"
  | SUDO => "sudo"
  | OOM_KILL => "oom_kill"
  | OTHER => "other"
  end.

Global Instance SecuritySeverity_eq_dec : EqDecision SecuritySeverity.
Proof. solve_decision. Defined.

Global Instance SecurityRule_eq_dec : EqDecision SecurityRule.
Proof. solve_decision. Defined.

Record datetime : Type := mk_datetime {
  year : nat; month : nat; day : nat;
  hour : nat; minute : nat; second : nat; microsecond : nat
}.

(** A metadata dictionary: a value is a captured group, [None] when the
    group took no part in the match. *)
Abbreviation Metadata := (gmap string (option string)).

Record SecurityEvent : Type := mk_event {
  vm_name : string;
  timestamp : datetime;
  source : string;
  message : string;
  severity : SecuritySeverity;
  rule : SecurityRule;
  metadata : option Metadata
}.

(** Exceptions that the modelled code can raise. *)
Inductive exn : Type := AttributeError.

Inductive outcome (A : Type) : Type :=
| Return (a : A)
| Raise (e : exn).
Arguments Return {A} a.
Arguments Raise {A} e.

Definition bind {A B : Type} (x : outcome A) (f : A -> outcome B) : outcome B :=
  match x with
  | Return a => f a
  | Raise e => Raise e
  end.

(** ** The pattern registry *)

Module Patterns.
Import Re.

Definition egress_1 : regex :=
  seq_ [lit "kernel:"; Star dot; lit "egress"; Star ws;
        chr_ci "("; plus digit; chr_ci ")"; Star ws;
        lit "pid"; plus ws; Group 1 (plus digit); plus ws;
        lit "read"; plus ws;
        Group 2 (Alt (plus nonws)
                     (seq_ [chr_ci "("; plus (notchr ")"); chr_ci ")"]));
        plus ws; lit "write"; plus ws; Group 3 (Star nonws); plus ws;
        lit "uid"; plus ws; Group 4 (plus digit); plus ws;
        lit "gid"; plus ws; Group 5 (plus digit)].

Definition brute_force_1 : regex :=
  seq_ [lit "sshd["; plus digit; lit "]:"; Star ws;
        lit "Failed"; plus ws; lit "password"; plus ws; lit "for"; plus ws;
        opt (seq_ [lit "invalid"; plus ws; lit "user"; plus ws]);
        Group 1 (plus word); plus ws; lit "from"; plus ws;
        Group 2 (plus digit_or_dot)].

Definition brute_force_2 : regex :=
  seq_ [lit "sshd["; plus digit; lit "]:"; Star ws;
        lit "Invalid"; plus ws; lit "user"; plus ws;
        Group 1 (plus word); plus ws; lit "from"; plus ws;
        Group 2 (plus digit_or_dot)].

Definition brute_force_3 : regex :=
  seq_ [lit "sudo:"; Star dot; lit "user"; plus ws; lit "NOT"; plus ws;
        lit "in"; plus ws; lit "sudoers"; Star dot;
        lit "USER="; Group 1 (plus word); Star dot;
        lit "COMMAND="; Group 2 (plus dot)].

Definition sudo_1 : regex :=
  seq_ [lit "sudo:"; Star ws; Group 1 (plus word); Star ws; chr_ci ":";
        Star dot; lit "TTY="; Star dot; lit "USER="; Group 2 (plus word);
        plus ws; lit "COMMAND="; Group 3 (plus dot)].

Definition sudo_2 : regex :=
  seq_ [lit "sudo:"; Star ws; lit "pam_unix(sudo:session):"; Star ws;
        lit "session"; plus ws;
        Group 1 (Alt (lit "opened") (lit "closed")); plus ws;
        lit "for"; plus ws; lit "user"; plus ws; Group 2 (plus word)].

Definition sudo_3 : regex :=
  seq_ [lit "su:"; Star ws; lit "pam_unix(su:session):"; Star ws;
        lit "session"; plus ws; lit "opened"; plus ws;
        lit "for"; plus ws; lit "user"; plus ws; Group 1 (plus word);
        Star dot; lit "by"; plus ws; Group 2 (plus word)].

Definition oom_kill_1 : regex :=
  seq_ [lit "kernel:"; Star dot; lit "Out"; plus ws; lit "of"; plus ws;
        lit "memory:"; Star ws; lit "Kill"; plus ws; lit "process"; plus ws;
        Group 1 (plus digit); Star ws; chr_ci "(";
        Group 2 (plus (notchr ")")); chr_ci ")"].

Definition oom_kill_2 : regex :=
  seq_ [lit "kernel:"; Star dot; lit "oom-kill:"; Star dot;
        lit "killed"; plus ws; lit "process"; plus ws;
        Group 1 (plus digit)].

(** [self.patterns]: a dictionary, iterated in insertion order. *)
Definition patterns : list (SecurityRule * list regex) :=
  [ (EGRESS, [egress_1]);
    (BRUTE_FORCE, [brute_force_1; brute_force_2; brute_force_3]);
    (SUDO, [sudo_1; sudo_2; sudo_3]);
    (OOM_KILL, [oom_kill_1; oom_kill_2]) ].

End Patterns.

(** ** Line classification *)

(** [len(match.groups()) > 1] guards the access to group 2; [.lower()] on a
    group that took no part in the match ([None]) raises. *)
Definition _get_severity (rule : SecurityRule) (m : Re.Match) (message : string)
  : outcome SecuritySeverity :=
  match rule with
  | EGRESS =>
      bind (if 1 <? length m
            then match Re.group m 2 with
                 | Some g => Return g
                 | None => Raise AttributeError
                 end
            else Return "")
           (fun read_file =>
              if existsb (fun ext => Str.contains ext (Str.lower read_file))
                         [".csv"; ".zip"; ".sql"; ".key"; ".pem"]
              then Return CRITICAL
              else Return HIGH)
  | BRUTE_FORCE => Return HIGH
  | SUDO =>
      if Str.contains "USER=root" message
         || Str.contains "session opened for user root" message
      then Return HIGH
      else Return MEDIUM
  | OOM_KILL => Return MEDIUM
  | OTHER => Return LOW
  end.

(** [groups[i]] of [match.groups()], used under a length guard. *)
Definition item (groups : Re.Match) (i : nat) : option string :=
  nth i groups None.

Definition _extract_metadata (rule : SecurityRule) (m : Re.Match) (message : string)
  : Metadata :=
  match rule with
  | EGRESS =>
      if 5 <=? length m
      then <["gid" := item m 4]> (<["uid" := item m 3]>
           (<["write_dest" := item m 2]> (<["read_file" := item m 1]>
           (<["pid" := item m 0]> ∅))))
      else ∅
  | BRUTE_FORCE =>
      if 2 <=? length m
      then <["source_ip" := item m 1]> (<["username" := item m 0]> ∅)
      else ∅
  | SUDO =>
      if 1 <=? length m
      then
        let metadata := <["user" := item m 0]> ∅ in
        if 3 <=? length m
        then <["command" := item m 2]> metadata
        else metadata
      else ∅
  | _ => ∅
  end.

(** The inner loop of [parse_log_line]: the first pattern of the list that
    is found in the message, with its position in the list. *)
Fixpoint first_pattern (ps : list Re.regex) (idx : nat) (msg : string)
  : option (nat * Re.Match) :=
  match ps with
  | [] => None
  | p :: ps' =>
      match Re.search p msg with
      | Some m => Some (idx, m)
      | None => first_pattern ps' (S idx) msg
      end
  end.

(** The outer loop: the rules in the registry's order. *)
Fixpoint first_rule (reg : list (SecurityRule * list Re.regex)) (msg : string)
  : option (SecurityRule * nat * Re.Match) :=
  match reg with
  | [] => None
  | (rule, ps) :: reg' =>
      match first_pattern ps 0 msg with
      | Some (idx, m) => Some (rule, idx, m)
      | None => first_rule reg' msg
      end
  end.

Section Processor.

(** [datetime.strptime(s, '%Y-%m-%d %H:%M:%S')]; [None] is [ValueError]. *)
Variable strptime : string -> option datetime.

(** [now] is what [datetime.now()] returns if it is called. *)
Definition parse_log_line (now : datetime) (line : string)
  : outcome (option SecurityEvent) :=
  if String.eqb (Str.strip line) "" then Return None
  else
    match Str.split " | " 3 (Str.strip line) with
    | [timestamp_str; vm_name; source; original_message] =>
        let timestamp :=
          match strptime timestamp_str with
          | Some t => t
          | None => now
          end in
        match first_rule Patterns.patterns original_message with
        | Some (rule, _, m) =>
            bind (_get_severity rule m original_message)
                 (fun severity =>
                    let metadata := _extract_metadata rule m original_message in
                    Return (Some (mk_event vm_name timestamp source
                                           (Str.strip line) severity rule
                                           (Some metadata))))
        | None => Return None
        end
    | _ => Return None
    end.

End Processor.

(** ** Batch analysis *)

(** [str(n)] for a count. *)
Definition dec (n : nat) : string := NilEmpty.string_of_uint (Nat.to_uint n).

(** A [defaultdict(int)]: keys in insertion order. *)
Abbreviation Counter := (list (string * nat)).

Module Counter.

(** The stored count, [0] for an absent key. *)
Fixpoint get (k : string) (t : Counter) : nat :=
  match t with
  | [] => 0
  | (k', n) :: t' => if String.eqb k' k then n else get k t'
  end.

(** [t[k] += 1]: a new key goes last. *)
Fixpoint incr (k : string) (t : Counter) : Counter :=
  match t with
  | [] => [(k, 1)]
  | (k', n) :: t' =>
      if String.eqb k' k then (k', S n) :: t' else (k', n) :: incr k t'
  end.

(** Reading [t[k]] stores the default for an absent key. *)
Fixpoint touch (k : string) (t : Counter) : Counter :=
  match t with
  | [] => [(k, 0)]
  | (k', n) :: t' =>
      if String.eqb k' k then t else (k', n) :: touch k t'
  end.

Definition keys (t : Counter) : list string := map fst t.

(** A counter as the loop builds it: no key twice, no zero count. *)
Definition wf (t : Counter) : Prop :=
  NoDup (keys t) /\ forall k n, In (k, n) t -> 0 < n.

End Counter.

Record Analysis : Type := mk_analysis {
  total_events : nat;
  severity_breakdown : Counter;
  rule_breakdown : Counter;
  threats : list string;
  recommendations : list string
}.

(** The local variables that the loop of [analyze_events] updates. *)
Record tallies : Type := mk_tallies {
  by_severity : Counter;
  by_rule : Counter;
  ip_failures : Counter;
  user_sudo_attempts : Counter;
  egress_files : list string
}.

Definition no_tallies : tallies := mk_tallies [] [] [] [] [].

(** [metadata.get(key)] behind the test [event.metadata]: nothing for a
    missing or empty dictionary. *)
Definition metadata_get (event : SecurityEvent) (key : string) : option string :=
  match metadata event with
  | Some md => if decide (md = ∅) then None else default None (md !! key)
  | None => None
  end.

(** The truth value of [v] where [v] is a string or [None]. *)
Definition truthy (v : option string) : option string :=
  match v with
  | Some s => if String.eqb s "" then None else Some s
  | None => None
  end.

Definition track (event : SecurityEvent) (st : tallies) : tallies :=
  let sev := Counter.incr (severity_value (severity event)) (by_severity st) in
  let rul := Counter.incr (rule_value (rule event)) (by_rule st) in
  let ips :=
    match rule event, truthy (metadata_get event "source_ip") with
    | BRUTE_FORCE, Some ip => Counter.incr ip (ip_failures st)
    | _, _ => ip_failures st
    end in
  let users :=
    match rule event, truthy (metadata_get event "user") with
    | SUDO, Some user => Counter.incr user (user_sudo_attempts st)
    | _, _ => user_sudo_attempts st
    end in
  let files :=
    match rule event, truthy (metadata_get event "read_file") with
    | EGRESS, Some read_file =>
        if String.eqb read_file "(null)" then egress_files st
        else egress_files st ++ [read_file]
    | _, _ => egress_files st
    end in
  mk_tallies sev rul ips users files.

Definition tally (events : list SecurityEvent) : tallies :=
  fold_left (fun st event => track event st) events no_tallies.

Definition brute_force_line (ip : string) (count : nat) : string :=
  "Brute force attack from " +:+ ip +:+ ": " +:+ dec count +:+ " failed attempts".

Definition sudo_line (user : string) (count : nat) : string :=
  "Excessive sudo usage by " +:+ user +:+ ": " +:+ dec count +:+ " attempts".

Definition exfiltration_line (n : nat) : string :=
  "Data exfiltration detected: " +:+ dec n +:+ " unique files accessed".

Definition rec_investigate : string :=
  "Immediate investigation required for critical events".
Definition rec_rate_limit : string :=
  "Consider implementing IP-based rate limiting".
Definition rec_dlp : string :=
  "Review file access permissions and implement DLP controls".

Definition brute_force_threats (st : tallies) : list string :=
  flat_map (fun '(ip, count) =>
              if 5 <? count then [brute_force_line ip count] else [])
           (ip_failures st).

Definition sudo_threats (st : tallies) : list string :=
  flat_map (fun '(user, count) =>
              if 10 <? count then [sudo_line user count] else [])
           (user_sudo_attempts st).

Definition exfiltration_threats (st : tallies) : list string :=
  match egress_files st with
  | [] => []
  | files => [exfiltration_line (length (remove_dups files))]
  end.

Definition analyze_events (events : list SecurityEvent) : Analysis :=
  let st := tally events in
  let sev := Counter.touch "critical" (by_severity st) in
  mk_analysis
    (length events)
    sev
    (by_rule st)
    (brute_force_threats st ++ sudo_threats st ++ exfiltration_threats st)
    ((if 0 <? Counter.get "critical" sev then [rec_investigate] else [])
     ++ (if 3 <? length (ip_failures st) then [rec_rate_limit] else [])
     ++ (match egress_files st with [] => [] | _ => [rec_dlp] end)).

(** ** Vocabulary of the statements *)

(** The four fields of a line, when it has them. *)
Definition fields (line : string) : list string :=
  Str.split " | " 3 (Str.strip line).

(** No pattern of the list is found in the message. *)
Definition none_found (msg : string) (ps : list Re.regex) : Prop :=
  Forall (fun p => Re.search p msg = None) ps.

(** No rule of the registry has a pattern found in the message. *)
Definition none_applies (msg : string)
           (reg : list (SecurityRule * list Re.regex)) : Prop :=
  Forall (fun entry => none_found msg (snd entry)) reg.

(** The patterns that the registry has for a rule. *)
Definition patterns_of (rule : SecurityRule) : list Re.regex :=
  flat_map (fun entry => if decide (fst entry = rule) then snd entry else [])
           Patterns.patterns.

(** The pattern occurs in the message: some part of the message is a match
    of it. *)
Definition occurs (p : Re.regex) (msg : string) : Prop :=
  exists before w after c,
    msg = before +:+ w +:+ after /\ Re.cmatch p w [] c.

(** The pattern is found in the message. *)
Definition found (p : Re.regex) (msg : string) : bool :=
  match Re.search p msg with
  | Some _ => true
  | None => false
  end.

(** A pattern of the rule is found in the message. *)
Definition rule_found (rule : SecurityRule) (msg : string) : bool :=
  existsb (fun p => found p msg) (patterns_of rule).

(** The source address that an event adds to the brute-force count: the
    event is a brute-force one and its metadata has a non-empty
    [source_ip]. *)
Definition attempt_ip (event : SecurityEvent) : option string :=
  match rule event with
  | BRUTE_FORCE => truthy (metadata_get event "source_ip")
  | _ => None
  end.

(** The key under which a sudo event is counted. *)
Definition sudo_user (event : SecurityEvent) : option string :=
  match rule event with
  | SUDO => truthy (metadata_get event "user")
  | _ => None
  end.

(** How often [key] is what [f] finds in the events of a batch. *)
Definition occurrences (f : SecurityEvent -> option string) (key : string)
           (events : list SecurityEvent) : nat :=
  length (List.filter (fun event => bool_decide (f event = Some key)) events).

(** The brute-force attempts of a batch that come from [ip]. *)
Definition attempts : string -> list SecurityEvent -> nat :=
  occurrences attempt_ip.

(** The addresses counted in a batch, one per counted event. *)
Definition offending_ips (events : list SecurityEvent) : list string :=
  omap attempt_ip events.

(** One step of a counter of the loop. *)
Definition bump (o : option string) (t : Counter) : Counter :=
  match o with
  | Some k => Counter.incr k t
  | None => t
  end.

Definition not_colon (c : ascii) : bool := negb (Ascii.eqb c ":").

(** The file endings that make an egress event critical. *)
Definition sensitive_endings : list string :=
  [".csv"; ".zip"; ".sql"; ".key"; ".pem"].

(** [sub] occurs in [s], letter case apart. *)
Definition contains_ci (sub s : string) : Prop :=
  exists a u b, s = a +:+ u +:+ b /\ Str.lower u = sub.

(** ** Sample inputs *)

Module Sample.

Fixpoint number (cs : list ascii) (acc : nat) : option nat :=
  match cs with
  | [] => Some acc
  | c :: cs' =>
      match Ascii.is_nat c with
      | Some d => number cs' (10 * acc + d)
      | None => None
      end
  end.

(** An instance of the parameter [strptime] for the examples: it reads the
    fixed-width form [YYYY-MM-DD HH:MM:SS] and nothing else. *)
Definition strptime (s : string) : option datetime :=
  match list_ascii_of_string s with
  | [y1; y2; y3; y4; a; m1; m2; b; d1; d2; c; h1; h2; e; n1; n2; f; s1; s2] =>
      if Ascii.eqb a "-" && Ascii.eqb b "-" && Ascii.eqb c " "
         && Ascii.eqb e ":" && Ascii.eqb f ":"
      then
        match number [y1; y2; y3; y4] 0, number [m1; m2] 0,
              number [d1; d2] 0, number [h1; h2] 0,
              number [n1; n2] 0, number [s1; s2] 0 with
        | Some y, Some mo, Some d, Some h, Some mi, Some se =>
            if (1 <=? y) && (1 <=? mo) && (mo <=? 12) && (1 <=? d)
               && (d <=? 31) && (h <=? 23) && (mi <=? 59) && (se <=? 59)
            then Some (mk_datetime y mo d h mi se 0)
            else None
        | _, _, _, _, _, _ => None
        end
      else None
  | _ => None
  end.

Definition now : datetime := mk_datetime 2025 6 1 12 30 0 0.
Definition later : datetime := mk_datetime 2025 6 1 12 30 5 0.

(** A failed log-in from [ip], as the parser classifies it. *)
Definition attempt (ip : string) : SecurityEvent :=
  mk_event "u2-vm30000" now "auth.log"
           ("2024-01-01 00:00:00 | u2-vm30000 | auth.log | sshd[123]: Failed password for root from " +:+ ip)
           HIGH BRUTE_FORCE
           (Some (<["source_ip" := Some ip]> (<["username" := Some "root"]> ∅))).

Definition ssh_line : string :=
  "2024-01-01 00:00:00 | u2-vm30000 | auth.log | sshd[123]: Failed password for invalid user root from 10.0.0.5".

(** What the parser makes of [ssh_line]. *)
Definition ssh_event : SecurityEvent :=
  mk_event "u2-vm30000" (mk_datetime 2024 1 1 0 0 0 0) "auth.log" ssh_line
           HIGH BRUTE_FORCE
           (Some (<["source_ip" := Some "10.0.0.5"]>
                    (<["username" := Some "root"]> ∅))).

(** The same line with white space around it. *)
Definition ssh_line_padded : string :=
  "  2024-01-01 00:00:00 | u2-vm30000 | auth.log | sshd[123]: Failed password for invalid user root from 10.0.0.5  ".

Definition bad_time_line : string :=
  "yesterday | u2-vm30000 | auth.log | sshd[123]: Failed password for invalid user root from 10.0.0.5".

Definition egress_sql_body : string :=
  "kernel: [12.5] egress (7) pid 4242 read /srv/db/dump.SQL write 10.9.8.7:443 uid 1000 gid 1000".

Definition egress_sql_line : string :=
  "2024-01-01 00:00:00 | u2-vm30000 | kern.log | " +:+ egress_sql_body.

Definition egress_txt_body : string :=
  "kernel: [12.5] egress (7) pid 4242 read /srv/notes.txt write 10.9.8.7:443 uid 1000 gid 1000".

Definition egress_txt_line : string :=
  "2024-01-01 00:00:00 | u2-vm30000 | kern.log | " +:+ egress_txt_body.

(** A body with an egress, a brute-force and a sudo pattern. *)
Definition three_rules_body : string :=
  "kernel: egress (1) pid 2 read /etc/passwd write 10.0.0.9 uid 0 gid 0 sshd[1]: Failed password for root from 10.0.0.5 sudo: bob : TTY=pts/0 USER=root COMMAND=/bin/sh".

Definition three_rules_line : string :=
  "2024-01-01 00:00:00 | u2-vm30000 | syslog | " +:+ three_rules_body.

(** A body with a brute-force and a sudo pattern. *)
Definition two_rules_body : string :=
  "sshd[1]: Failed password for root from 10.0.0.5 sudo: bob : TTY=pts/0 USER=root COMMAND=/bin/sh".

Definition two_rules_line : string :=
  "2024-01-01 00:00:00 | u2-vm30000 | auth.log | " +:+ two_rules_body.

Definition pam_body : string :=
  "sudo: pam_unix(sudo:session): session opened for user root by alice(uid=1000)".

Definition pam_line : string :=
  "2024-01-01 00:00:00 | u2-vm30000 | auth.log | " +:+ pam_body.

(** The PAM line in capital letters. *)
Definition pam_upper_body : string :=
  "SUDO: PAM_UNIX(SUDO:SESSION): SESSION OPENED FOR USER ROOT BY ALICE(UID=1000)".

Definition pam_upper_line : string :=
  "2024-01-01 00:00:00 | u2-vm30000 | auth.log | " +:+ pam_upper_body.

(** A PAM session line after a sudo command line. *)
Definition pam_after_command_body : string :=
  "sudo: bob : TTY=pts/0 USER=root COMMAND=/bin/sh sudo: pam_unix(sudo:session): session opened for user root".

Definition pam_after_command_line : string :=
  "2024-01-01 00:00:00 | u2-vm30000 | auth.log | " +:+ pam_after_command_body.

Definition sudoers_body : string :=
  "sudo: mallory : user NOT in sudoers ; TTY=pts/1 ; PWD=/home/mallory ; USER=root ; COMMAND=/usr/bin/cat /etc/shadow".

Definition sudoers_line : string :=
  "2024-01-01 00:00:00 | u2-vm30000 | auth.log | " +:+ sudoers_body.

(** A failed log-in followed by the sudoers complaint. *)
Definition sudoers_after_ssh_body : string :=
  "sshd[1]: Failed password for root from 10.0.0.5 sudo: mallory : user NOT in sudoers ; USER=root ; COMMAND=/bin/sh".

Definition sudoers_after_ssh_line : string :=
  "2024-01-01 00:00:00 | u2-vm30000 | auth.log | " +:+ sudoers_after_ssh_body.

(** A body that holds the delimiter. *)
Definition bar_line : string :=
  "2024-01-01 00:00:00 | u2-vm30000 | auth.log | cron | sshd[9]: Invalid user guest from 192.168.1.20".

End Sample.

(** ** Vocabulary of the further statements *)

(** The file that an event adds to the list of read files: the event is an
    egress one and its metadata has a [read_file] that is neither empty nor
    [(null)]. *)
Definition egress_file (event : SecurityEvent) : option string :=
  match rule event with
  | EGRESS =>
      match truthy (metadata_get event "read_file") with
      | Some f => if String.eqb f "(null)" then None else Some f
      | None => None
      end
  | _ => None
  end.

(** The keys of the two breakdowns. *)
Definition severity_key (event : SecurityEvent) : option string :=
  Some (severity_value (severity event)).

Definition rule_key (event : SecurityEvent) : option string :=
  Some (rule_value (rule event)).

(** The distinct elements of a list, in the order of their first
    occurrences. *)
Fixpoint dedup_first (l : list string) : list string :=
  match l with
  | [] => []
  | x :: l' => x :: List.filter (fun y => negb (String.eqb y x)) (dedup_first l')
  end.

(** The sum of the counts of a counter. *)
Definition counter_total (t : Counter) : nat := list_sum (map snd t).

(** The events of a batch that have the severity [s]. *)
Definition with_severity (s : SecuritySeverity) (events : list SecurityEvent)
  : nat :=
  length (List.filter (fun event => bool_decide (severity event = s)) events).

Definition not_space (c : ascii) : bool := negb (Ascii.eqb c " ").

(** A key enters a list of keys at its end, once. *)
Definition add_key (acc : list string) (x : string) : list string :=
  if in_dec string_dec x acc then acc else acc ++ [x].

(** [y] is not in [acc]. *)
Definition outside (acc : list string) (y : string) : bool :=
  if in_dec string_dec y acc then false else true.

(** ** Saving events and processing files *)

(** The three statements that the processor sends to the database, with
    their arguments: the upsert of the host [INSERT INTO Host ... RETURNING
    id], the upsert of a virtual machine [INSERT INTO VM ... RETURNING id]
    and the insertion of an event [INSERT INTO SecurityEvent].  The row of
    an event has the six values that [save_event] passes; the metadata of
    the event is not among them. *)
Inductive statement : Type :=
| UpsertHost (name : string)
| UpsertVM (name : string) (host_id : Z)
| InsertEvent (vm_id : Z) (timestamp : datetime) (source message : string)
              (severity rule : string).

(** The fields of a [SecurityProcessor] that the modelled methods use,
    with the statements sent to the database so far, oldest first.
    [db_pool] is whether there is a connection pool. *)
Record SecurityProcessor : Type := mk_processor {
  db_pool : bool;
  vm_cache : gmap string Z;
  sent : list statement
}.

(** The message [str(e)] of an exception. *)
Definition exn_message (e : exn) : string :=
  match e with
  | AttributeError => "'NoneType' object has no attribute 'lower'"
  end.

(** What opening a file and iterating over it gives: the lines that are
    read and then the end of the file or an exception with its message. *)
Record reading : Type := mk_reading {
  lines : list string;
  failure : option string
}.

(** The statistics dictionary of [process_log_file], without its two clock
    readings [start_time] and [duration]; [error] is the key that the
    exception handler adds. *)
Record FileStats : Type := mk_stats {
  file : string;
  lines_processed : nat;
  events_found : nat;
  events_saved : nat;
  events_by_severity : Counter;
  events_by_rule : Counter;
  error : option string
}.

(** What [process_log_file] returns: the dictionary with the key [error]
    only, or the statistics. *)
Inductive FileReport : Type :=
| NotFound (error : string)
| Report (stats : FileStats).

(** [stats.get("events_found", 0)] and [stats.get("events_saved", 0)]. *)
Definition found_of (r : FileReport) : nat :=
  match r with
  | NotFound _ => 0
  | Report stats => events_found stats
  end.

Definition saved_of (r : FileReport) : nat :=
  match r with
  | NotFound _ => 0
  | Report stats => events_saved stats
  end.

(** The dictionary of [process_all_logs], without its clock readings. *)
Record AllStats : Type := mk_all_stats {
  total_files : nat;
  files_processed : nat;
  all_events : nat;
  total_saved : nat;
  file_stats : list FileReport
}.

(** [s.endswith(suffix)] *)
Fixpoint endswith (suffix s : string) : bool :=
  String.eqb s suffix
  || match s with
     | EmptyString => false
     | String _ s' => endswith suffix s'
     end.

(** [os.path.join(a, b)] of [posixpath]. *)
Definition path_join (a b : string) : string :=
  if String.prefix "/" b then b
  else if String.eqb a "" || endswith "/" a then a +:+ b
  else a +:+ "/" +:+ b.

Section Files.

(** [datetime.strptime(s, '%Y-%m-%d %H:%M:%S')], as for the parser. *)
Variable strptime : string -> option datetime.

(** What [datetime.now()] gives if it is read while line [n] of the file
    [path] is parsed. *)
Variable clock : string -> nat -> datetime.

(** The files that exist ([os.path.exists]) and what reading them gives. *)
Variable fs : string -> option reading.

(** The database: its answer to a statement after the statements sent
    before it.  [None] is an exception; a value is the [id] that a
    [fetchval] returns, and is ignored for [execute]. *)
Variable respond : list statement -> statement -> option Z.

(** One call of the pool. *)
Definition run (q : statement) (p : SecurityProcessor)
  : option Z * SecurityProcessor :=
  (respond (sent p) q, mk_processor (db_pool p) (vm_cache p) (sent p ++ [q])).

Definition ensure_vm_exists (vm_name : string) (p : SecurityProcessor)
  : Z * SecurityProcessor :=
  match vm_cache p !! vm_name with
  | Some vm_id => (vm_id, p)
  | None =>
      if negb (db_pool p) then (1%Z, p)
      else
        match run (UpsertHost "default-host") p with
        | (None, p1) => (1%Z, p1)
        | (Some host_id, p1) =>
            match run (UpsertVM vm_name host_id) p1 with
            | (None, p2) => (1%Z, p2)
            | (Some vm_id, p2) =>
                (vm_id,
                 mk_processor (db_pool p2) (<[vm_name := vm_id]> (vm_cache p2))
                              (sent p2))
            end
        end
  end.

Definition save_event (event : SecurityEvent) (p : SecurityProcessor)
  : bool * SecurityProcessor :=
  if negb (db_pool p) then (false, p)
  else
    let '(vm_id, p1) := ensure_vm_exists (vm_name event) p in
    match run (InsertEvent vm_id (timestamp event) (source event)
                           (message event)
                           (severity_value (severity event))
                           (rule_value (rule event))) p1 with
    | (Some _, p2) => (true, p2)
    | (None, p2) => (false, p2)
    end.

(** The body of the loop of [process_log_file] on the lines from number
    [n] on.  An exception ends the loop; the statistics keep what was
    counted before it. *)
Fixpoint process_lines (path : string) (n : nat) (ls : list string)
         (stats : FileStats) (p : SecurityProcessor)
  : FileStats * SecurityProcessor * option exn :=
  match ls with
  | [] => (stats, p, None)
  | line :: rest =>
      let stats1 :=
        mk_stats (file stats) (S (lines_processed stats)) (events_found stats)
                 (events_saved stats) (events_by_severity stats)
                 (events_by_rule stats) (error stats) in
      match parse_log_line strptime (clock path n) line with
      | Raise e => (stats1, p, Some e)
      | Return None => process_lines path (S n) rest stats1 p
      | Return (Some event) =>
          let '(saved, p') := save_event event p in
          let stats2 :=
            mk_stats (file stats1) (lines_processed stats1)
                     (S (events_found stats1))
                     (if saved then S (events_saved stats1)
                      else events_saved stats1)
                     (Counter.incr (severity_value (severity event))
                                   (events_by_severity stats1))
                     (Counter.incr (rule_value (rule event))
                                   (events_by_rule stats1))
                     (error stats1) in
          process_lines path (S n) rest stats2 p'
      end
  end.

Definition process_log_file (file_path : string) (p : SecurityProcessor)
  : FileReport * SecurityProcessor :=
  match fs file_path with
  | None => (NotFound ("File not found: " +:+ file_path), p)
  | Some r =>
      let '(stats, p', e) :=
        process_lines file_path 1 (lines r)
                      (mk_stats file_path 0 0 0 [] [] None) p in
      let error' :=
        match e with
        | Some e => Some (exn_message e)
        | None =>
            match failure r with
            | Some msg => Some msg
            | None => error stats
            end
        end in
      (Report (mk_stats (file stats) (lines_processed stats)
                        (events_found stats) (events_saved stats)
                        (events_by_severity stats) (events_by_rule stats)
                        error'),
       p')
  end.

(** One turn of the loop of [process_all_logs]. *)
Definition process_one (log_file : string)
           (st : AllStats * SecurityProcessor) : AllStats * SecurityProcessor :=
  let '(all_stats, p) := st in
  match fs log_file with
  | Some _ =>
      let '(stats, p') := process_log_file log_file p in
      (mk_all_stats (total_files all_stats)
                    (S (files_processed all_stats))
                    (all_events all_stats + found_of stats)
                    (total_saved all_stats + saved_of stats)
                    (file_stats all_stats ++ [stats]),
       p')
  | None => st
  end.

Definition log_files (log_dir : string) : list string :=
  [path_join log_dir "auth.log"; path_join log_dir "kern.log";
   path_join log_dir "syslog"].

Definition process_all_logs (log_dir : string) (p : SecurityProcessor)
  : AllStats * SecurityProcessor :=
  fold_left (fun st log_file => process_one log_file st)
            (log_files log_dir)
            (mk_all_stats (length (log_files log_dir)) 0 0 0 [], p).

End Files.

(** ** Vocabulary of the statements on files *)

(** The events that the parser finds in the lines of a file, the first of
    which has the number [n]. *)
Fixpoint events_of (strptime : string -> option datetime)
         (clock : nat -> datetime) (n : nat) (ls : list string)
  : list SecurityEvent :=
  match ls with
  | [] => []
  | line :: rest =>
      match parse_log_line strptime (clock n) line with
      | Return (Some event) => event :: events_of strptime clock (S n) rest
      | _ => events_of strptime clock (S n) rest
      end
  end.

(** The row of an event: what an insertion carries besides the identifier
    of the virtual machine. *)
Definition row : Type := datetime * string * string * string * string.

Definition row_of (event : SecurityEvent) : row :=
  (timestamp event, source event, message event,
   severity_value (severity event), rule_value (rule event)).

Definition inserted (q : statement) : option row :=
  match q with
  | InsertEvent _ ts src msg sev rl => Some (ts, src, msg, sev, rl)
  | _ => None
  end.

(** The insertions among the statements [qs], sent after [before], that
    the database accepts. *)
Fixpoint accepted (respond : list statement -> statement -> option Z)
         (before qs : list statement) : nat :=
  match qs with
  | [] => 0
  | q :: rest =>
      (match inserted q, respond before q with
       | Some _, Some _ => 1
       | _, _ => 0
       end)
      + accepted respond (before ++ [q]) rest
  end.

(** The virtual machine that a statement looks up. *)
Definition looked_up (q : statement) : option string :=
  match q with
  | UpsertVM name _ => Some name
  | _ => None
  end.

(** The identifier under which a statement inserts an event. *)
Definition inserted_under (q : statement) : option Z :=
  match q with
  | InsertEvent vm_id _ _ _ _ _ => Some vm_id
  | _ => None
  end.

(** Saving the events of a list one after the other: how many are saved. *)
Fixpoint save_events (respond : list statement -> statement -> option Z)
         (events : list SecurityEvent) (p : SecurityProcessor)
  : nat * SecurityProcessor :=
  match events with
  | [] => (0, p)
  | event :: rest =>
      let '(saved, p1) := save_event respond event p in
      let '(k, p2) := save_events respond rest p1 in
      ((if saved then S k else k), p2)
  end.

(** One more event under its severity, respectively its rule. *)
Definition count_severity (t : Counter) (event : SecurityEvent) : Counter :=
  Counter.incr (severity_value (severity event)) t.

Definition count_rule (t : Counter) (event : SecurityEvent) : Counter :=
  Counter.incr (rule_value (rule event)) t.

(** What the parser returns, [None] also where it raises. *)
Definition parsed (strptime : string -> option datetime) (now : datetime)
           (line : string) : option SecurityEvent :=
  match parse_log_line strptime now line with
  | Return r => r
  | Raise _ => None
  end.

(** The insertion of an event under the identifier [vm_id]. *)
Definition insertion (vm_id : Z) (event : SecurityEvent) : statement :=
  InsertEvent vm_id (timestamp event) (source event) (message event)
              (severity_value (severity event)) (rule_value (rule event)).

(** The database accepts the statement [q] after the statements [before]. *)
Definition accepts (respond : list statement -> statement -> option Z)
           (before : list statement) (q : statement) : bool :=
  match respond before q with
  | Some _ => true
  | None => false
  end.

(** The file of a report, if it is one of a file that was read. *)
Definition report_file (r : FileReport) : option string :=
  match r with
  | NotFound _ => None
  | Report stats => Some (file stats)
  end.

(** The file exists. *)
Definition exists_in (fs : string -> option reading) (path : string) : bool :=
  match fs path with
  | Some _ => true
  | None => false
  end.

(** ** Sample files and a sample database *)

Module SampleFiles.

Definition clock (path : string) (n : nat) : datetime := Sample.now.

Definition end_of_line : string := String Char.newline "".

(** Three lines, two of which are events. *)
Definition auth_log : reading :=
  mk_reading [Sample.ssh_line +:+ end_of_line;
              "not a line of the format" +:+ end_of_line;
              Sample.pam_line +:+ end_of_line]
             None.

(** One line, after which reading fails. *)
Definition kern_log : reading :=
  mk_reading [Sample.egress_sql_line +:+ end_of_line]
             (Some "'utf-8' codec can't decode byte 0xff").

Definition fs (path : string) : option reading :=
  if String.eqb path "./auth.log" then Some auth_log
  else if String.eqb path "./kern.log" then Some kern_log
  else None.

(** A database that knows the host and every virtual machine and refuses
    the events of kern.log. *)
Definition respond (before : list statement) (q : statement) : option Z :=
  match q with
  | UpsertHost _ => Some 7%Z
  | UpsertVM _ _ => Some 42%Z
  | InsertEvent _ _ source _ _ _ =>
      if String.eqb source "kern.log" then None else Some 0%Z
  end.

Definition connected : SecurityProcessor := mk_processor true ∅ [].
Definition offline : SecurityProcessor := mk_processor false ∅ [].

End SampleFiles.

(** ** The scanner of virtual machines *)

(** [s.split(sep)] without a limit: a string has no more separators than
    characters. *)
Definition split_all (sep s : string) : list string :=
  Str.split sep (String.length s) s.

(** [str.isdigit] on one character: the decimal digits and the
    superscripts 1, 2 and 3. *)
Definition isdigit_char (c : ascii) : bool :=
  Char.isdecimal c
  || (Char.code c =? 178)%N || (Char.code c =? 179)%N
  || (Char.code c =? 185)%N.

(** [s.isdigit()]: false for the empty string. *)
Definition isdigit (s : string) : bool :=
  negb (String.eqb s "") && Str.all_chars isdigit_char s.

(** [sorted(l)] for strings, which compare by code points. *)
Fixpoint insert_sorted (x : string) (l : list string) : list string :=
  match l with
  | [] => [x]
  | y :: l' => if String.leb x y then x :: l else y :: insert_sorted x l'
  end.

Definition sorted (l : list string) : list string :=
  fold_right insert_sorted [] l.

(** The truth value of a list. *)
Definition nonempty {A : Type} (l : list A) : bool :=
  match l with
  | [] => false
  | _ :: _ => true
  end.

(** What [subprocess.run] gives: the two exceptions that the scanner tells
    apart, or the completed process. *)
Inductive run_result : Type :=
| TimeoutExpired
| RunError (message : string)
| Completed (returncode : Z) (stdout stderr : string).

(** The double quote of the shell commands. *)
Definition quote : string := String (ascii_of_nat 34) "".

Definition ssh_base_cmd : list string :=
  ["ssh"; "-o"; "ConnectTimeout=10"; "-o"; "StrictHostKeyChecking=no";
   "-o"; "UserKnownHostsFile=/dev/null"; "i4ops@u0"].

Definition log_names : list string := ["auth.log"; "kern.log"; "syslog"].

(** The test of the two discovery functions: the name of the directory of
    a virtual machine. *)
Definition is_vm_directory (item : string) : bool :=
  String.prefix "u" item
  && (isdigit (Str.drop 1 item) || Str.contains "-vm" item).

(** The line that the scanner hands to the parser. *)
Definition format_line (timestamp vm_name log_source line : string) : string :=
  timestamp +:+ " | " +:+ vm_name +:+ " | " +:+ log_source +:+ " | " +:+ line.

(** The statistics of [process_vm_logs], without [processing_time]:
    [vm] is the key [vm_name], [vm_found] and [vm_saved] are the keys
    [events_found] and [events_saved]. *)
Record VMStats : Type := mk_vm_stats {
  vm : string;
  logs_found : list string;
  logs_collected_ssh : list string;
  vm_found : nat;
  vm_saved : nat;
  errors : list string
}.

(** The statistics of [scan_all_vms], without the clock readings and
    without the key [error]: no function that it calls raises. *)
Record ScanStats : Type := mk_scan_stats {
  total_vms : nat;
  vms_processed : nat;
  total_events_found : nat;
  total_events_saved : nat;
  vm_results : list VMStats
}.

Section Scanner.

Variable strptime : string -> option datetime.

(** [datetime.now().strftime('%Y-%m-%d %H:%M:%S')] when line [k] of the
    log [log_source] is formatted. *)
Variable stamp : string -> nat -> string.

(** [datetime.now()] if the parser reads the clock for line [k] of the
    log [log_source]. *)
Variable now : string -> nat -> datetime.

(** The local files: which exist and what [readlines] gives, the size of
    a file that exists, the entries of a directory ([None]: [os.listdir]
    raises) and which paths are directories. *)
Variable fs : string -> option reading.
Variable getsize : string -> nat.
Variable listdir : string -> option (list string).
Variable isdir : string -> bool.

(** [subprocess.run] on a command. *)
Variable subprocess_run : list string -> run_result.

Variable respond : list statement -> statement -> option Z.

Variable base_path : string.

(** The part of the remote listing that passes the test, sorted. *)
Definition remote_directories (stdout : string) : list string :=
  sorted (List.filter
            (fun item => negb (String.eqb item "") && is_vm_directory item)
            (map Str.strip (split_all (String Char.newline "")
                                      (Str.strip stdout)))).

Definition discover_remote_vm_directories : list string :=
  match subprocess_run
          (ssh_base_cmd
           ++ ["ls -1 " +:+ base_path +:+ " 2>/dev/null || echo "
               +:+ quote +:+ "DIRECTORY_NOT_FOUND" +:+ quote]) with
  | Completed returncode stdout _ =>
      if (returncode =? 0)%Z
         && negb (String.eqb (Str.strip stdout) "DIRECTORY_NOT_FOUND")
      then remote_directories stdout
      else sorted []
  | TimeoutExpired => sorted []
  | RunError _ => sorted []
  end.

Definition discover_vm_directories : list string :=
  match fs base_path with
  | None => discover_remote_vm_directories
  | Some _ =>
      match listdir base_path with
      | Some items =>
          sorted (List.filter
                    (fun item => isdir (path_join base_path item)
                                 && is_vm_directory item)
                    items)
      | None => []
      end
  end.

Definition check_vm_logs_exist_locally (vm_dir : string)
  : list (string * bool) :=
  let vm_path := path_join base_path vm_dir in
  map (fun log_file =>
         let file_path := path_join vm_path log_file in
         (log_file,
          match fs file_path with
          | Some _ => 0 <? getsize file_path
          | None => false
          end))
      log_names.

(** One turn of the loop of [collect_logs_via_ssh]. *)
Definition collect_one (vm_name : string) (collected_logs : list (string * string))
           (log_file : string) : list (string * string) :=
  let remote_log_path :=
    base_path +:+ "/" +:+ vm_name +:+ "/" +:+ log_file in
  match subprocess_run
          (ssh_base_cmd
           ++ ["tail -1000 " +:+ remote_log_path
               +:+ " 2>/dev/null || echo "
               +:+ quote +:+ "FILE_NOT_FOUND" +:+ quote]) with
  | Completed returncode stdout _ =>
      if (returncode =? 0)%Z
         && negb (String.eqb (Str.strip stdout) "FILE_NOT_FOUND")
      then
        let log_content := Str.strip stdout in
        if negb (String.eqb log_content "")
        then collected_logs ++ [(log_file, log_content)]
        else collected_logs
      else collected_logs
  | TimeoutExpired => collected_logs
  | RunError _ => collected_logs
  end.

(** The dictionary of the collected logs, in the order of its keys. *)
Definition collect_logs_via_ssh (vm_name : string) : list (string * string) :=
  fold_left (collect_one vm_name) log_names [].

(** The loop of [format_log_lines] from line [k] on. *)
Fixpoint format_from (vm_name log_source : string) (k : nat)
         (ls : list string) : list string :=
  match ls with
  | [] => []
  | line :: rest =>
      let line := Str.strip line in
      if String.eqb line "" then format_from vm_name log_source (S k) rest
      else format_line (stamp log_source k) vm_name log_source line
           :: format_from vm_name log_source (S k) rest
  end.

Definition format_log_lines (vm_name log_source raw_content : string)
  : list string :=
  format_from vm_name log_source 0
              (split_all (String Char.newline "") raw_content).

(** What the scanner does with an event of the parser. *)
Definition count_event (event : option SecurityEvent)
           (st : VMStats * SecurityProcessor) : VMStats * SecurityProcessor :=
  match event with
  | Some event =>
      let '(stats, p) := st in
      let '(is_saved, p') := save_event respond event p in
      (mk_vm_stats (vm stats) (logs_found stats) (logs_collected_ssh stats)
                   (S (vm_found stats))
                   (if is_saved then S (vm_saved stats) else vm_saved stats)
                   (errors stats),
       p')
  | None => st
  end.

(** The loop over the formatted lines of a collected log; an exception
    ends it. *)
Fixpoint feed (log_source : string) (k : nat) (ls : list string)
         (st : VMStats * SecurityProcessor)
  : VMStats * SecurityProcessor * option exn :=
  match ls with
  | [] => (st, None)
  | line :: rest =>
      match parse_log_line strptime (now log_source k) line with
      | Raise e => (st, Some e)
      | Return event => feed log_source (S k) rest (count_event event st)
      end
  end.

(** The loop over the collected logs. *)
Fixpoint feed_collected (vm_name : string)
         (collected_logs : list (string * string))
         (st : VMStats * SecurityProcessor)
  : VMStats * SecurityProcessor * option exn :=
  match collected_logs with
  | [] => (st, None)
  | (log_source, log_content) :: rest =>
      if negb (String.eqb log_content "")
      then
        match feed log_source 0
                   (format_log_lines vm_name log_source log_content) st with
        | (st', None) => feed_collected vm_name rest st'
        | (st', Some e) => (st', Some e)
        end
      else feed_collected vm_name rest st
  end.

(** The loop over the lines of a local log. *)
Fixpoint feed_local (vm_name log_file : string) (k : nat) (ls : list string)
         (st : VMStats * SecurityProcessor)
  : VMStats * SecurityProcessor * option exn :=
  match ls with
  | [] => (st, None)
  | line :: rest =>
      let line := Str.strip line in
      if negb (String.eqb line "")
      then
        match parse_log_line strptime (now log_file k)
                             (format_line (stamp log_file k) vm_name log_file
                                          line) with
        | Raise e => (st, Some e)
        | Return event =>
            feed_local vm_name log_file (S k) rest (count_event event st)
        end
      else feed_local vm_name log_file (S k) rest st
  end.

(** [lines[-1000:]] *)
Definition last_1000 {A : Type} (l : list A) : list A :=
  skipn (length l - 1000) l.

Definition add_error (msg : string) (st : VMStats * SecurityProcessor)
  : VMStats * SecurityProcessor :=
  (mk_vm_stats (vm (fst st)) (logs_found (fst st))
               (logs_collected_ssh (fst st)) (vm_found (fst st))
               (vm_saved (fst st)) (errors (fst st) ++ [msg]),
   snd st).

(** One local log: the body of the loop and its exception handler. *)
Definition process_local (vm_name vm_path : string)
           (st : VMStats * SecurityProcessor) (log_file : string)
  : VMStats * SecurityProcessor :=
  let file_path := path_join vm_path log_file in
  let local_error (msg : string) :=
    "Error processing local log " +:+ log_file +:+ ": " +:+ msg in
  match fs file_path with
  | None =>
      add_error (local_error ("[Errno 2] No such file or directory: '"
                              +:+ file_path +:+ "'")) st
  | Some r =>
      match failure r with
      | Some msg => add_error (local_error msg) st
      | None =>
          match feed_local vm_name log_file 0 (last_1000 (lines r)) st with
          | (st', None) => st'
          | (st', Some e) => add_error (local_error (exn_message e)) st'
          end
      end
  end.

Definition process_vm_logs (vm_name : string) (p : SecurityProcessor)
  : VMStats * SecurityProcessor :=
  let local_status := check_vm_logs_exist_locally vm_name in
  let stats :=
    mk_vm_stats vm_name (map fst (List.filter snd local_status)) [] 0 0 [] in
  if negb (nonempty (logs_found stats))
  then
    let collected_logs := collect_logs_via_ssh vm_name in
    let stats' :=
      mk_vm_stats (vm stats) (logs_found stats) (map fst collected_logs)
                  (vm_found stats) (vm_saved stats) (errors stats) in
    match feed_collected vm_name collected_logs (stats', p) with
    | (st, None) => st
    | (st, Some e) =>
        add_error ("Error processing VM " +:+ vm_name +:+ ": "
                   +:+ exn_message e) st
    end
  else if nonempty (logs_found stats)
  then
    fold_left (process_local vm_name (path_join base_path vm_name))
              (logs_found stats) (stats, p)
  else
    add_error ("No logs available for " +:+ vm_name +:+ " (local or SSH)")
              (stats, p).

(** One turn of the loop of [scan_all_vms]. *)
Definition scan_one (st : ScanStats * SecurityProcessor) (vm_name : string)
  : ScanStats * SecurityProcessor :=
  let '(overall_stats, p) := st in
  let '(vm_stats, p') := process_vm_logs vm_name p in
  (mk_scan_stats (total_vms overall_stats)
                 (S (vms_processed overall_stats))
                 (total_events_found overall_stats + vm_found vm_stats)
                 (total_events_saved overall_stats + vm_saved vm_stats)
                 (vm_results overall_stats ++ [vm_stats]),
   p').

Definition scan_all_vms (p : SecurityProcessor)
  : ScanStats * SecurityProcessor :=
  let vm_directories := discover_vm_directories in
  fold_left scan_one vm_directories
            (mk_scan_stats (length vm_directories) 0 0 0 [], p).

End Scanner.

(** ** Vocabulary of the statements on the scanner *)

(** The message that a local log adds to the errors: reading it fails. *)
Definition read_error (fs : string -> option reading)
           (vm_path log_file : string) : option string :=
  match fs (path_join vm_path log_file) with
  | Some r =>
      match failure r with
      | Some msg =>
          Some ("Error processing local log " +:+ log_file +:+ ": " +:+ msg)
      | None => None
      end
  | None => None
  end.

(** The local log exists and is not empty. *)
Definition is_local_log (fs : string -> option reading)
           (getsize : string -> nat) (vm_path log_file : string) : bool :=
  match fs (path_join vm_path log_file) with
  | Some _ => 0 <? getsize (path_join vm_path log_file)
  | None => false
  end.

(** The message of the last branch of [process_vm_logs]. *)
Definition no_logs_warning (vm_name : string) : string :=
  "No logs available for " +:+ vm_name +:+ " (local or SSH)".

(** The list is in ascending order. *)
Fixpoint ascending (l : list string) : bool :=
  match l with
  | [] => true
  | x :: l' =>
      match l' with
      | [] => true
      | y :: _ => String.leb x y && ascending l'
      end
  end.

(** What the loops of [process_vm_logs] keep: the name, the two lists of
    logs and the errors, and no more events saved than found. *)
Definition kept (vm_name : string) (local collected errs : list string)
           (st : VMStats * SecurityProcessor) : Prop :=
  vm (fst st) = vm_name
  /\ logs_found (fst st) = local
  /\ logs_collected_ssh (fst st) = collected
  /\ errors (fst st) = errs
  /\ vm_saved (fst st) <= vm_found (fst st).

(** Nothing is saved and the processor is [p]. *)
Definition idle (p : SecurityProcessor) (st : VMStats * SecurityProcessor)
  : Prop :=
  vm_saved (fst st) = 0 /\ snd st = p.

(** Two file systems have the same files, with the same failures of
    reading and the same last 1000 lines. *)
Definition same_tail (fs fs' : string -> option reading) : Prop :=
  forall path,
    match fs path, fs' path with
    | Some r, Some r' =>
        failure r = failure r'
        /\ last_1000 (lines r) = last_1000 (lines r')
    | None, None => True
    | _, _ => False
    end.

(** ** A sample environment of the scanner *)

Module SampleScan.

Definition stamp (log_source : string) (k : nat) : string :=
  "2025-06-01 12:30:00".

Definition now (log_source : string) (k : nat) : datetime := Sample.now.

Definition raw_line : string :=
  "  Jan 15 10:30:45 host sshd[123]: Failed password for invalid user root from 10.0.0.5 ".

(** A failed log-in followed by 1000 other lines, and the 1000 lines
    alone. *)
Definition long_log : reading :=
  mk_reading (raw_line :: repeat "Jan 15 10:31:00 host cron: job done" 1000)
             None.

Definition short_log : reading :=
  mk_reading (repeat "Jan 15 10:31:00 host cron: job done" 1000) None.

Definition fs (path : string) : option reading :=
  if String.eqb path "/mnt/vm-security/u2-vm30000/auth.log"
  then Some long_log else None.

Definition fs' (path : string) : option reading :=
  if String.eqb path "/mnt/vm-security/u2-vm30000/auth.log"
  then Some short_log else None.

Definition getsize (path : string) : nat := 2048.

Definition subprocess_run (cmd : list string) : run_result := TimeoutExpired.

End SampleScan.

(** ** The listing of events of the API *)

(** [s.replace(old, new)] for a character [old]. *)
Fixpoint replace_char (old : ascii) (new s : string) : string :=
  match s with
  | EmptyString => EmptyString
  | String c s' =>
      if Ascii.eqb c old then new +:+ replace_char old new s'
      else String c (replace_char old new s')
  end.

(** The truth value of an optional integer. *)
Definition truthy_int (v : option Z) : option Z :=
  match v with
  | Some z => if (z =? 0)%Z then None else Some z
  | None => None
  end.

Module Api.

(** A value passed to the database with a query. *)
Inductive sql_value : Type :=
| IntValue (z : Z)
| TextValue (s : string)
| TimeValue (t : datetime).

(** A row of the query of the events. *)
Record Row : Type := mk_row {
  row_id : Z;
  row_vmId : Z;
  row_timestamp : datetime;
  row_source : string;
  row_message : string;
  row_severity : string;
  row_rule : string;
  row_ackAt : option datetime;
  row_createdAt : datetime;
  row_vm_name : option string;
  row_machineId : option string;
  row_host_name : option string
}.

(** The dictionary [vm] of an event of the response. *)
Record VMInfo : Type := mk_vm_info {
  name : option string;
  machineId : option string;
  host : option string
}.

(** An event of the response. *)
Record Event : Type := mk_event_json {
  id : Z;
  vmId : Z;
  timestamp : string;
  source : string;
  message : string;
  severity : string;
  rule : string;
  ackAt : option string;
  createdAt : string;
  vm_info : option VMInfo
}.

(** The dictionary that [get_security_events] returns. *)
Record Listing : Type := mk_listing {
  data : list Event;
  total : Z;
  page : Z;
  limit : Z;
  totalPages : Z
}.

(** What a request gets: the value, an [HTTPException], the refusal of
    the parameters by the framework, or an exception that nothing
    handles. *)
Inductive response (A : Type) : Type :=
| Ok (a : A)
| HTTPException (status_code : nat) (detail : string)
| ValidationError
| ServerError.
Arguments Ok {A} a.
Arguments HTTPException {A} status_code detail.
Arguments ValidationError {A}.
Arguments ServerError {A}.

Definition nl : string := String Char.newline "".

(** The state of the construction of the WHERE clause: the conditions,
    the parameters and their count. *)
Definition builder : Type := list string * list sql_value * nat.

(** One filter: a condition with the next placeholder and its value. *)
Definition add_condition (condition : string) (value : sql_value)
           (st : builder) : builder :=
  let '(where_conditions, params, param_count) := st in
  (where_conditions ++ [condition +:+ "$" +:+ dec (S param_count)],
   params ++ [value], S param_count).

(** The texts and the parameters of the two queries, with the offset. *)
Record Queries : Type := mk_queries {
  count_query : string;
  count_params : list sql_value;
  events_query : string;
  events_params : list sql_value;
  offset : Z
}.

Section Endpoint.

(** [datetime.fromisoformat]; [None] is [ValueError].  The offset of the
    time zone is not modelled. *)
Variable fromisoformat : string -> option datetime.

(** [datetime.isoformat] *)
Variable isoformat : datetime -> string.

(** The pool of the API: whether there is one, and what [fetchval] and
    [fetch] give for a query and its parameters ([None]: an exception). *)
Variable db_pool : bool.
Variable fetchval : string -> list sql_value -> option Z.
Variable fetch : string -> list sql_value -> option (list Row).

(** The filters on the two times; [None] is the exception of
    [fromisoformat]. *)
Definition add_time (condition : string) (value : option string)
           (st : builder) : option builder :=
  match truthy value with
  | Some s =>
      match fromisoformat (replace_char "Z" "+00:00" s) with
      | Some t => Some (add_condition condition (TimeValue t) st)
      | None => None
      end
  | None => Some st
  end.

(** The construction of the WHERE clause. *)
Definition where_builder (vmId : option Z)
           (severity rule since until : option string)
           (acknowledged : option bool) : option builder :=
  let st := ([], [], 0) in
  let st :=
    match truthy_int vmId with
    | Some v => add_condition (quote +:+ "vmId" +:+ quote +:+ " = ")
                              (IntValue v) st
    | None => st
    end in
  let st :=
    match truthy severity with
    | Some s => add_condition "severity = " (TextValue s) st
    | None => st
    end in
  let st :=
    match truthy rule with
    | Some s => add_condition "rule = " (TextValue s) st
    | None => st
    end in
  match add_time "timestamp >= " since st with
  | None => None
  | Some st =>
      match add_time "timestamp <= " until st with
      | None => None
      | Some (where_conditions, params, param_count) =>
          Some (match acknowledged with
                | Some true =>
                    where_conditions
                    ++ [quote +:+ "ackAt" +:+ quote +:+ " IS NOT NULL"]
                | Some false =>
                    where_conditions
                    ++ [quote +:+ "ackAt" +:+ quote +:+ " IS NULL"]
                | None => where_conditions
                end,
                params, param_count)
      end
  end.

(** The texts of the two queries around the WHERE clause. *)
Definition select_count : string :=
  "SELECT COUNT(*) FROM " +:+ quote +:+ "SecurityEvent" +:+ quote +:+ " ".

Definition select_events : string :=
  nl +:+ "        SELECT " +:+ nl
  +:+ "            se.id, se." +:+ quote +:+ "vmId" +:+ quote
  +:+ ", se.timestamp, se.source, se.message, " +:+ nl
  +:+ "            se.severity, se.rule, se." +:+ quote +:+ "ackAt"
  +:+ quote +:+ ", se." +:+ quote +:+ "createdAt" +:+ quote +:+ ","
  +:+ nl
  +:+ "            vm.name as vm_name, vm." +:+ quote +:+ "machineId"
  +:+ quote +:+ "," +:+ nl
  +:+ "            h.name as host_name" +:+ nl
  +:+ "        FROM " +:+ quote +:+ "SecurityEvent" +:+ quote +:+ " se"
  +:+ nl
  +:+ "        LEFT JOIN " +:+ quote +:+ "VM" +:+ quote
  +:+ " vm ON se." +:+ quote +:+ "vmId" +:+ quote +:+ " = vm.id" +:+ nl
  +:+ "        LEFT JOIN " +:+ quote +:+ "Host" +:+ quote
  +:+ " h ON vm." +:+ quote +:+ "hostId" +:+ quote +:+ " = h.id" +:+ nl
  +:+ "        ".

Definition order_events : string :=
  nl +:+ "        ORDER BY se.timestamp DESC" +:+ nl +:+ "        LIMIT ".

(** The two queries of a request. *)
Definition queries (page limit : Z) (vmId : option Z)
           (severity rule since until : option string)
           (acknowledged : option bool) : option Queries :=
  match where_builder vmId severity rule since until acknowledged with
  | None => None
  | Some (where_conditions, params, param_count) =>
      let where_clause :=
        if nonempty where_conditions
        then "WHERE " +:+ Str.join " AND " where_conditions
        else "" in
      let offset := ((page - 1) * limit)%Z in
      let count_query := select_count +:+ where_clause in
      let limit_param := S param_count in
      let offset_param := S limit_param in
      let events_query :=
        select_events +:+ where_clause +:+ order_events
        +:+ "$" +:+ dec limit_param +:+ " OFFSET " +:+ "$"
        +:+ dec offset_param +:+ nl +:+ "    " in
      Some (mk_queries count_query params events_query
                       (params ++ [IntValue limit; IntValue offset])
                       offset)
  end.

(** An event of the response from a row. *)
Definition format_row (row : Row) : Event :=
  mk_event_json
    (row_id row) (row_vmId row) (isoformat (row_timestamp row))
    (row_source row) (row_message row) (row_severity row) (row_rule row)
    (match row_ackAt row with
     | Some t => Some (isoformat t)
     | None => None
     end)
    (isoformat (row_createdAt row))
    (match truthy (row_vm_name row) with
     | Some _ =>
         Some (mk_vm_info (row_vm_name row) (row_machineId row)
                          (row_host_name row))
     | None => None
     end).

(** The framework admits [page >= 1] and [1 <= limit <= 100]. *)
Definition get_security_events (page limit : Z) (vmId : option Z)
           (severity rule since until : option string)
           (acknowledged : option bool) : response Listing :=
  if negb ((1 <=? page)%Z && (1 <=? limit)%Z && (limit <=? 100)%Z)
  then ValidationError
  else if negb db_pool
  then HTTPException 500 "Database not available"
  else
    match queries page limit vmId severity rule since until acknowledged with
    | None => ServerError
    | Some q =>
        match fetchval (count_query q) (count_params q) with
        | None => ServerError
        | Some total =>
            match fetch (events_query q) (events_params q) with
            | None => ServerError
            | Some rows =>
                Ok (mk_listing (map format_row rows) total page limit
                               ((total + limit - 1) / limit)%Z)
            end
        end
    end.

End Endpoint.

(** The placeholders of a query text: the digits after each dollar. *)
Fixpoint digits_prefix (s : string) : string :=
  match s with
  | EmptyString => EmptyString
  | String c s' =>
      if Char.isdecimal c then String c (digits_prefix s') else EmptyString
  end.

Fixpoint placeholders (s : string) : list string :=
  match s with
  | EmptyString => []
  | String c s' =>
      if Ascii.eqb c "$" then digits_prefix s' :: placeholders s'
      else placeholders s'
  end.

(** A text does not begin with a digit. *)
Definition no_digit_first (s : string) : bool :=
  match s with
  | EmptyString => true
  | String c _ => negb (Char.isdecimal c)
  end.

(** Two optional values are both used as a filter or both ignored. *)
Definition same_use {A B : Type} (a : option A) (b : option B) : Prop :=
  match a, b with
  | Some _, Some _ => True
  | None, None => True
  | _, _ => False
  end.

(** The conditions and the count of a state of the construction: what
    the texts of the queries are made of. *)
Definition texts (st : builder) : list string * nat :=
  (fst (fst st), snd st).

Definition not_dollar (c : ascii) : bool := negb (Ascii.eqb c "$").

(** The conditions number the parameters from 1 on. *)
Definition numbered (st : builder) : Prop :=
  let '(where_conditions, params, param_count) := st in
  length params = param_count
  /\ placeholders (Str.join " AND " where_conditions)
     = map dec (seq 1 param_count).

End Api.

(** ** A sample environment of the API *)

Module SampleApi.

Definition fromisoformat (s : string) : option datetime :=
  if String.eqb s "" then None else Some Sample.now.

Definition isoformat (t : datetime) : string := "2025-06-01T12:30:00".

Definition fetchval (query : string) (params : list Api.sql_value)
  : option Z := Some 120%Z.

Definition fetch (query : string) (params : list Api.sql_value)
  : option (list Api.Row) := Some [].

End SampleApi.

(** ** Two more endpoints of the API *)

Module Endpoints.

(** The text that [acknowledge_multiple_events] puts between the
    parentheses of [IN] for [n] identifiers. *)
Definition id_placeholders (n : nat) : string :=
  Str.join ", " (map (fun i => "$" +:+ dec (i + 1)) (seq 0 n)).

(** The text of the update around the placeholders. *)
Definition update_head : string :=
  Api.nl +:+ "        UPDATE " +:+ quote +:+ "SecurityEvent" +:+ quote +:+ " "
  +:+ Api.nl
  +:+ "        SET " +:+ quote +:+ "ackAt" +:+ quote +:+ " = NOW() "
  +:+ Api.nl
  +:+ "        WHERE id IN (".

Definition update_tail : string :=
  ") AND " +:+ quote +:+ "ackAt" +:+ quote +:+ " IS NULL" +:+ Api.nl
  +:+ "    ".

Definition acknowledge_query (n : nat) : string :=
  update_head +:+ id_placeholders n +:+ update_tail.

(** The dictionary that [acknowledge_multiple_events] returns. *)
Record Acknowledgement : Type := mk_acknowledgement {
  acknowledged : Z;
  requested : nat
}.

(** A value of the body of a request, as the framework hands it to an
    endpoint that takes a dictionary of any values.  Of a float only its
    being zero matters to the code modelled here. *)
#[warnings="-register-all"]
Inductive json : Type :=
| JNull
| JBool (b : bool)
| JInt (z : Z)
| JFloat (is_zero : bool)
| JString (s : string)
| JArray (items : list json)
| JObject (members : list (string * json)).

(** The truth value of a value. *)
Definition json_truthy (v : json) : bool :=
  match v with
  | JNull => false
  | JBool b => b
  | JInt z => negb (z =? 0)%Z
  | JFloat is_zero => negb is_zero
  | JString s => negb (String.eqb s "")
  | JArray items => nonempty items
  | JObject members => nonempty members
  end.

(** An event as [test_log_parsing] returns it. *)
Record ParsedEvent : Type := mk_parsed_event {
  parsed_vm_name : string;
  parsed_timestamp : string;
  parsed_source : string;
  parsed_severity : string;
  parsed_rule : string;
  parsed_metadata : option Metadata;
  parsed_message : string
}.

(** The dictionary that [test_log_parsing] returns: with the key
    [success] true and an event, or false and a message. *)
Inductive ParsingResult : Type :=
| Matched (event : ParsedEvent)
| Unmatched (message : string).

Section Acknowledge.

Variable db_pool : bool.

(** [db_pool.execute]: the status that the database returns for a text
    and its parameters; [None] is an exception. *)
Variable execute : string -> list Api.sql_value -> option string.

(** [int(result.split()[-1])]; [None] is its [IndexError] or
    [ValueError]. *)
Variable updated_count : string -> option Z.

(** The request has passed the validation: [ids] is a list of
    integers. *)
Definition acknowledge_multiple_events (ids : list Z)
  : Api.response Acknowledgement :=
  if negb db_pool then Api.HTTPException 500 "Database not available"
  else if negb (nonempty ids)
  then Api.HTTPException 400 "No event IDs provided"
  else
    match execute (acknowledge_query (length ids))
                  (map Api.IntValue ids) with
    | None => Api.ServerError
    | Some result =>
        match updated_count result with
        | None => Api.ServerError
        | Some count => Api.Ok (mk_acknowledgement count (length ids))
        end
    end.

End Acknowledge.

Section Parsing.

Variable strptime : string -> option datetime.
Variable now : datetime.
Variable isoformat : datetime -> string.

(** Whether the API has a processor. *)
Variable security_processor : bool.

(** [line.strip()] raises [AttributeError] for a value that is not a
    string, and nothing handles it. *)
Definition test_log_parsing (request : gmap string json)
  : Api.response ParsingResult :=
  if negb security_processor
  then Api.HTTPException 500 "Security processor not available"
  else
    match request !! "logLine" with
    | None => Api.HTTPException 400 "logLine is required"
    | Some log_line =>
        if negb (json_truthy log_line)
        then Api.HTTPException 400 "logLine is required"
        else
          match log_line with
          | JString line =>
              match parse_log_line strptime now line with
              | Raise _ => Api.ServerError
              | Return (Some event) =>
                  Api.Ok (Matched
                            (mk_parsed_event
                               (vm_name event) (isoformat (timestamp event))
                               (source event)
                               (severity_value (severity event))
                               (rule_value (rule event)) (metadata event)
                               (message event)))
              | Return None =>
                  Api.Ok (Unmatched "No security patterns matched")
              end
          | _ => Api.ServerError
          end
    end.

End Parsing.

End Endpoints.

(** ** The addresses of the virtual machines *)

Definition vm_ip_mapping : list (string * string) :=
  [("u2-vm30000", "10.1.0.2"); ("u8-vm30000", "10.1.0.8");
   ("u3", "10.1.0.3"); ("u4", "10.1.0.4"); ("u5", "10.1.0.5");
   ("u6", "10.1.0.6"); ("u7", "10.1.0.7"); ("u9", "10.1.0.9");
   ("u10", "10.1.0.10"); ("u11", "10.1.0.11"); ("u12", "10.1.0.12")].

Definition get_vm_ip_from_name (vm_name : string) : option string :=
  (list_to_map vm_ip_mapping : gmap string string) !! vm_name.

(** ** Vocabulary of the statement on the collected logs *)

(** What holds of the content of a collected log. *)
Definition collected_content (content : string) : Prop :=
  content <> "" /\ Str.strip content = content
  /\ content <> "FILE_NOT_FOUND".

(** ** A sample database for the acknowledgement and a sample line *)

Module SampleEndpoints.

(** A line of a log as the scanner finds it, not yet formatted. *)
Definition raw_line : string :=
  "sshd[812]: Failed password for root from 10.0.0.1 port 22 ssh2".

(** Two requests to the test of the parser. *)
Definition line_request : gmap string Endpoints.json :=
  {["logLine" := Endpoints.JString raw_line]}.

Definition number_request : gmap string Endpoints.json :=
  {["logLine" := Endpoints.JInt 123]}.

Definition execute (query : string) (params : list Api.sql_value)
  : option string := Some "UPDATE 2".

Definition updated_count (result : string) : option Z :=
  if String.eqb result "UPDATE 2" then Some 2%Z else None.

End SampleEndpoints.

#[local] Arguments Re.search : simpl never.

(** * Properties *)

(** ** Strings *)

Module StrFacts.
Import Str.

Lemma app_nil_r (s : string) : s +:+ "" = s.
Proof. induction s as [|c s IH]; simpl; [reflexivity | now rewrite IH]. Qed.

Lemma app_assoc (a b c : string) : (a +:+ b) +:+ c = a +:+ (b +:+ c).
Proof. induction a as [|x a IH]; simpl; [reflexivity | now rewrite IH]. Qed.

Lemma length_app (a b : string) :
  String.length (a +:+ b) = String.length a + String.length b.
Proof. induction a as [|x a IH]; simpl; [reflexivity | now rewrite IH]. Qed.

Lemma app_inv_tail (a b t : string) : a +:+ t = b +:+ t -> a = b.
Proof.
  revert b. induction a as [|x a IH]; intros [|y b] H; simpl in H.
  - reflexivity.
  - apply (f_equal String.length) in H. simpl in H.
    rewrite length_app in H. lia.
  - apply (f_equal String.length) in H. simpl in H.
    rewrite length_app in H. lia.
  - injection H as -> H. f_equal. now apply IH.
Qed.

Lemma drop_app (p s : string) : drop (String.length p) (p +:+ s) = s.
Proof. induction p as [|x p IH]; simpl; [now destruct s | exact IH]. Qed.

Lemma prefix_app (p s : string) : String.prefix p (p +:+ s) = true.
Proof.
  induction p as [|x p IH]; simpl; [now destruct s |].
  destruct (ascii_dec x x); [exact IH | congruence].
Qed.

Lemma prefix_cons (a b : ascii) (p s : string) :
  String.prefix (String a p) (String b s)
  = if ascii_dec a b then String.prefix p s else false.
Proof. reflexivity. Qed.

Lemma prefix_inv (p s : string) :
  String.prefix p s = true -> s = p +:+ drop (String.length p) s.
Proof.
  revert s. induction p as [|x p IH]; intros s H; simpl.
  - now destruct s.
  - destruct s as [|y s]; simpl in H; [discriminate |].
    destruct (ascii_dec x y) as [->|]; [| discriminate].
    f_equal. now apply IH.
Qed.

Lemma prefix_iff (p s : string) :
  String.prefix p s = true <-> exists r, s = p +:+ r.
Proof.
  split.
  - intros H. eexists. now apply prefix_inv.
  - intros [r ->]. apply prefix_app.
Qed.

Lemma partition_eq (sep s : string) :
  partition sep s =
    if String.prefix sep s then Some ("", drop (String.length sep) s)
    else match s with
         | EmptyString => None
         | String c s' =>
             match partition sep s' with
             | Some (a, b) => Some (String c a, b)
             | None => None
             end
         end.
Proof. destruct s; reflexivity. Qed.

Lemma partition_Some (sep s a b : string) :
  partition sep s = Some (a, b) ->
  s = a +:+ sep +:+ b
  /\ forall n, occurs_at sep n s -> String.length a <= n.
Proof.
  revert a b. induction s as [|c s IH]; intros a b; rewrite partition_eq.
  - destruct (String.prefix sep "") eqn:Hp; [| discriminate].
    intros [= <- <-]. split; [now apply prefix_inv | simpl; lia].
  - destruct (String.prefix sep (String c s)) eqn:Hp.
    + intros [= <- <-]. split; [now apply prefix_inv | simpl; lia].
    + destruct (partition sep s) as [[a' b']|] eqn:Hs; [| discriminate].
      intros [= <- <-]. destruct (IH _ _ eq_refl) as [-> Hmin].
      split; [reflexivity |].
      intros n (x & y & Hxy & Hn). destruct x as [|c' x]; simpl in Hxy, Hn |- *.
      * rewrite Hxy in Hp. now rewrite prefix_app in Hp.
      * injection Hxy as -> Hxy. subst n.
        apply le_n_S, Hmin. now exists x, y.
Qed.

Lemma partition_None (sep s : string) :
  partition sep s = None -> forall n, ~ occurs_at sep n s.
Proof.
  induction s as [|c s IH]; rewrite partition_eq.
  - destruct (String.prefix sep "") eqn:Hp; [discriminate |].
    intros _ n (x & y & Hxy & _). destruct x; simpl in Hxy.
    + rewrite Hxy in Hp. now rewrite prefix_app in Hp.
    + discriminate.
  - destruct (String.prefix sep (String c s)) eqn:Hp; [discriminate |].
    destruct (partition sep s) as [[a' b']|] eqn:Hs; [discriminate |].
    intros _ n (x & y & Hxy & _). destruct x as [|c' x]; simpl in Hxy.
    + rewrite Hxy in Hp. now rewrite prefix_app in Hp.
    + injection Hxy as -> Hxy. apply (IH eq_refl (String.length x)).
      now exists x, y.
Qed.

Lemma partition_occurs (sep s : string) (n : nat) :
  occurs_at sep n s -> exists a b, partition sep s = Some (a, b).
Proof.
  intros H. destruct (partition sep s) as [[a b]|] eqn:E; [eauto |].
  exfalso. exact (partition_None _ _ E n H).
Qed.

Lemma contains_true (sub s : string) :
  contains sub s = true <-> exists a b, s = a +:+ sub +:+ b.
Proof.
  unfold contains. split.
  - destruct (partition sub s) as [[a b]|] eqn:E; [| discriminate].
    intros _. exists a, b. now apply partition_Some.
  - intros (a & b & H).
    destruct (partition_occurs sub s (String.length a)) as (x & y & ->);
      [now exists a, b | reflexivity].
Qed.

Lemma contains_false (sub s : string) :
  contains sub s = false <-> forall a b, s <> a +:+ sub +:+ b.
Proof.
  split.
  - intros H a b E.
    assert (contains sub s = true) by (apply contains_true; eauto).
    congruence.
  - intros H. destruct (contains sub s) eqn:E; [| reflexivity].
    apply contains_true in E as (a & b & E). now apply H in E.
Qed.

(** Splitting and joining. *)

Lemma split_S (sep : string) (n : nat) (s : string) :
  split sep (S n) s =
    match partition sep s with
    | None => [s]
    | Some (a, b) => a :: split sep n b
    end.
Proof. reflexivity. Qed.

Lemma split_length (sep : string) (n : nat) (s : string) :
  1 <= length (split sep n s) <= S n.
Proof.
  revert s. induction n as [|n IH]; intros s; simpl; [lia |].
  destruct (partition sep s) as [[a b]|]; simpl; [| lia].
  specialize (IH b). lia.
Qed.

Lemma join_cons (sep a : string) (l : list string) :
  l <> [] -> join sep (a :: l) = a +:+ sep +:+ join sep l.
Proof. destruct l; [congruence | reflexivity]. Qed.

Lemma split_join (sep : string) (n : nat) (s : string) :
  join sep (split sep n s) = s.
Proof.
  revert s. induction n as [|n IH]; intros s; simpl; [reflexivity |].
  destruct (partition sep s) as [[a b]|] eqn:E; [| reflexivity].
  rewrite join_cons.
  - rewrite IH. symmetry. now apply partition_Some in E.
  - pose proof (split_length sep n b). destruct (split sep n b); simpl in *; [lia | congruence].
Qed.

(** All fields but the last are free of the separator. *)
Lemma split_fields (sep : string) (n : nat) (s : string) (i : nat) (f : string) :
  sep <> "" ->
  nth_error (split sep n s) i = Some f ->
  S i < length (split sep n s) ->
  contains sep f = false.
Proof.
  intros Hsep. revert s i. induction n as [|n IH]; intros s i; simpl.
  - intros _ H. lia.
  - destruct (partition sep s) as [[a b]|] eqn:E; simpl; [| lia].
    destruct i as [|i]; simpl.
    + intros [= <-] _. apply contains_false. intros x y Hxy.
      apply partition_Some in E as [E Hmin].
      assert (Hocc : occurs_at sep (String.length x) s).
      { exists x, (y +:+ sep +:+ b). split; [| reflexivity].
        rewrite E, Hxy. now rewrite !app_assoc. }
      apply Hmin in Hocc. rewrite Hxy, !length_app in Hocc.
      destruct sep; [congruence | simpl in Hocc; lia].
    + intros Hi Hlt. eapply IH; [exact Hi | lia].
Qed.

(** Stripping. *)

Lemma lstrip_spec (s : string) :
  exists l, s = l +:+ lstrip s /\ isblank l = true
            /\ match lstrip s with
               | EmptyString => True
               | String c _ => Char.isspace c = false
               end.
Proof.
  induction s as [|c s (l & E & Hl & Hh)]; simpl.
  - now exists "".
  - destruct (Char.isspace c) eqn:Hc.
    + exists (String c l). simpl. rewrite <- E. unfold isblank in *. simpl.
      now rewrite Hc, Hl.
    + exists "". simpl. now rewrite Hc.
Qed.

Lemma rstrip_spec (s : string) :
  exists r, s = rstrip s +:+ r /\ isblank r = true.
Proof.
  induction s as [|c s (r & E & Hr)]; simpl.
  - now exists "".
  - destruct (rstrip s) as [|d t] eqn:Ht.
    + destruct (Char.isspace c) eqn:Hc.
      * exists (String c r). simpl in E. subst s. unfold isblank in *.
        simpl. now rewrite Hc, Hr.
      * exists r. simpl in *. now subst s.
    + exists r. split; [| exact Hr]. change (String c s = String c (String d t +:+ r)).
      now rewrite <- E.
Qed.

Lemma rstrip_blank (s : string) : rstrip s = "" <-> isblank s = true.
Proof.
  unfold isblank. induction s as [|c s IH]; simpl; [tauto |].
  destruct (rstrip s) as [|d t].
  - destruct (Char.isspace c); simpl; [tauto |].
    split; discriminate.
  - split; [discriminate |].
    intros [_ H]%andb_prop. apply IH in H. discriminate.
Qed.

Lemma lstrip_blank (s : string) : lstrip s = "" <-> isblank s = true.
Proof.
  unfold isblank. induction s as [|c s IH]; simpl; [tauto |].
  destruct (Char.isspace c); simpl; [exact IH |].
  split; discriminate.
Qed.

Lemma strip_blank (s : string) : strip s = "" <-> isblank s = true.
Proof.
  unfold strip. rewrite rstrip_blank, <- (lstrip_blank s).
  destruct (lstrip_spec s) as (l & _ & _ & Hh).
  destruct (lstrip s) as [|c t]; [split; reflexivity |].
  unfold isblank. simpl. rewrite Hh. simpl. split; discriminate.
Qed.

(** [strip] removes white space at both ends and nothing else. *)
Lemma strip_spec (s : string) :
  exists l r, s = l +:+ strip s +:+ r /\ isblank l = true /\ isblank r = true.
Proof.
  destruct (lstrip_spec s) as (l & El & Hl & _).
  destruct (rstrip_spec (lstrip s)) as (r & Er & Hr).
  exists l, r. unfold strip. now rewrite <- Er, <- El.
Qed.

Lemma rstrip_id (s : string) (c : ascii) :
  Char.isspace c = false -> rstrip (s +:+ String c "") = s +:+ String c "".
Proof.
  intros Hc. induction s as [|d s IH]; simpl.
  - now rewrite Hc.
  - rewrite IH. now destruct s.
Qed.

Lemma partition_no_bar (a rest : string) :
  no_bar a = true -> partition " | " (a +:+ " | " +:+ rest) = Some (a, rest).
Proof.
  unfold no_bar. induction a as [|c a IH]; intros Ha.
  - change ("" +:+ " | " +:+ rest) with (" | " +:+ rest).
    now rewrite partition_eq, prefix_app, drop_app.
  - simpl in Ha. apply andb_prop in Ha as [Hc Ha].
    change (String c a +:+ " | " +:+ rest) with (String c (a +:+ " | " +:+ rest)).
    rewrite partition_eq.
    replace (String.prefix " | " (String c (a +:+ " | " +:+ rest))) with false.
    + now rewrite (IH Ha).
    + rewrite prefix_cons. destruct (ascii_dec " " c); [| reflexivity].
      destruct a as [|d a].
      * change ("" +:+ " | " +:+ rest) with (String " " ("| " +:+ rest)).
        rewrite prefix_cons. now destruct (ascii_dec "|" " ").
      * change (String d a +:+ " | " +:+ rest)
          with (String d (a +:+ " | " +:+ rest)).
        rewrite prefix_cons. simpl in Ha.
        destruct (ascii_dec "|" d) as [<-|]; [discriminate | reflexivity].
Qed.

Lemma split_no_bar (a b c d : string) :
  no_bar a = true -> no_bar b = true -> no_bar c = true ->
  split " | " 3 (a +:+ " | " +:+ b +:+ " | " +:+ c +:+ " | " +:+ d) = [a; b; c; d].
Proof.
  intros Ha Hb Hc.
  rewrite split_S, (partition_no_bar a _ Ha).
  rewrite split_S, (partition_no_bar b _ Hb).
  rewrite split_S, (partition_no_bar c _ Hc).
  reflexivity.
Qed.

(** Lower case. *)

Lemma lower_app (a b : string) :
  lower (a +:+ b) = lower a +:+ lower b.
Proof. induction a as [|c a IH]; simpl; [reflexivity | now rewrite IH]. Qed.

Lemma lower_app_inv (s x y : string) :
  lower s = x +:+ y ->
  exists a b, s = a +:+ b /\ lower a = x /\ lower b = y.
Proof.
  revert s. induction x as [|c x IH]; intros s H.
  - exists "", s. now repeat split.
  - destruct s as [|d s]; simpl in H; [discriminate |].
    injection H as Hc H. apply IH in H as (a & b & -> & Ha & Hb).
    exists (String d a), b. simpl. now rewrite Hc, Ha.
Qed.

(** The test [sub in s.lower()] finds the occurrences of [sub] in [s],
    letter case apart. *)
Lemma contains_lower (sub s : string) :
  contains sub (lower s) = true <-> contains_ci sub s.
Proof.
  rewrite contains_true. unfold contains_ci. split.
  - intros (x & y & H).
    apply lower_app_inv in H as (a & r & -> & Ha & Hr).
    apply lower_app_inv in Hr as (u & b & -> & Hu & Hb).
    now exists a, u, b.
  - intros (a & u & b & -> & Hu).
    exists (lower a), (lower b). now rewrite !lower_app, Hu.
Qed.

Lemma lower_not_dot (c : ascii) : Char.lower c = "."%char -> c = "."%char.
Proof.
  destruct c as [[] [] [] [] [] [] [] []]; vm_compute; congruence.
Qed.

Lemma contains_skip (c : ascii) (ext s : string) :
  c <> "."%char ->
  contains (String "." ext) (String c s) = contains (String "." ext) s.
Proof.
  intros Hc. unfold contains.
  rewrite (partition_eq _ (String c s)), prefix_cons.
  destruct (ascii_dec "." c) as [<-|]; [congruence |].
  now destruct (partition (String "." ext) s) as [[a b]|].
Qed.

Lemma contains_after_stem (ext stem tail : string) :
  all_chars (fun c => negb (Ascii.eqb c ".")) stem = true ->
  contains (String "." ext) (lower (stem +:+ tail))
  = contains (String "." ext) (lower tail).
Proof.
  induction stem as [|c stem IH]; simpl; [reflexivity |].
  intros [Hc Hs]%andb_prop. rewrite contains_skip; [now apply IH |].
  intros E. apply lower_not_dot in E. subst c. discriminate.
Qed.

End StrFacts.

(** ** The loops over the registry *)

Section Registry.

Variable msg : string.

Lemma first_pattern_None (ps : list Re.regex) (idx : nat) :
  first_pattern ps idx msg = None <-> none_found msg ps.
Proof.
  revert idx. induction ps as [|p ps IH]; intros idx; simpl.
  - split; [constructor | reflexivity].
  - destruct (Re.search p msg) as [m|] eqn:E.
    + split; [discriminate |]. intros H. inversion H. congruence.
    + rewrite IH. split.
      * now constructor.
      * intros H. now inversion H.
Qed.

(** The pattern that answers is the first one found, and the answer is
    its match. *)
Lemma first_pattern_Some (ps : list Re.regex) (idx i : nat) (m : Re.Match) :
  first_pattern ps idx msg = Some (i, m) <->
  exists before p after,
    ps = before ++ p :: after /\ i = idx + length before
    /\ none_found msg before /\ Re.search p msg = Some m.
Proof.
  revert idx. induction ps as [|p ps IH]; intros idx; simpl.
  - split; [discriminate |].
    intros (before & q & after & H & _). now destruct before.
  - destruct (Re.search p msg) as [m'|] eqn:E.
    + split.
      * intros [= <- <-]. exists [], p, ps. simpl.
        repeat split; [lia | constructor | exact E].
      * intros (before & q & after & H & -> & Hnone & Hq).
        destruct before as [|b before]; simpl in H.
        -- injection H as <- <-. rewrite E in Hq. injection Hq as <-.
           simpl. do 2 f_equal. lia.
        -- injection H as <- ->. inversion Hnone. congruence.
    + rewrite IH. split.
      * intros (before & q & after & -> & -> & Hnone & Hq).
        exists (p :: before), q, after. simpl.
        repeat split; [lia | now constructor | exact Hq].
      * intros (before & q & after & H & -> & Hnone & Hq).
        destruct before as [|b before]; simpl in H.
        -- injection H as <- <-. congruence.
        -- injection H as <- ->. exists before, q, after. simpl.
           repeat split; [lia | now inversion Hnone | exact Hq].
Qed.

Lemma first_rule_None (reg : list (SecurityRule * list Re.regex)) :
  first_rule reg msg = None <-> none_applies msg reg.
Proof.
  induction reg as [|[r ps] reg IH]; simpl.
  - split; [constructor | reflexivity].
  - destruct (first_pattern ps 0 msg) as [[i m]|] eqn:E.
    + split; [discriminate |]. intros H. inversion H as [|? ? Hps _]; subst.
      apply (first_pattern_None ps 0) in Hps. congruence.
    + apply first_pattern_None in E. rewrite IH. split.
      * now constructor.
      * intros H. now inversion H.
Qed.

Lemma first_rule_Some (reg : list (SecurityRule * list Re.regex))
      (rule : SecurityRule) (i : nat) (m : Re.Match) :
  first_rule reg msg = Some (rule, i, m) <->
  exists earlier ps later,
    reg = earlier ++ (rule, ps) :: later
    /\ none_applies msg earlier
    /\ first_pattern ps 0 msg = Some (i, m).
Proof.
  induction reg as [|[r ps] reg IH]; simpl.
  - split; [discriminate |].
    intros (earlier & qs & later & H & _). now destruct earlier.
  - destruct (first_pattern ps 0 msg) as [[i' m']|] eqn:E.
    + split.
      * intros [= <- <- <-]. exists [], ps, reg.
        repeat split; [constructor | exact E].
      * intros (earlier & qs & later & H & Hnone & Hq).
        destruct earlier as [|e earlier]; simpl in H.
        -- injection H as <- <- <-. congruence.
        -- injection H as <- ->. inversion Hnone as [|? ? Hps _]; subst.
           apply (first_pattern_None ps 0) in Hps. congruence.
    + rewrite IH. split.
      * intros (earlier & qs & later & -> & Hnone & Hq).
        exists ((r, ps) :: earlier), qs, later.
        repeat split; [| exact Hq].
        constructor; [now apply (first_pattern_None ps 0) | exact Hnone].
      * intros (earlier & qs & later & H & Hnone & Hq).
        destruct earlier as [|e earlier]; simpl in H.
        -- injection H as <- <- <-. congruence.
        -- injection H as <- ->. exists earlier, qs, later.
           repeat split; [now inversion Hnone | exact Hq].
Qed.

Lemma first_rule_In (reg : list (SecurityRule * list Re.regex))
      (rule : SecurityRule) (i : nat) (m : Re.Match) :
  first_rule reg msg = Some (rule, i, m) -> In rule (map fst reg).
Proof.
  intros (earlier & ps & later & -> & _)%first_rule_Some.
  rewrite map_app, in_app_iff. right. now left.
Qed.

End Registry.

(** ** Severity *)

Lemma _get_severity_not_low (rule : SecurityRule) (m : Re.Match)
      (msg : string) (sev : SecuritySeverity) :
  rule <> OTHER -> _get_severity rule m msg = Return sev -> sev <> LOW.
Proof.
  intros Hr H ->. destruct rule; simpl in H; try congruence.
  - destruct (1 <? length m); [destruct (Re.group m 2) |]; simpl in H;
      try discriminate;
      match type of H with
      | (if ?c then _ else _) = _ => destruct c; discriminate
      end.
  - match type of H with
    | (if ?c then _ else _) = _ => destruct c; discriminate
    end.
Qed.

(** ** One line *)

Section Lines.

Variable strptime : string -> option datetime.

(** What a produced event is made of. *)
Lemma parse_log_line_Some (now : datetime) (line : string) (ev : SecurityEvent) :
  parse_log_line strptime now line = Return (Some ev) <->
  exists ts vm src body rule idx m sev,
    Str.strip line <> ""
    /\ fields line = [ts; vm; src; body]
    /\ first_rule Patterns.patterns body = Some (rule, idx, m)
    /\ _get_severity rule m body = Return sev
    /\ ev = mk_event vm (default now (strptime ts)) src (Str.strip line)
                     sev rule (Some (_extract_metadata rule m body)).
Proof.
  unfold parse_log_line, fields. split.
  - destruct (String.eqb_spec (Str.strip line) "") as [|Hne]; [discriminate |].
    destruct (Str.split " | " 3 (Str.strip line))
      as [|ts [|vm [|src [|body [|]]]]]; try discriminate.
    destruct (first_rule Patterns.patterns body) as [[[rule idx] m]|] eqn:Hr;
      [| discriminate].
    destruct (_get_severity rule m body) as [sev|] eqn:Hs; simpl;
      [| discriminate].
    intros [= <-]. exists ts, vm, src, body, rule, idx, m, sev.
    repeat split; assumption.
  - intros (ts & vm & src & body & rule & idx & m & sev
            & Hne & -> & -> & -> & ->).
    destruct (String.eqb_spec (Str.strip line) ""); [contradiction |].
    reflexivity.
Qed.

End Lines.

(** ** What a match of the backtracking matcher is *)

Module ReFacts.
Import Re StrFacts.

Lemma substring_app (w s : string) :
  String.substring 0 (String.length w) (w +:+ s) = w.
Proof.
  induction w as [|a w IH]; simpl.
  - now destruct s.
  - now rewrite IH.
Qed.

Lemma consumed_app (w s : string) : consumed (w +:+ s) s = w.
Proof.
  unfold consumed. rewrite length_app.
  replace (String.length w + String.length s - String.length s)
    with (String.length w) by lia.
  apply substring_app.
Qed.

Lemma star_loop_sound (r : regex) :
  sound_at (rmatch r) r ->
  forall k fuel s c res,
    star_loop (rmatch r) k fuel s c = Some res ->
    exists w s' c',
      s = w +:+ s' /\ cmatch (Star r) w c c' /\ k s' c' = Some res.
Proof.
  intros Hr k fuel. induction fuel as [|fuel IH]; intros s c res; simpl.
  - intros H. exists "", s, c. repeat split; [constructor | exact H].
  - destruct (rmatch r s c _) as [res'|] eqn:E.
    + intros [= ->]. apply Hr in E as (w1 & s1 & c1 & -> & Hw1 & Hk).
      destruct (Nat.ltb_spec (String.length s1) (String.length (w1 +:+ s1)))
        as [Hlt|]; [| discriminate].
      apply IH in Hk as (w2 & s2 & c2 & -> & Hw2 & Hk).
      exists (w1 +:+ w2), s2, c2. repeat split.
      * now rewrite app_assoc.
      * econstructor; [exact Hw1 | | exact Hw2].
        intros ->. simpl in Hlt. lia.
      * exact Hk.
    + intros H. exists "", s, c. repeat split; [constructor | exact H].
Qed.

Theorem rmatch_sound (r : regex) : sound_at (rmatch r) r.
Proof.
  induction r as [|p|r1 IH1 r2 IH2|r1 IH1 r2 IH2|r IH|n r IH];
    intros s c k res; simpl.
  - intros H. exists "", s, c. repeat split; [constructor | exact H].
  - destruct s as [|a s]; [discriminate |].
    destruct (p a) eqn:Hp; [| discriminate].
    intros H. exists (String a ""), s, c.
    repeat split; [now constructor | exact H].
  - intros H. apply IH1 in H as (w1 & s1 & c1 & -> & Hw1 & H).
    apply IH2 in H as (w2 & s2 & c2 & -> & Hw2 & H).
    exists (w1 +:+ w2), s2, c2. repeat split.
    + now rewrite app_assoc.
    + econstructor; eassumption.
    + exact H.
  - destruct (rmatch r1 s c k) as [res'|] eqn:E.
    + intros [= ->]. apply IH1 in E as (w & s' & c' & -> & Hw & H).
      exists w, s', c'. repeat split; [now apply CM_AltL | exact H].
    + intros H. apply IH2 in H as (w & s' & c' & -> & Hw & H).
      exists w, s', c'. repeat split; [now apply CM_AltR | exact H].
  - apply star_loop_sound, IH.
  - intros H. apply IH in H as (w & s' & c' & -> & Hw & H).
    rewrite consumed_app in H.
    exists w, s', ((n, w) :: c'). repeat split; [now constructor | exact H].
Qed.

(** A found pattern sits somewhere in the text. *)
Theorem search_captures_sound (r : regex) (s : string) (c : captures) :
  search_captures r s = Some c ->
  exists before w after, s = before +:+ w +:+ after /\ cmatch r w [] c.
Proof.
  induction s as [|a s IH]; simpl.
  - destruct (match_here r "") as [c'|] eqn:E; [| discriminate].
    intros [= ->]. apply rmatch_sound in E as (w & s' & c' & E & Hw & [= ->]).
    exists "", w, s'. now split.
  - destruct (match_here r (String a s)) as [c'|] eqn:E.
    + intros [= ->]. apply rmatch_sound in E as (w & s' & c' & E & Hw & [= ->]).
      exists "", w, s'. now split.
    + intros H. apply IH in H as (before & w & after & -> & Hw).
      exists (String a before), w, after. now split.
Qed.

Theorem search_sound (r : regex) (s : string) (m : Match) :
  search r s = Some m ->
  exists before w after c,
    s = before +:+ w +:+ after /\ cmatch r w [] c /\ m = groups_of r c.
Proof.
  unfold search. destruct (search_captures r s) as [c|] eqn:E; [| discriminate].
  intros [= <-]. apply search_captures_sound in E as (b & w & a & -> & Hw).
  now exists b, w, a, c.
Qed.

(** *** The matcher misses no match *)

(** The matcher succeeds on a text that starts with a match of [r] when
    what follows the match satisfies [K] and the continuation succeeds on
    every text that satisfies [K]. *)
Definition complete_at (r : regex) (w : string) : Prop :=
  forall s' c (k : cont) (K : string -> Prop),
    K s' -> (forall s c', K s -> k s c' <> None) ->
    rmatch r (w +:+ s') c k <> None.

Lemma star_loop_stop (body : string -> captures -> cont -> option captures)
      (k : cont) (fuel : nat) (s : string) (c : captures) :
  k s c <> None -> star_loop body k fuel s c <> None.
Proof.
  intros Hk. destruct fuel as [|fuel]; simpl; [exact Hk |].
  now destruct (body s c _).
Qed.

Lemma cmatch_complete (r : regex) (w : string) (c0 c1 : captures) :
  cmatch r w c0 c1 ->
  complete_at r w
  /\ (forall r0, r = Star r0 ->
                 forall fuel s' c (k : cont) (K : string -> Prop),
                   String.length (w +:+ s') <= fuel ->
                   K s' -> (forall s c', K s -> k s c' <> None) ->
                   star_loop (rmatch r0) k fuel (w +:+ s') c <> None).
Proof.
  induction 1 as [c0|p a c0 Hp
                  |r1 r2 w1 w2 c0 c1 c2 _ [IH1 _] _ [IH2 _]
                  |r1 r2 w c0 c1 _ [IH _]|r1 r2 w c0 c1 _ [IH _]
                  |r c0|r w1 w2 c0 c1 c2 _ [IH1 _] Hne _ [_ IH2]
                  |n r w c0 c1 _ [IH _]].
  - split; [| discriminate]. intros s' c k K HK Hk. simpl. now apply (Hk s').
  - split; [| discriminate]. intros s' c k K HK Hk. simpl. rewrite Hp.
    now apply (Hk s').
  - split; [| discriminate]. intros s' c k K HK Hk. simpl.
    rewrite app_assoc.
    apply (IH1 _ _ _ (fun s => s = w2 +:+ s')); [reflexivity |].
    intros s c' ->. now apply (IH2 _ _ _ K).
  - split; [| discriminate]. intros s' c k K HK Hk. simpl.
    specialize (IH s' c k K HK Hk).
    now destruct (rmatch r1 (w +:+ s') c k).
  - split; [| discriminate]. intros s' c k K HK Hk. simpl.
    destruct (rmatch r1 (w +:+ s') c k); [discriminate |].
    now apply (IH _ _ _ K).
  - assert (H : forall fuel s' c (k : cont) (K : string -> Prop),
               K s' -> (forall s c', K s -> k s c' <> None) ->
               star_loop (rmatch r) k fuel ("" +:+ s') c <> None).
    { intros fuel s' c k K HK Hk. apply star_loop_stop. now apply Hk. }
    split.
    + intros s' c k K HK Hk. simpl. now apply (H _ s' c k K).
    + intros r0 [= <-] fuel s' c k K _ HK Hk. now apply (H _ s' c k K).
  - assert (H : forall fuel s' c (k : cont) (K : string -> Prop),
               String.length ((w1 +:+ w2) +:+ s') <= fuel ->
               K s' -> (forall s c', K s -> k s c' <> None) ->
               star_loop (rmatch r) k fuel ((w1 +:+ w2) +:+ s') c <> None).
    { intros fuel s' c k K Hf HK Hk.
      assert (Hlen : String.length (w2 +:+ s')
                     < String.length ((w1 +:+ w2) +:+ s')).
      { rewrite app_assoc, (length_app w1). destruct w1; [congruence | simpl; lia]. }
      destruct fuel as [|fuel]; [lia |]. simpl.
      match goal with
      | |- match ?run with _ => _ end <> None =>
          assert (Hrun : run <> None); [| now destruct run]
      end.
      rewrite app_assoc.
      apply (IH1 _ _ _ (fun s => s = w2 +:+ s')); [reflexivity |].
      intros s c' ->. rewrite <- app_assoc.
      apply Nat.ltb_lt in Hlen as Hlt. rewrite Hlt.
      apply (IH2 r eq_refl _ _ _ _ K); [lia | exact HK | exact Hk]. }
    split.
    + intros s' c k K HK Hk. simpl. now apply (H _ s' c k K).
    + intros r0 [= <-]. exact H.
  - split; [| discriminate]. intros s' c k K HK Hk. simpl.
    apply (IH _ _ _ K); [exact HK |]. intros s c' Hs. now apply Hk.
Qed.

Lemma search_captures_eq (r : regex) (s : string) :
  search_captures r s =
    match match_here r s with
    | Some c => Some c
    | None =>
        match s with
        | EmptyString => None
        | String _ s' => search_captures r s'
        end
    end.
Proof. destruct s; reflexivity. Qed.

Theorem search_captures_complete (r : regex) (before w after : string)
        (c : captures) :
  cmatch r w [] c -> search_captures r (before +:+ w +:+ after) <> None.
Proof.
  intros Hw. induction before as [|a before IH].
  - rewrite search_captures_eq.
    assert (H : match_here r ("" +:+ w +:+ after) <> None).
    { unfold match_here.
      apply (proj1 (cmatch_complete _ _ _ _ Hw) after [] _ (fun _ => True));
        [exact I | discriminate]. }
    now destruct (match_here r ("" +:+ w +:+ after)).
  - rewrite search_captures_eq.
    destruct (match_here r (String a before +:+ w +:+ after));
      [discriminate | exact IH].
Qed.

(** The matcher finds a pattern in a text exactly when some part of the
    text is a match of the pattern. *)
Theorem found_occurs (r : regex) (s : string) : found r s = true <-> occurs r s.
Proof.
  unfold found, occurs. split.
  - destruct (search r s) as [m|] eqn:E; [| discriminate].
    intros _. apply search_sound in E as (b & w & a & c & -> & Hw & _).
    now exists b, w, a, c.
  - intros (b & w & a & c & -> & Hw). unfold search.
    pose proof (search_captures_complete r b w a c Hw) as H.
    now destruct (search_captures r (b +:+ w +:+ a)).
Qed.

(** *** Taking a match apart *)

Lemma cmatch_Cat (r1 r2 : regex) (w : string) (c c' : captures) :
  cmatch (Cat r1 r2) w c c' ->
  exists w1 w2 c1, w = w1 +:+ w2 /\ cmatch r1 w1 c c1 /\ cmatch r2 w2 c1 c'.
Proof. inversion 1; subst. eauto 6. Qed.

Lemma cmatch_Alt (r1 r2 : regex) (w : string) (c c' : captures) :
  cmatch (Alt r1 r2) w c c' -> cmatch r1 w c c' \/ cmatch r2 w c c'.
Proof. inversion 1; subst; auto. Qed.

Lemma cmatch_Group (n : nat) (r : regex) (w : string) (c c' : captures) :
  cmatch (Group n r) w c c' -> exists c1, cmatch r w c c1 /\ c' = (n, w) :: c1.
Proof. inversion 1; subst. eauto. Qed.

Lemma cmatch_Chr (p : ascii -> bool) (w : string) (c c' : captures) :
  cmatch (Chr p) w c c' -> exists a, w = String a "" /\ p a = true /\ c' = c.
Proof. inversion 1; subst. eauto. Qed.

(** An expression without groups leaves the captures alone. *)
Lemma cmatch_no_groups (r : regex) (w : string) (c c' : captures) :
  cmatch r w c c' -> ngroups r = 0 -> c' = c.
Proof.
  induction 1; simpl; intros Hn; try reflexivity; try discriminate.
  - rewrite IHcmatch2, IHcmatch1; [reflexivity | lia | lia].
  - apply IHcmatch. lia.
  - apply IHcmatch. lia.
  - rewrite IHcmatch2, IHcmatch1; [reflexivity | lia | exact Hn].
Qed.

(** Literal text under [re.I] matches its case variants only. *)
Lemma cmatch_lit (s w : string) (c c' : captures) :
  cmatch (lit s) w c c' -> Str.lower w = Str.lower s /\ c' = c.
Proof.
  revert w c c'. induction s as [|p s IH]; intros w c c' H.
  - inversion H; subst. now split.
  - destruct s as [|q s].
    + apply cmatch_Chr in H as (a & -> & Ha & ->). split; [| reflexivity].
      simpl. f_equal. unfold Char.eqb_ci in Ha.
      now apply Ascii.eqb_eq in Ha.
    + change (lit (String p (String q s)))
        with (Cat (chr_ci p) (lit (String q s))) in H.
      apply cmatch_Cat in H as (w1 & w2 & c1 & -> & H1 & H2).
      apply cmatch_Chr in H1 as (a & -> & Ha & ->).
      apply IH in H2 as [E ->]. split; [| reflexivity].
      change (Str.lower (String a "" +:+ w2))
        with (String (Char.lower a) (Str.lower w2)).
      rewrite E. unfold Char.eqb_ci in Ha. apply Ascii.eqb_eq in Ha.
      now rewrite Ha.
Qed.

(** One or more characters of a class. *)
Lemma cmatch_Star_Chr (p : ascii -> bool) (w : string) (c c' : captures) :
  cmatch (Star (Chr p)) w c c' -> Str.all_chars p w = true /\ c' = c.
Proof.
  remember (Star (Chr p)) as r eqn:Er. induction 1; try discriminate.
  - now split.
  - injection Er as ->. apply cmatch_Chr in H as (a & -> & Ha & ->).
    destruct (IHcmatch2 eq_refl) as [Hw ->]. split; [| reflexivity].
    simpl. now rewrite Ha, Hw.
Qed.

Lemma cmatch_plus_Chr (p : ascii -> bool) (w : string) (c c' : captures) :
  cmatch (plus (Chr p)) w c c' ->
  Str.all_chars p w = true /\ w <> "" /\ c' = c.
Proof.
  intros (w1 & w2 & c1 & -> & H1 & H2)%cmatch_Cat.
  apply cmatch_Chr in H1 as (a & -> & Ha & ->).
  apply cmatch_Star_Chr in H2 as [Hw ->].
  repeat split; [| discriminate]. simpl. now rewrite Ha, Hw.
Qed.

(** *** Groups that always take part *)

Lemma combine_app {A B : Type} (a b : list A) (x y : list B) :
  length x = length a ->
  combine (a ++ b) (x ++ y) = combine a x ++ combine b y.
Proof.
  revert x. induction a as [|h a IH]; intros [|g x]; simpl;
    try discriminate; [reflexivity |].
  intros [= E]. now rewrite IH.
Qed.

Lemma spine_groups_spec (r : regex) :
  forall ns w c c',
    spine_groups r = Some ns -> cmatch r w c c' ->
    exists ws, length ws = length ns /\ c' = rev (combine ns ws) ++ c.
Proof.
  induction r as [|p|r1 IH1 r2 IH2|r1 _ r2 _|r _|n r _];
    intros ns w c c'; simpl.
  - intros [= <-] H. inversion H; subst. now exists [].
  - intros [= <-] H. inversion H; subst. now exists [].
  - destruct (spine_groups r1) as [a|]; [| discriminate].
    destruct (spine_groups r2) as [b|]; [| discriminate].
    intros [= <-] (w1 & w2 & c1 & -> & H1 & H2)%cmatch_Cat.
    destruct (IH1 _ _ _ _ eq_refl H1) as (ws1 & L1 & ->).
    destruct (IH2 _ _ _ _ eq_refl H2) as (ws2 & L2 & ->).
    exists (ws1 ++ ws2). split.
    + rewrite !List.length_app. lia.
    + rewrite combine_app by lia.
      rewrite rev_app_distr. now rewrite <- List.app_assoc.
  - destruct (Nat.eqb_spec (ngroups r1 + ngroups r2) 0) as [E|]; [| discriminate].
    intros [= <-] H. apply cmatch_no_groups in H as ->; [| exact E].
    now exists [].
  - destruct (Nat.eqb_spec (ngroups r) 0) as [E|]; [| discriminate].
    intros [= <-] H. apply cmatch_no_groups in H as ->; [| exact E].
    now exists [].
  - destruct (Nat.eqb_spec (ngroups r) 0) as [E|]; [| discriminate].
    intros [= <-] (c1 & H & ->)%cmatch_Group.
    apply cmatch_no_groups in H as ->; [| exact E].
    now exists [w].
Qed.

(** A match of such an expression, found by [search]. *)
Lemma search_spine (r : regex) (ns : list nat) (s : string) (m : Match) :
  spine_groups r = Some ns -> search r s = Some m ->
  exists ws, length ws = length ns
             /\ m = groups_of r (rev (combine ns ws)).
Proof.
  intros Hns (b & w & a & c & _ & Hc & ->)%search_sound.
  destruct (spine_groups_spec r ns w [] c Hns Hc) as (ws & L & ->).
  exists ws. now rewrite List.app_nil_r.
Qed.

End ReFacts.

(** ** The patterns of the registry *)

Module PatternFacts.
Import Re ReFacts Patterns.

(** Every group of every pattern takes part in every match. *)
Ltac all_groups ns :=
  let ws := fresh "ws" in
  let L := fresh "L" in
  intros (ws & L & ->)%(search_spine _ ns); [| reflexivity];
  repeat (destruct ws as [|? ws]; simpl in L; try discriminate);
  repeat eexists; reflexivity.

Lemma egress_1_groups (s : string) (m : Match) :
  search egress_1 s = Some m ->
  exists g1 g2 g3 g4 g5, m = [Some g1; Some g2; Some g3; Some g4; Some g5].
Proof. all_groups [1; 2; 3; 4; 5]. Qed.

Lemma brute_force_1_groups (s : string) (m : Match) :
  search brute_force_1 s = Some m -> exists g1 g2, m = [Some g1; Some g2].
Proof. all_groups [1; 2]. Qed.

Lemma brute_force_2_groups (s : string) (m : Match) :
  search brute_force_2 s = Some m -> exists g1 g2, m = [Some g1; Some g2].
Proof. all_groups [1; 2]. Qed.

Lemma brute_force_3_groups (s : string) (m : Match) :
  search brute_force_3 s = Some m -> exists g1 g2, m = [Some g1; Some g2].
Proof. all_groups [1; 2]. Qed.

Lemma sudo_1_groups (s : string) (m : Match) :
  search sudo_1 s = Some m ->
  exists g1 g2 g3, m = [Some g1; Some g2; Some g3].
Proof. all_groups [1; 2; 3]. Qed.

Lemma sudo_2_groups (s : string) (m : Match) :
  search sudo_2 s = Some m -> exists g1 g2, m = [Some g1; Some g2].
Proof. all_groups [1; 2]. Qed.

Lemma sudo_3_groups (s : string) (m : Match) :
  search sudo_3 s = Some m -> exists g1 g2, m = [Some g1; Some g2].
Proof. all_groups [1; 2]. Qed.

Lemma oom_kill_1_groups (s : string) (m : Match) :
  search oom_kill_1 s = Some m -> exists g1 g2, m = [Some g1; Some g2].
Proof. all_groups [1; 2]. Qed.

Lemma oom_kill_2_groups (s : string) (m : Match) :
  search oom_kill_2 s = Some m -> exists g1, m = [Some g1].
Proof. all_groups [1]. Qed.

(** Taking the match of a concatenation apart, piece by piece. *)
Ltac piece H :=
  first [ apply cmatch_lit in H as [? ->]
        | apply cmatch_plus_Chr in H as (? & ? & ->)
        | apply cmatch_Star_Chr in H as [? ->]
        | apply cmatch_Chr in H as (? & -> & ? & ->) ].

Ltac peel H :=
  repeat (let H1 := fresh "P" in
          apply cmatch_Cat in H as (? & ? & ? & -> & H1 & H);
          first [ piece H1
                | apply cmatch_Group in H1 as (? & H1 & ->); try piece H1 ]).

(** The PAM session pattern: group 1 is the word after [session], in the
    letter case of the text; group 2 is the user name. *)
Lemma sudo_2_match (s : string) (m : Match) :
  search sudo_2 s = Some m ->
  exists g1 g2,
    m = [Some g1; Some g2]
    /\ (Str.lower g1 = "opened" \/ Str.lower g1 = "closed")
    /\ Str.all_chars Char.isword g2 = true /\ g2 <> "".
Proof.
  intros (b & w & a & c & _ & H & ->)%search_sound.
  cbv [sudo_2 seq_] in H. peel H.
  apply cmatch_Group in H as (? & H & ->).
  apply cmatch_plus_Chr in H as (Hw & Hne & ->).
  match goal with
  | G : cmatch (Alt _ _) ?g _ _ |- _ =>
      rename G into HG; exists g
  end.
  eexists. split; [reflexivity |].
  split; [| now split].
  apply cmatch_Alt in HG as [HG|HG]; apply cmatch_lit in HG as [HG _];
    [left | right]; exact HG.
Qed.

(** The pattern for a user who is not in sudoers: group 2 is what follows
    [COMMAND=] up to the end of the line. *)
Lemma brute_force_3_match (s : string) (m : Match) :
  search brute_force_3 s = Some m ->
  exists g1 g2 before kw after,
    m = [Some g1; Some g2]
    /\ s = before +:+ kw +:+ g2 +:+ after
    /\ Str.lower kw = "command="
    /\ g2 <> ""
    /\ Str.all_chars (fun c => negb (Ascii.eqb c Char.newline)) g2 = true.
Proof.
  intros (b & w & a & c & -> & H & ->)%search_sound.
  cbv [brute_force_3 seq_] in H. peel H.
  apply cmatch_Group in H as (? & H & ->).
  apply cmatch_plus_Chr in H as (Hw & Hne & ->).
  match goal with
  | Hk : Str.lower ?kw = Str.lower "COMMAND=",
    Hu : Str.all_chars Char.isword ?g1 = true |- _ =>
      match type of Hne with
      | ?g2 <> _ => exists g1, g2; eexists; exists kw, a
      end;
      split; [reflexivity |]; split; [| now repeat split]
  end.
  rewrite <- !StrFacts.app_assoc. reflexivity.
Qed.

End PatternFacts.

(** ** Counters *)

Module CounterFacts.
Import Counter.

Lemma get_incr_same (k : string) (t : Counter) :
  get k (incr k t) = S (get k t).
Proof.
  induction t as [|[k' n] t IH]; simpl.
  - now rewrite String.eqb_refl.
  - destruct (String.eqb_spec k' k) as [->|Hne]; simpl.
    + now rewrite String.eqb_refl.
    + destruct (String.eqb_spec k' k); [contradiction | exact IH].
Qed.

Lemma get_incr_other (k k' : string) (t : Counter) :
  k <> k' -> get k' (incr k t) = get k' t.
Proof.
  intros Hne. induction t as [|[k0 n] t IH]; simpl.
  - destruct (String.eqb_spec k k'); [contradiction | reflexivity].
  - destruct (String.eqb_spec k0 k) as [->|]; simpl.
    + destruct (String.eqb_spec k k'); [contradiction | reflexivity].
    + now rewrite IH.
Qed.

Lemma incr_keys_old (k : string) (t : Counter) :
  In k (keys t) -> keys (incr k t) = keys t.
Proof.
  induction t as [|[k' n] t IH]; simpl; [tauto |].
  destruct (String.eqb_spec k' k) as [->|Hne]; simpl; [reflexivity |].
  intros [|Hin]; [contradiction |]. f_equal. now apply IH.
Qed.

Lemma incr_keys_new (k : string) (t : Counter) :
  ~ In k (keys t) -> keys (incr k t) = keys t ++ [k].
Proof.
  induction t as [|[k' n] t IH]; simpl; [reflexivity |].
  destruct (String.eqb_spec k' k) as [->|Hne]; simpl; [tauto |].
  intros Hin. f_equal. apply IH. tauto.
Qed.

Lemma incr_In (k k' : string) (n : nat) (t : Counter) :
  In (k', n) (incr k t) -> 0 < n \/ In (k', n) t.
Proof.
  induction t as [|[k0 m] t IH]; simpl.
  - intros [[= <- <-]|[]]. left. lia.
  - destruct (String.eqb_spec k0 k) as [->|Hne]; simpl.
    + intros [[= <- <-]|Hin]; [left; lia | right; now right].
    + intros [E|Hin]; [right; now left |].
      destruct (IH Hin); [now left | right; now right].
Qed.

Lemma wf_nil : wf [].
Proof. split; [constructor | intros k n []]. Qed.

Lemma wf_incr (k : string) (t : Counter) : wf t -> wf (incr k t).
Proof.
  intros [Hnd Hpos]. split.
  - destruct (in_dec string_dec k (keys t)) as [Hin|Hin].
    + now rewrite incr_keys_old.
    + rewrite incr_keys_new by assumption.
      apply NoDup_app. repeat split; [exact Hnd | | apply NoDup_singleton].
      intros x Hx [<-|[]]%list_elem_of_In. apply Hin. now apply list_elem_of_In.
  - intros k' n [Hn|Hin]%incr_In; [exact Hn | eauto].
Qed.

Lemma In_get (k : string) (n : nat) (t : Counter) :
  NoDup (keys t) -> In (k, n) t -> get k t = n.
Proof.
  induction t as [|[k' m] t IH]; simpl; [tauto |].
  intros Hnd [[= -> ->]|Hin].
  - now rewrite String.eqb_refl.
  - destruct (String.eqb_spec k' k) as [->|Hne].
    + apply NoDup_cons in Hnd as [Hk _]. exfalso. apply Hk.
      apply list_elem_of_In. now apply (in_map fst) in Hin.
    + apply IH; [| exact Hin]. now apply NoDup_cons in Hnd as [_ ?].
Qed.

Lemma get_In (k : string) (t : Counter) :
  0 < get k t -> In (k, get k t) t.
Proof.
  induction t as [|[k' m] t IH]; simpl; [lia |].
  destruct (String.eqb_spec k' k) as [->|Hne]; [now left | right; auto].
Qed.

(** In a counter, the entries are the keys with a count above zero. *)
Lemma wf_In (k : string) (n : nat) (t : Counter) :
  wf t -> In (k, n) t <-> get k t = n /\ 0 < n.
Proof.
  intros [Hnd Hpos]. split.
  - intros Hin. split; [now apply In_get | eauto].
  - intros [<- Hn]. now apply get_In.
Qed.

Lemma get_keys (k : string) (t : Counter) :
  wf t -> In k (keys t) <-> 0 < get k t.
Proof.
  intros Hwf. split.
  - intros ([k' n] & <- & Hin)%in_map_iff. simpl.
    apply (wf_In _ _ _ Hwf) in Hin as [-> Hn]. exact Hn.
  - intros Hn. apply get_In in Hn. now apply (in_map fst) in Hn.
Qed.

End CounterFacts.

(** ** Threat lines *)

Module LineFacts.
Import Str StrFacts.

Lemma all_chars_app (p : ascii -> bool) (a b : string) :
  all_chars p (a +:+ b) = all_chars p a && all_chars p b.
Proof.
  induction a as [|c a IH]; simpl; [reflexivity |].
  now rewrite IH, andb_assoc.
Qed.

Lemma string_of_uint_digits (d : uint) :
  all_chars not_colon (NilEmpty.string_of_uint d) = true.
Proof. induction d; simpl; auto. Qed.

Lemma dec_no_colon (n : nat) : all_chars not_colon (dec n) = true.
Proof. apply string_of_uint_digits. Qed.

Lemma dec_inj (n n' : nat) : dec n = dec n' -> n = n'.
Proof.
  unfold dec. intros H.
  apply (f_equal NilEmpty.uint_of_string) in H.
  rewrite !NilEmpty.usu in H. injection H as H.
  apply (f_equal Nat.of_uint) in H. now rewrite !Unsigned.of_to in H.
Qed.

(** Two texts cut at their last colon. *)
Lemma last_colon (a a' x x' : string) :
  all_chars not_colon x = true -> all_chars not_colon x' = true ->
  a +:+ String ":" x = a' +:+ String ":" x' -> a = a' /\ x = x'.
Proof.
  intros Hx Hx'. revert a'.
  induction a as [|c a IH]; intros [|c' a']; simpl; intros H.
  - injection H as ->. now split.
  - injection H as <- ->. rewrite all_chars_app in Hx. simpl in Hx.
    rewrite andb_false_r in Hx. discriminate.
  - injection H as -> <-. rewrite all_chars_app in Hx'. simpl in Hx'.
    rewrite andb_false_r in Hx'. discriminate.
  - injection H as -> H. apply IH in H as [-> ->]. now split.
Qed.

Lemma brute_force_line_inj (ip ip' : string) (n n' : nat) :
  brute_force_line ip n = brute_force_line ip' n' -> ip = ip' /\ n = n'.
Proof.
  unfold brute_force_line. intros H.
  apply String.app_inj in H.
  change (ip +:+ String ":" (" " +:+ dec n +:+ " failed attempts")
          = ip' +:+ String ":" (" " +:+ dec n' +:+ " failed attempts")) in H.
  apply last_colon in H as [-> H].
  - split; [reflexivity |]. injection H as H.
    apply app_inv_tail in H. now apply dec_inj.
  - simpl. rewrite all_chars_app, dec_no_colon. reflexivity.
  - simpl. rewrite all_chars_app, dec_no_colon. reflexivity.
Qed.

Lemma brute_force_line_not_sudo (ip user : string) (n k : nat) :
  brute_force_line ip n <> sudo_line user k.
Proof. unfold brute_force_line, sudo_line. simpl. discriminate. Qed.

Lemma brute_force_line_not_exfiltration (ip : string) (n k : nat) :
  brute_force_line ip n <> exfiltration_line k.
Proof. unfold brute_force_line, exfiltration_line. simpl. discriminate. Qed.

End LineFacts.

(** ** The batch analysis *)

Module AnalysisFacts.
Import CounterFacts LineFacts.

Lemma track_ip_failures (event : SecurityEvent) (st : tallies) :
  ip_failures (track event st) = bump (attempt_ip event) (ip_failures st).
Proof.
  unfold track, attempt_ip. simpl.
  destruct (rule event); try reflexivity; now destruct (truthy _).
Qed.

Lemma track_user_sudo_attempts (event : SecurityEvent) (st : tallies) :
  user_sudo_attempts (track event st)
  = bump (sudo_user event) (user_sudo_attempts st).
Proof.
  unfold track, sudo_user. simpl.
  destruct (rule event); try reflexivity; now destruct (truthy _).
Qed.

Lemma wf_bump (o : option string) (t : Counter) : Counter.wf t -> Counter.wf (bump o t).
Proof. destruct o; simpl; [apply wf_incr | trivial]. Qed.

Lemma get_bump (o : option string) (k : string) (t : Counter) :
  Counter.get k (bump o t)
  = Counter.get k t + (if bool_decide (o = Some k) then 1 else 0).
Proof.
  destruct o as [k'|]; unfold bump.
  - destruct (bool_decide_reflect (Some k' = Some k)) as [E|E].
    + injection E as ->. rewrite get_incr_same. lia.
    + rewrite get_incr_other; [lia | congruence].
  - rewrite bool_decide_eq_false_2 by discriminate. lia.
Qed.

Section Fold.

(** A counter of the loop, seen through what the loop does to it. *)
Variable field : tallies -> Counter.
Variable key_of : SecurityEvent -> option string.
Hypothesis field_track :
  forall event st, field (track event st) = bump (key_of event) (field st).

Lemma fold_wf (events : list SecurityEvent) (st : tallies) :
  Counter.wf (field st) ->
  Counter.wf (field (fold_left (fun st event => track event st) events st)).
Proof.
  revert st. induction events as [|e events IH]; intros st H; simpl.
  - exact H.
  - apply IH. rewrite field_track. now apply wf_bump.
Qed.

Lemma fold_get (events : list SecurityEvent) (st : tallies) (k : string) :
  Counter.get k (field (fold_left (fun st event => track event st) events st))
  = Counter.get k (field st) + occurrences key_of k events.
Proof.
  revert st. induction events as [|e events IH]; intros st; simpl.
  - unfold occurrences. simpl. lia.
  - rewrite IH, field_track, get_bump. unfold occurrences. simpl.
    destruct (bool_decide (key_of e = Some k)); simpl; lia.
Qed.

End Fold.

Lemma ip_failures_wf (events : list SecurityEvent) :
  Counter.wf (ip_failures (tally events)).
Proof. apply (fold_wf ip_failures attempt_ip track_ip_failures), wf_nil. Qed.

Lemma ip_failures_get (events : list SecurityEvent) (ip : string) :
  Counter.get ip (ip_failures (tally events)) = attempts ip events.
Proof.
  unfold tally.
  now rewrite (fold_get ip_failures attempt_ip track_ip_failures).
Qed.

Lemma user_sudo_attempts_get (events : list SecurityEvent) (user : string) :
  Counter.get user (user_sudo_attempts (tally events))
  = occurrences sudo_user user events.
Proof.
  unfold tally.
  now rewrite (fold_get user_sudo_attempts sudo_user track_user_sudo_attempts).
Qed.

(** The entries of the brute-force counter. *)
Lemma ip_failures_In (events : list SecurityEvent) (ip : string) (n : nat) :
  In (ip, n) (ip_failures (tally events)) <-> attempts ip events = n /\ 0 < n.
Proof.
  rewrite (wf_In _ _ _ (ip_failures_wf events)).
  now rewrite ip_failures_get.
Qed.

Lemma occurrences_pos (f : SecurityEvent -> option string) (k : string)
      (events : list SecurityEvent) :
  0 < occurrences f k events <-> In k (omap f events).
Proof.
  unfold occurrences. induction events as [|e events IH]; simpl.
  - split; [lia | intros []].
  - destruct (bool_decide_reflect (f e = Some k)) as [D|D].
    + rewrite D. simpl. split; [now left | lia].
    + destruct (f e) as [k'|]; [| exact IH].
      rewrite IH. simpl. split; [now right |].
      intros [->|H]; [congruence | exact H].
Qed.

(** The counter has one key for each distinct counted address. *)
Lemma ip_failures_length (events : list SecurityEvent) :
  length (ip_failures (tally events))
  = length (remove_dups (offending_ips events)).
Proof.
  rewrite <- (length_map fst
                (ip_failures (tally events))).
  apply Permutation_length, NoDup_Permutation.
  - apply (ip_failures_wf events).
  - apply NoDup_remove_dups.
  - intros ip. rewrite elem_of_remove_dups, !list_elem_of_In.
    change (map fst (ip_failures (tally events)))
      with (Counter.keys (ip_failures (tally events))).
    rewrite (get_keys _ _ (ip_failures_wf events)), ip_failures_get.
    apply occurrences_pos.
Qed.

End AnalysisFacts.

(** ** Claims about one line *)

Section LineClaims.
Import StrFacts.

Variable strptime : string -> option datetime.

(** C5, as the code has it.  The message of a produced event is the input
    line without the white space at its two ends: all four fields with
    their delimiters, not the log body alone.  It is the input line itself
    when the line neither starts nor ends with white space. *)
Theorem message_is_stripped_line (now : datetime) (line : string)
        (ev : SecurityEvent) :
  parse_log_line strptime now line = Return (Some ev) ->
  message ev = Str.strip line
  /\ (exists l r, line = l +:+ message ev +:+ r
                  /\ Str.isblank l = true /\ Str.isblank r = true)
  /\ (exists ts body,
        fields line = [ts; vm_name ev; source ev; body]
        /\ message ev
           = ts +:+ " | " +:+ vm_name ev +:+ " | " +:+ source ev
                +:+ " | " +:+ body)
  /\ (Str.strip line = line -> message ev = line).
Proof.
  intros (ts & vm & src & body & rule & idx & m & sev
          & Hne & Hf & _ & _ & ->)%parse_log_line_Some.
  simpl. repeat split.
  - apply strip_spec.
  - exists ts, body. split; [exact Hf |].
    pose proof (split_join " | " 3 (Str.strip line)) as Hj.
    unfold fields in Hf. now rewrite Hf in Hj.
  - trivial.
Qed.

(** C7.  Two classifications of one line, at the times [now1] and [now2]:
    both produce an event or neither does; the two events have the same
    name, source, message, severity, rule and metadata; when the time
    stamp field parses both carry the parsed time, so the events are
    equal; when it does not, each carries the time of its own run. *)
Theorem parse_log_line_repeatable (now1 now2 : datetime) (line : string)
        (ev1 : SecurityEvent) :
  parse_log_line strptime now1 line = Return (Some ev1) ->
  exists ev2 ts vm src body,
    parse_log_line strptime now2 line = Return (Some ev2)
    /\ fields line = [ts; vm; src; body]
    /\ vm_name ev1 = vm_name ev2
    /\ source ev1 = source ev2
    /\ message ev1 = message ev2
    /\ severity ev1 = severity ev2
    /\ rule ev1 = rule ev2
    /\ metadata ev1 = metadata ev2
    /\ (forall t, strptime ts = Some t ->
                  timestamp ev1 = t /\ timestamp ev2 = t /\ ev1 = ev2)
    /\ (strptime ts = None ->
        timestamp ev1 = now1 /\ timestamp ev2 = now2)
    /\ (timestamp ev1 <> timestamp ev2 -> strptime ts = None).
Proof.
  intros (ts & vm & src & body & rule & idx & m & sev
          & Hne & Hf & Hr & Hs & ->)%parse_log_line_Some.
  exists (mk_event vm (default now2 (strptime ts)) src (Str.strip line)
                   sev rule (Some (_extract_metadata rule m body))).
  exists ts, vm, src, body. simpl.
  split.
  { apply parse_log_line_Some. now exists ts, vm, src, body, rule, idx, m, sev. }
  repeat split; trivial.
  - now rewrite H.
  - now rewrite H.
  - now rewrite H.
  - now rewrite H.
  - now rewrite H.
  - intros Hd. destruct (strptime ts); [now contradiction Hd | reflexivity].
Qed.

(** C8.  A produced event has one of the four rules of the registry, never
    [OTHER], and its severity is never [LOW]. *)
Theorem no_other_rule_no_low_severity (now : datetime) (line : string)
        (ev : SecurityEvent) :
  parse_log_line strptime now line = Return (Some ev) ->
  In (rule ev) [EGRESS; BRUTE_FORCE; SUDO; OOM_KILL]
  /\ rule ev <> OTHER
  /\ severity ev <> LOW.
Proof.
  intros (ts & vm & src & body & rule & idx & m & sev
          & Hne & Hf & Hr & Hs & ->)%parse_log_line_Some.
  simpl. apply first_rule_In in Hr. simpl in Hr.
  assert (Hn : rule <> OTHER) by (intros ->; intuition discriminate).
  repeat split; [intuition auto | exact Hn |].
  now apply (_get_severity_not_low rule m body).
Qed.

End LineClaims.

(** ** The severity of an egress event *)

Section SeverityClaims.
Import StrFacts Patterns PatternFacts.

Lemma _get_severity_egress (m : Re.Match) (msg g : string) :
  1 < length m -> Re.group m 2 = Some g ->
  _get_severity EGRESS m msg
  = if existsb (fun ext => Str.contains ext (Str.lower g)) sensitive_endings
    then Return CRITICAL else Return HIGH.
Proof.
  intros Hl Hg. unfold _get_severity. apply Nat.ltb_lt in Hl.
  rewrite Hl, Hg. reflexivity.
Qed.

Lemma sensitive_spec (g : string) :
  existsb (fun ext => Str.contains ext (Str.lower g)) sensitive_endings = true
  <-> exists ext, In ext sensitive_endings /\ contains_ci ext g.
Proof.
  rewrite existsb_exists. split; intros (ext & Hin & H); exists ext;
    (split; [exact Hin |]); now apply contains_lower.
Qed.

(** C3.  For every match of the egress pattern, group 2 (the read source)
    took part in the match, and the severity is critical when one of
    [.csv], [.zip], [.sql], [.key], [.pem] occurs in it, letter case
    apart, and high when none does.  A read source that ends in [.sql]
    is critical; one that ends in [.txt] after a stem without a dot is
    high. *)
Theorem egress_severity (body : string) (m : Re.Match) :
  Re.search egress_1 body = Some m ->
  exists g,
    Re.group m 2 = Some g
    /\ ((exists ext, In ext sensitive_endings /\ contains_ci ext g) ->
        _get_severity EGRESS m body = Return CRITICAL)
    /\ (~ (exists ext, In ext sensitive_endings /\ contains_ci ext g) ->
        _get_severity EGRESS m body = Return HIGH)
    /\ (forall stem, g = stem +:+ ".sql" ->
                     _get_severity EGRESS m body = Return CRITICAL)
    /\ (forall stem,
          Str.all_chars (fun c => negb (Ascii.eqb c ".")) stem = true ->
          g = stem +:+ ".txt" ->
          _get_severity EGRESS m body = Return HIGH).
Proof.
  intros (g1 & g & g3 & g4 & g5 & ->)%egress_1_groups.
  exists g. split; [reflexivity |].
  assert (Hs : forall msg,
             _get_severity EGRESS [Some g1; Some g; Some g3; Some g4; Some g5] msg
             = if existsb (fun ext => Str.contains ext (Str.lower g))
                          sensitive_endings
               then Return CRITICAL else Return HIGH).
  { intros msg. apply _get_severity_egress; [simpl; lia | reflexivity]. }
  rewrite Hs. repeat split.
  - intros H. apply sensitive_spec in H. now rewrite H.
  - intros H. destruct (existsb _ _) eqn:E; [| reflexivity].
    apply sensitive_spec in E. contradiction.
  - intros stem ->.
    assert (E : existsb (fun ext => Str.contains ext (Str.lower (stem +:+ ".sql")))
                        sensitive_endings = true).
    { apply sensitive_spec. exists ".sql". split; [simpl; tauto |].
      exists stem, ".sql", "". split; [| reflexivity].
      now rewrite app_nil_r. }
    now rewrite E.
  - intros stem Hstem ->. unfold sensitive_endings. simpl existsb.
    rewrite !contains_after_stem by exact Hstem. reflexivity.
Qed.

End SeverityClaims.

(** ** The registry at work *)

Section RegistryClaims.
Import StrFacts Patterns PatternFacts.

Variable strptime : string -> option datetime.

Lemma first_rule_patterns (body : string) :
  first_rule patterns body =
    match Re.search egress_1 body with
    | Some m => Some (EGRESS, 0, m)
    | None =>
    match Re.search brute_force_1 body with
    | Some m => Some (BRUTE_FORCE, 0, m)
    | None =>
    match Re.search brute_force_2 body with
    | Some m => Some (BRUTE_FORCE, 1, m)
    | None =>
    match Re.search brute_force_3 body with
    | Some m => Some (BRUTE_FORCE, 2, m)
    | None =>
    match Re.search sudo_1 body with
    | Some m => Some (SUDO, 0, m)
    | None =>
    match Re.search sudo_2 body with
    | Some m => Some (SUDO, 1, m)
    | None =>
    match Re.search sudo_3 body with
    | Some m => Some (SUDO, 2, m)
    | None =>
    match Re.search oom_kill_1 body with
    | Some m => Some (OOM_KILL, 0, m)
    | None =>
    match Re.search oom_kill_2 body with
    | Some m => Some (OOM_KILL, 1, m)
    | None => None
    end end end end end end end end end.
Proof.
  unfold patterns. simpl.
  repeat match goal with
         | |- context [Re.search ?p body] => destruct (Re.search p body)
         end; reflexivity.
Qed.

(** The severity classifier raises on no match that the registry makes. *)
Lemma severity_defined (body : string) (rule : SecurityRule) (i : nat)
      (m : Re.Match) :
  first_rule patterns body = Some (rule, i, m) ->
  exists sev, _get_severity rule m body = Return sev.
Proof.
  rewrite first_rule_patterns.
  destruct (Re.search egress_1 body) as [m'|] eqn:E.
  { intros [= <- <- <-].
    apply egress_1_groups in E as (g1 & g2 & g3 & g4 & g5 & ->).
    simpl.
    match goal with |- context [if ?c then _ else _] => destruct c end; eauto. }
  repeat match goal with
         | |- context [Re.search ?p body] => destruct (Re.search p body)
         end;
    intros [= <- <- <-]; simpl; eauto;
    match goal with |- context [if ?c then _ else _] => destruct c end; eauto.
Qed.

Lemma fields_not_blank (line a b c d : string) :
  fields line = [a; b; c; d] -> Str.strip line <> "".
Proof. unfold fields. intros H E. rewrite E in H. discriminate. Qed.

(** What the parser does with a line of four fields. *)
Lemma parse_classified (now : datetime) (line ts vm src body : string)
      (rule : SecurityRule) (i : nat) (m : Re.Match) :
  fields line = [ts; vm; src; body] ->
  first_rule patterns body = Some (rule, i, m) ->
  exists sev,
    _get_severity rule m body = Return sev
    /\ parse_log_line strptime now line
       = Return (Some (mk_event vm (default now (strptime ts)) src
                                (Str.strip line) sev rule
                                (Some (_extract_metadata rule m body)))).
Proof.
  intros Hf Hr. destruct (severity_defined _ _ _ _ Hr) as [sev Hs].
  exists sev. split; [exact Hs |].
  apply parse_log_line_Some. exists ts, vm, src, body, rule, i, m, sev.
  repeat split; try assumption. now apply fields_not_blank in Hf.
Qed.

Lemma parse_log_line_unclassified (now : datetime)
      (line ts vm src body : string) :
  fields line = [ts; vm; src; body] ->
  first_rule patterns body = None ->
  parse_log_line strptime now line = Return None.
Proof.
  intros Hf Hr. pose proof (fields_not_blank _ _ _ _ _ Hf) as Hne.
  unfold parse_log_line. unfold fields in Hf. rewrite Hf, Hr.
  now destruct (String.eqb (Str.strip line) "").
Qed.

(** C4.  A blank or white-space-only line, and a line that does not split
    into exactly four parts on [" | "], yield no result.  The split makes at
    most four parts.  For a line of four parts, the parts joined by the
    delimiter are the stripped line and the first three hold no delimiter;
    the parser searches the patterns in the fourth part as a whole: there is
    no result when it finds none there, and otherwise the event of the
    pattern found there, with the second and third part as its machine and
    source.  The fourth part takes the rest of the line whatever it holds:
    when the stripped line is three fields without a bar followed by any
    text [d], the parts are those fields and [d], delimiters of [d]
    included, and a pattern found in [d] yields an event. *)
Theorem parse_log_line_format (now : datetime) (line : string) :
  (Str.isblank line = true -> parse_log_line strptime now line = Return None)
  /\ (length (fields line) <> 4 ->
      parse_log_line strptime now line = Return None)
  /\ length (fields line) <= 4
  /\ (forall a b c d,
        fields line = [a; b; c; d] ->
        Str.strip line = a +:+ " | " +:+ b +:+ " | " +:+ c +:+ " | " +:+ d
        /\ Str.contains " | " a = false
        /\ Str.contains " | " b = false
        /\ Str.contains " | " c = false
        /\ (first_rule patterns d = None ->
            parse_log_line strptime now line = Return None)
        /\ (forall rl i m,
              first_rule patterns d = Some (rl, i, m) ->
              exists sev,
                _get_severity rl m d = Return sev
                /\ parse_log_line strptime now line
                   = Return (Some (mk_event b (default now (strptime a)) c
                                            (Str.strip line) sev rl
                                            (Some (_extract_metadata rl m d))))))
  /\ (forall a b c d,
        Str.no_bar a = true -> Str.no_bar b = true -> Str.no_bar c = true ->
        Str.split " | " 3
                  (a +:+ " | " +:+ b +:+ " | " +:+ c +:+ " | " +:+ d)
        = [a; b; c; d]
        /\ (Str.strip line
            = a +:+ " | " +:+ b +:+ " | " +:+ c +:+ " | " +:+ d ->
            fields line = [a; b; c; d]
            /\ (forall rl i m,
                  first_rule patterns d = Some (rl, i, m) ->
                  exists ev,
                    parse_log_line strptime now line = Return (Some ev)
                    /\ rule ev = rl
                    /\ vm_name ev = b
                    /\ source ev = c
                    /\ metadata ev = Some (_extract_metadata rl m d)))).
Proof.
  split; [| split; [| split; [| split]]].
  - intros Hb. apply strip_blank in Hb. unfold parse_log_line.
    now rewrite Hb.
  - intros Hn. unfold parse_log_line, fields in *.
    destruct (String.eqb (Str.strip line) ""); [reflexivity |].
    destruct (Str.split " | " 3 (Str.strip line))
      as [|a [|b [|c [|d [|]]]]]; try reflexivity.
    now contradiction Hn.
  - apply (split_length " | " 3).
  - intros a b c d Hf.
    assert (Hc : forall i f, nth_error [a; b; c; d] i = Some f -> i < 3 ->
                             Str.contains " | " f = false).
    { intros i f Hi Hlt.
      apply (split_fields " | " 3 (Str.strip line) i); [discriminate | |];
        unfold fields in Hf; rewrite Hf; simpl; [exact Hi | lia]. }
    split.
    { pose proof (split_join " | " 3 (Str.strip line)) as Hj.
      unfold fields in Hf. now rewrite Hf in Hj. }
    split; [apply (Hc 0); [reflexivity | lia] |].
    split; [apply (Hc 1); [reflexivity | lia] |].
    split; [apply (Hc 2); [reflexivity | lia] |].
    split.
    + intros Hr. exact (parse_log_line_unclassified now _ _ _ _ _ Hf Hr).
    + intros rl i m Hr. exact (parse_classified now _ _ _ _ _ _ _ _ Hf Hr).
  - intros a b c d Ha Hb Hc. split; [now apply split_no_bar |].
    intros Hs.
    assert (Hf : fields line = [a; b; c; d])
      by (unfold fields; rewrite Hs; now apply split_no_bar).
    split; [exact Hf |]. intros rl i m Hr.
    destruct (parse_classified now _ _ _ _ _ _ _ _ Hf Hr) as (sev & _ & Hp).
    eexists. split; [exact Hp |]. now cbn.
Qed.

(** X1.  The parser raises nothing.  The one place of the code that can
    fail is the egress branch of [_get_severity], which takes [lower()] of a
    group of the match; that group always took part in the match, so the
    attribute error of a [None] group cannot occur, and every line gives an
    event or [None]. *)
Theorem parse_log_line_never_raises (now : datetime) (line : string) :
  exists result, parse_log_line strptime now line = Return result.
Proof.
  unfold parse_log_line.
  destruct (String.eqb (Str.strip line) ""); [eauto |].
  destruct (Str.split " | " 3 (Str.strip line))
    as [|ts [|vm [|src [|body [|]]]]]; eauto.
  destruct (first_rule patterns body) as [[[rule i] m]|] eqn:Hr; [| eauto].
  destruct (severity_defined _ _ _ _ Hr) as [sev ->]. simpl. eauto.
Qed.

(** C1, as the code has it.  The registry is in the order egress,
    brute_force, sudo, oom_kill.  The loops return the first pattern found
    of the first rule that has one: no pattern of an earlier rule and no
    earlier pattern of that rule is found in the body.  The rule of a
    produced event is the rule returned.  A line whose body holds a
    brute_force pattern produces an event: an egress one when the body
    holds the egress pattern too, a brute_force one otherwise, and never a
    sudo one, whatever sudo pattern the body holds. *)
Theorem first_match_in_registry_order (now : datetime) (body : string) :
  map fst patterns = [EGRESS; BRUTE_FORCE; SUDO; OOM_KILL]
  /\ (forall rule i m,
        first_rule patterns body = Some (rule, i, m) <->
        exists earlier ps later before p after,
          patterns = earlier ++ (rule, ps) :: later
          /\ ps = before ++ p :: after /\ i = length before
          /\ none_applies body earlier /\ none_found body before
          /\ Re.search p body = Some m)
  /\ (forall line ts vm src ev,
        fields line = [ts; vm; src; body] ->
        parse_log_line strptime now line = Return (Some ev) ->
        exists i m, first_rule patterns body = Some (rule ev, i, m))
  /\ (forall line ts vm src,
        fields line = [ts; vm; src; body] ->
        rule_found BRUTE_FORCE body = true ->
        exists ev,
          parse_log_line strptime now line = Return (Some ev)
          /\ rule ev = (if rule_found EGRESS body then EGRESS else BRUTE_FORCE)
          /\ rule ev <> SUDO).
Proof.
  split; [reflexivity |]. split; [| split].
  - intros rule i m. rewrite first_rule_Some. split.
    + intros (earlier & ps & later & Hp & Hn & Hf).
      apply first_pattern_Some in Hf as (before & p & after & -> & -> & Hb & Hs).
      now exists earlier, (before ++ p :: after), later, before, p, after.
    + intros (earlier & ps & later & before & p & after
              & Hp & -> & -> & Hn & Hb & Hs).
      exists earlier, (before ++ p :: after), later.
      repeat split; [exact Hp | exact Hn |].
      apply first_pattern_Some. now exists before, p, after.
  - intros line ts vm src ev Hf
           (ts' & vm' & src' & body' & rule & i & m & sev
            & _ & Hf' & Hr & _ & ->)%parse_log_line_Some.
    rewrite Hf in Hf'. injection Hf' as _ _ _ <-. simpl. eauto.
  - intros line ts vm src Hf Hbf.
    assert (Hr : exists i m,
               first_rule patterns body
               = Some (if rule_found EGRESS body then EGRESS else BRUTE_FORCE,
                       i, m)).
    { rewrite first_rule_patterns.
      change (rule_found EGRESS body) with (found egress_1 body || false).
      change (rule_found BRUTE_FORCE body)
        with (found brute_force_1 body
              || (found brute_force_2 body
                  || (found brute_force_3 body || false))) in Hbf.
      unfold found in *.
      destruct (Re.search egress_1 body); simpl; [eauto |].
      destruct (Re.search brute_force_1 body); [eauto |].
      destruct (Re.search brute_force_2 body); [eauto |].
      destruct (Re.search brute_force_3 body); [eauto | discriminate]. }
    destruct Hr as (i & m & Hr).
    destruct (parse_classified now _ _ _ _ _ _ _ _ Hf Hr) as (sev & _ & Hp).
    eexists. split; [exact Hp |]. simpl. split; [reflexivity |].
    destruct (rule_found EGRESS body); discriminate.
Qed.

End RegistryClaims.

(** ** What the two odd patterns put in the metadata *)

Section MetadataClaims.
Import StrFacts Patterns PatternFacts AnalysisFacts.

Variable strptime : string -> option datetime.

Lemma occurrences_cons (f : SecurityEvent -> option string) (k : string)
      (e : SecurityEvent) (events : list SecurityEvent) :
  f e = Some k -> occurrences f k (e :: events) = S (occurrences f k events).
Proof.
  intros H. unfold occurrences. simpl.
  now rewrite bool_decide_eq_true_2 by exact H.
Qed.

Lemma metadata_get_insert (ev : SecurityEvent) (key : string)
      (v : option string) (md : Metadata) :
  metadata ev = Some (<[key := v]> md) -> metadata_get ev key = v.
Proof.
  intros H. unfold metadata_get. rewrite H.
  destruct (decide (<[key := v]> md = ∅)) as [E|_].
  - now apply insert_non_empty in E.
  - now rewrite lookup_insert_eq.
Qed.

Lemma lower_nonempty (w s : string) : Str.lower w = s -> s <> "" -> w <> "".
Proof. intros <- H ->. now apply H. Qed.

Lemma truthy_nonempty (w : string) : w <> "" -> truthy (Some w) = Some w.
Proof.
  intros H. simpl. destruct (String.eqb_spec w ""); [contradiction | reflexivity].
Qed.

(** C9, as the code has it.  A line whose body holds the PAM session
    pattern of sudo and no earlier pattern of the registry produces a sudo
    event whose metadata is the one key [user], and what it holds is group
    1 of the pattern: the word [opened] or [closed] in the letter case of
    the line, not group 2, the user name.  The analyzer counts the event
    under that word. *)
Theorem pam_session_user_key (now : datetime) (line ts vm src body : string)
        (m : Re.Match) :
  fields line = [ts; vm; src; body] ->
  none_found body
             [egress_1; brute_force_1; brute_force_2; brute_force_3; sudo_1] ->
  Re.search sudo_2 body = Some m ->
  exists word name ev,
    m = [Some word; Some name]
    /\ (Str.lower word = "opened" \/ Str.lower word = "closed")
    /\ parse_log_line strptime now line = Return (Some ev)
    /\ rule ev = SUDO
    /\ metadata ev = Some (<["user" := Some word]> ∅)
    /\ (forall st, user_sudo_attempts (track ev st)
                   = Counter.incr word (user_sudo_attempts st))
    /\ (forall events,
          Counter.get word (user_sudo_attempts (tally (ev :: events)))
          = S (Counter.get word (user_sudo_attempts (tally events)))).
Proof.
  intros Hf Hnone Hs.
  assert (Hr : first_rule patterns body = Some (SUDO, 1, m)).
  { rewrite first_rule_patterns. unfold none_found in Hnone.
    repeat match goal with
           | H : Forall _ (_ :: _) |- _ =>
               apply Forall_cons in H as [? H]
           end.
    repeat match goal with
           | E : Re.search _ body = None |- _ => rewrite E; clear E
           end.
    now rewrite Hs. }
  destruct (sudo_2_match _ _ Hs) as (word & name & -> & Hw & _ & _).
  destruct (parse_classified strptime now _ _ _ _ _ _ _ _ Hf Hr)
    as (sev & _ & Hp).
  eexists word, name, _. split; [reflexivity |]. split; [exact Hw |].
  split; [exact Hp |]. split; [reflexivity |].
  split; [reflexivity |].
  assert (Hne : word <> "")
    by (destruct Hw as [Hw|Hw]; apply (lower_nonempty _ _ Hw); discriminate).
  match goal with
  | |- (forall st, user_sudo_attempts (track ?e st) = _) /\ _ =>
      assert (Hu : sudo_user e = Some word)
  end.
  { unfold sudo_user. simpl rule.
    rewrite (metadata_get_insert _ "user" (Some word) ∅) by reflexivity.
    now apply truthy_nonempty. }
  split.
  - intros st. now rewrite track_user_sudo_attempts, Hu.
  - intros events. rewrite !user_sudo_attempts_get.
    now apply occurrences_cons.
Qed.

(** C10, as the code has it.  A line whose body holds the pattern for a
    user who is not in sudoers and no earlier pattern of the registry
    produces a brute-force event whose metadata key [source_ip] holds group
    2 of the pattern: the text that follows [COMMAND=] in the body, not an
    address.  The analyzer counts the event under that text in its
    per-address count. *)
Theorem sudoers_command_as_source_ip (now : datetime)
        (line ts vm src body : string) (m : Re.Match) :
  fields line = [ts; vm; src; body] ->
  none_found body [egress_1; brute_force_1; brute_force_2] ->
  Re.search brute_force_3 body = Some m ->
  exists user command ev,
    m = [Some user; Some command]
    /\ (exists before kw after,
          body = before +:+ kw +:+ command +:+ after
          /\ Str.lower kw = "command=")
    /\ command <> ""
    /\ parse_log_line strptime now line = Return (Some ev)
    /\ rule ev = BRUTE_FORCE
    /\ metadata ev
       = Some (<["source_ip" := Some command]> (<["username" := Some user]> ∅))
    /\ (forall st, ip_failures (track ev st)
                   = Counter.incr command (ip_failures st))
    /\ (forall events,
          Counter.get command (ip_failures (tally (ev :: events)))
          = S (Counter.get command (ip_failures (tally events)))).
Proof.
  intros Hf Hnone Hs.
  assert (Hr : first_rule patterns body = Some (BRUTE_FORCE, 2, m)).
  { rewrite first_rule_patterns. unfold none_found in Hnone.
    repeat match goal with
           | H : Forall _ (_ :: _) |- _ =>
               apply Forall_cons in H as [? H]
           end.
    repeat match goal with
           | E : Re.search _ body = None |- _ => rewrite E; clear E
           end.
    now rewrite Hs. }
  destruct (brute_force_3_match _ _ Hs)
    as (user & command & before & kw & after & -> & Hb & Hk & Hne & _).
  destruct (parse_classified strptime now _ _ _ _ _ _ _ _ Hf Hr)
    as (sev & _ & Hp).
  eexists user, command, _. split; [reflexivity |].
  split; [now exists before, kw, after |]. split; [exact Hne |].
  split; [exact Hp |]. split; [reflexivity |].
  split; [reflexivity |].
  match goal with
  | |- (forall st, ip_failures (track ?e st) = _) /\ _ =>
      assert (Hu : attempt_ip e = Some command)
  end.
  { unfold attempt_ip. simpl rule.
    rewrite (metadata_get_insert _ "source_ip" (Some command)
               (<["username" := Some user]> ∅)) by reflexivity.
    now apply truthy_nonempty. }
  split.
  - intros st. now rewrite track_ip_failures, Hu.
  - intros events. rewrite !ip_failures_get.
    now apply occurrences_cons.
Qed.

End MetadataClaims.

(** ** Claims about a batch *)

Section BatchClaims.
Import CounterFacts LineFacts AnalysisFacts.

(** The threat lines that a counter of addresses gives. *)
Lemma brute_force_threats_In (st : tallies) (ip : string) (n : nat) :
  In (brute_force_line ip n) (brute_force_threats st)
  <-> In (ip, n) (ip_failures st) /\ 5 < n.
Proof.
  unfold brute_force_threats. rewrite in_flat_map. split.
  - intros ([ip' n'] & Hin & Hl).
    destruct (Nat.ltb_spec 5 n') as [Hn|]; [| destruct Hl].
    destruct Hl as [Hl|[]]. apply brute_force_line_inj in Hl as [-> ->].
    now split.
  - intros [Hin Hn]. exists (ip, n). split; [exact Hin |].
    apply Nat.ltb_lt in Hn. rewrite Hn. now left.
Qed.

Lemma sudo_threats_not_In (st : tallies) (ip : string) (n : nat) :
  ~ In (brute_force_line ip n) (sudo_threats st).
Proof.
  unfold sudo_threats. rewrite in_flat_map. intros ([u k] & _ & Hl).
  destruct (10 <? k); [| destruct Hl].
  destruct Hl as [Hl|[]]. symmetry in Hl.
  now apply brute_force_line_not_sudo in Hl.
Qed.

Lemma exfiltration_threats_not_In (st : tallies) (ip : string) (n : nat) :
  ~ In (brute_force_line ip n) (exfiltration_threats st).
Proof.
  unfold exfiltration_threats. destruct (egress_files st); [intros [] |].
  intros [Hl|[]]. symmetry in Hl.
  now apply brute_force_line_not_exfiltration in Hl.
Qed.

Lemma brute_force_threats_once (st : tallies) (ip : string) (n : nat) :
  NoDup (Counter.keys (ip_failures st)) ->
  In (ip, n) (ip_failures st) -> 5 < n ->
  count_occ string_dec (brute_force_threats st) (brute_force_line ip n) = 1.
Proof.
  unfold brute_force_threats. generalize (ip_failures st) as t.
  induction t as [|[k m] t IH]; [intros _ [] |].
  change (flat_map ?f ((k, m) :: t)) with (f (k, m) ++ flat_map f t).
  cbv beta. intros [Hk Hnd]%NoDup_cons Hin Hn. rewrite count_occ_app.
  destruct Hin as [[= -> ->]|Hin].
  - apply Nat.ltb_lt in Hn as Hn'. rewrite Hn'.
    rewrite count_occ_cons_eq by reflexivity.
    change (count_occ string_dec [] (brute_force_line ip n)) with 0.
    replace (count_occ string_dec _ (brute_force_line ip n)) with 0;
      [reflexivity |].
    symmetry. apply count_occ_not_In. rewrite in_flat_map.
    intros ([ip' n'] & Hin' & Hl).
    destruct (5 <? n'); [| destruct Hl].
    destruct Hl as [Hl|[]]. apply brute_force_line_inj in Hl as [-> ->].
    apply Hk, list_elem_of_In. now apply (in_map fst) in Hin'.
  - rewrite (IH Hnd Hin Hn).
    assert (Hne : k <> ip).
    { intros ->. apply Hk, list_elem_of_In. now apply (in_map fst) in Hin. }
    destruct (5 <? m); [| reflexivity].
    rewrite count_occ_cons_neq; [reflexivity |].
    intros E. apply brute_force_line_inj in E as [E _]. contradiction.
Qed.

(** C2.  The counter of the loop holds for every address its number of
    brute-force attempts in the batch.  The threat list holds the
    brute-force line of an address and a count exactly when the count is
    the number of attempts of the address and it is above 5.  With 5
    attempts there is no brute-force line of the address; with 6 there is
    its line with the count 6, once, and with no other count. *)
Theorem brute_force_threat_threshold (events : list SecurityEvent)
        (ip : string) :
  Counter.get ip (ip_failures (tally events)) = attempts ip events
  /\ (forall n,
        In (brute_force_line ip n) (threats (analyze_events events))
        <-> attempts ip events = n /\ 5 < n)
  /\ (attempts ip events = 5 ->
      forall n, ~ In (brute_force_line ip n) (threats (analyze_events events)))
  /\ (attempts ip events = 6 ->
      count_occ string_dec (threats (analyze_events events))
                (brute_force_line ip 6) = 1
      /\ forall n,
          In (brute_force_line ip n) (threats (analyze_events events)) ->
          n = 6).
Proof.
  assert (Hiff : forall n,
             In (brute_force_line ip n) (threats (analyze_events events))
             <-> attempts ip events = n /\ 5 < n).
  { intros n. unfold analyze_events. simpl threats.
    rewrite !in_app_iff, brute_force_threats_In, ip_failures_In.
    pose proof (sudo_threats_not_In (tally events) ip n).
    pose proof (exfiltration_threats_not_In (tally events) ip n).
    split; [intros [[[? ?] ?]|[?|?]] | intros [? ?]]; try tauto.
    left. repeat split; [assumption | lia | assumption]. }
  split; [apply ip_failures_get |]. split; [exact Hiff |]. split.
  - intros H5 n [Hn Hlt]%Hiff. lia.
  - intros H6. split.
    + unfold analyze_events. simpl threats. rewrite !count_occ_app.
      rewrite brute_force_threats_once;
        [| apply (ip_failures_wf events)
         | apply ip_failures_In; split; [exact H6 | lia]
         | lia].
      rewrite (proj1 (count_occ_not_In string_dec _ _)
                     (sudo_threats_not_In (tally events) ip 6)).
      rewrite (proj1 (count_occ_not_In string_dec _ _)
                     (exfiltration_threats_not_In (tally events) ip 6)).
      reflexivity.
    + intros n [Hn _]%Hiff. lia.
Qed.

(** C6.  The recommendation of rate limiting is in the list exactly when
    the batch has more than 3 distinct addresses in its brute-force count,
    however few attempts each has made: the counter has one key for each
    of them.  The threat list plays no part: there is a batch with the
    recommendation and no threat, and one with a brute-force threat and
    without the recommendation. *)
Theorem rate_limit_recommendation (events : list SecurityEvent) :
  (In rec_rate_limit (recommendations (analyze_events events))
   <-> 3 < length (remove_dups (offending_ips events)))
  /\ length (ip_failures (tally events))
     = length (remove_dups (offending_ips events))
  /\ (exists batch,
        threats (analyze_events batch) = []
        /\ In rec_rate_limit (recommendations (analyze_events batch)))
  /\ (exists batch ip n,
        In (brute_force_line ip n) (threats (analyze_events batch))
        /\ ~ In rec_rate_limit (recommendations (analyze_events batch))).
Proof.
  split; [| split; [apply ip_failures_length | split]].
  - unfold analyze_events. simpl recommendations.
    rewrite !in_app_iff, <- ip_failures_length. split.
    + intros [H|[H|H]].
      * destruct (0 <? _); [destruct H as [H|[]]; discriminate | destruct H].
      * destruct (Nat.ltb_spec 3 (length (ip_failures (tally events))));
          [assumption | destruct H].
      * destruct (egress_files (tally events));
          [destruct H | destruct H as [H|[]]; discriminate].
    + intros H. right. left. apply Nat.ltb_lt in H. rewrite H. now left.
  - exists (map Sample.attempt ["10.0.0.1"; "10.0.0.2"; "10.0.0.3"; "10.0.0.4"]).
    vm_compute. split; [reflexivity | now left].
  - exists (repeat (Sample.attempt "10.0.0.5") 6), "10.0.0.5", 6.
    vm_compute. split; [now left | intros []].
Qed.

End BatchClaims.

(** ** The statements at the sample inputs *)

Lemma parse_log_line_format_witness :
  parse_log_line Sample.strptime Sample.now "   " = Return None
  /\ parse_log_line Sample.strptime Sample.now "no delimiter here" = Return None
  /\ Str.contains " | " "auth.log" = false
  /\ exists ev,
       parse_log_line Sample.strptime Sample.now Sample.bar_line
       = Return (Some ev)
       /\ rule ev = BRUTE_FORCE
       /\ vm_name ev = "u2-vm30000"
       /\ source ev = "auth.log".
Proof.
  pose proof (parse_log_line_format Sample.strptime Sample.now "   ")
    as (H1 & _).
  pose proof (parse_log_line_format Sample.strptime Sample.now
                                    "no delimiter here") as (_ & H2 & _).
  pose proof (parse_log_line_format Sample.strptime Sample.now Sample.bar_line)
    as (_ & _ & _ & H4 & H5).
  split; [apply H1; reflexivity |].
  split; [apply H2; vm_compute; discriminate |].
  split.
  - apply (H4 "2024-01-01 00:00:00" "u2-vm30000" "auth.log"
              "cron | sshd[9]: Invalid user guest from 192.168.1.20").
    vm_compute. reflexivity.
  - destruct (H5 "2024-01-01 00:00:00" "u2-vm30000" "auth.log"
                 "cron | sshd[9]: Invalid user guest from 192.168.1.20"
                 eq_refl eq_refl eq_refl) as (_ & H6).
    destruct (H6 ltac:(vm_compute; reflexivity)) as (_ & H7).
    destruct (H7 BRUTE_FORCE 1 [Some "guest"; Some "192.168.1.20"]
                 ltac:(vm_compute; reflexivity))
      as (ev & Hev & Hr & Hv & Hs & _).
    exists ev. repeat split; assumption.
Defined.

Lemma message_is_stripped_line_witness :
  message Sample.ssh_event = Str.strip Sample.ssh_line_padded.
Proof.
  apply (message_is_stripped_line Sample.strptime Sample.now
                                  Sample.ssh_line_padded Sample.ssh_event).
  vm_compute. reflexivity.
Defined.

(** C5, as the claim has it: the message of the event is not the line as it
    came in when the line has white space around it. *)
Lemma message_not_verbatim :
  parse_log_line Sample.strptime Sample.now Sample.ssh_line_padded
  = Return (Some Sample.ssh_event)
  /\ message Sample.ssh_event <> Sample.ssh_line_padded.
Proof. split; [vm_compute; reflexivity | discriminate]. Defined.

Lemma parse_log_line_repeatable_witness :
  exists ev2,
    parse_log_line Sample.strptime Sample.later Sample.ssh_line
    = Return (Some ev2)
    /\ metadata Sample.ssh_event = metadata ev2.
Proof.
  destruct (parse_log_line_repeatable Sample.strptime Sample.now Sample.later
                                      Sample.ssh_line Sample.ssh_event)
    as (ev2 & ts & vm & src & body & Hp & _ & _ & _ & _ & _ & _ & Hm & _).
  - vm_compute. reflexivity.
  - exists ev2. split; [exact Hp | exact Hm].
Defined.

Lemma no_other_rule_no_low_severity_witness :
  severity Sample.ssh_event <> LOW.
Proof.
  apply (no_other_rule_no_low_severity Sample.strptime Sample.now
                                       Sample.ssh_line Sample.ssh_event).
  vm_compute. reflexivity.
Defined.

Lemma egress_severity_witness :
  _get_severity EGRESS
                [Some "4242"; Some "/srv/db/dump.SQL"; Some "10.9.8.7:443";
                 Some "1000"; Some "1000"]
                Sample.egress_sql_body
  = Return CRITICAL.
Proof.
  destruct (egress_severity
              Sample.egress_sql_body
              [Some "4242"; Some "/srv/db/dump.SQL"; Some "10.9.8.7:443";
               Some "1000"; Some "1000"])
    as (g & Hg & Hc & _).
  - vm_compute. reflexivity.
  - apply Hc. exists ".sql". split; [simpl; tauto |].
    injection Hg as <-. exists "/srv/db/dump", ".SQL", "".
    split; reflexivity.
Defined.

Lemma first_match_in_registry_order_witness :
  exists ev,
    parse_log_line Sample.strptime Sample.now Sample.two_rules_line
    = Return (Some ev)
    /\ rule ev = BRUTE_FORCE.
Proof.
  destruct (first_match_in_registry_order Sample.strptime Sample.now
                                          Sample.two_rules_body)
    as (_ & _ & _ & H).
  destruct (H Sample.two_rules_line "2024-01-01 00:00:00" "u2-vm30000"
              "auth.log") as (ev & Hp & Hr & _).
  - vm_compute. reflexivity.
  - vm_compute. reflexivity.
  - exists ev. split; [exact Hp |]. rewrite Hr. vm_compute. reflexivity.
Defined.

(** C1, as the claim has it: a body that holds a brute-force pattern and a
    sudo pattern is classified as egress when it holds the egress pattern
    too. *)
Lemma brute_force_and_sudo_yet_egress :
  fields Sample.three_rules_line
  = ["2024-01-01 00:00:00"; "u2-vm30000"; "syslog"; Sample.three_rules_body]
  /\ rule_found BRUTE_FORCE Sample.three_rules_body = true
  /\ rule_found SUDO Sample.three_rules_body = true
  /\ exists ev,
      parse_log_line Sample.strptime Sample.now Sample.three_rules_line
      = Return (Some ev)
      /\ rule ev = EGRESS /\ rule ev <> BRUTE_FORCE.
Proof.
  split; [vm_compute; reflexivity |].
  split; [vm_compute; reflexivity |].
  split; [vm_compute; reflexivity |].
  eexists. split; [vm_compute; reflexivity |].
  split; [reflexivity | discriminate].
Defined.

Lemma pam_session_user_key_witness :
  exists ev,
    parse_log_line Sample.strptime Sample.now Sample.pam_line
    = Return (Some ev)
    /\ metadata ev = Some (<["user" := Some "opened"]> ∅).
Proof.
  destruct (pam_session_user_key Sample.strptime Sample.now Sample.pam_line
              "2024-01-01 00:00:00" "u2-vm30000" "auth.log" Sample.pam_body
              [Some "opened"; Some "root"])
    as (word & name & ev & Hm & _ & Hp & _ & Hmd & _).
  - vm_compute. reflexivity.
  - repeat constructor; vm_compute; reflexivity.
  - vm_compute. reflexivity.
  - exists ev. split; [exact Hp |]. injection Hm as <- _. exact Hmd.
Defined.

(** C9, as the claim has it: the key [user] holds neither [opened] nor
    [closed] when the line has the word in capital letters, and it holds the
    invoking user when the body holds the pattern of a sudo command too. *)
Lemma pam_user_key_varies :
  (found Patterns.sudo_2 Sample.pam_upper_body = true
   /\ exists ev,
       parse_log_line Sample.strptime Sample.now Sample.pam_upper_line
       = Return (Some ev)
       /\ metadata_get ev "user" = Some "OPENED"
       /\ metadata_get ev "user" <> Some "opened"
       /\ metadata_get ev "user" <> Some "closed")
  /\ (found Patterns.sudo_2 Sample.pam_after_command_body = true
      /\ exists ev,
          parse_log_line Sample.strptime Sample.now
                         Sample.pam_after_command_line
          = Return (Some ev)
          /\ metadata_get ev "user" = Some "bob").
Proof.
  split; (split; [vm_compute; reflexivity |]);
    eexists; (split; [vm_compute; reflexivity |]).
  - split; [vm_compute; reflexivity |].
    split; vm_compute; discriminate.
  - vm_compute. reflexivity.
Defined.

Lemma sudoers_command_as_source_ip_witness :
  exists ev,
    parse_log_line Sample.strptime Sample.now Sample.sudoers_line
    = Return (Some ev)
    /\ metadata ev
       = Some (<["source_ip" := Some "/usr/bin/cat /etc/shadow"]>
                 (<["username" := Some "root"]> ∅)).
Proof.
  destruct (sudoers_command_as_source_ip
              Sample.strptime Sample.now Sample.sudoers_line
              "2024-01-01 00:00:00" "u2-vm30000" "auth.log"
              Sample.sudoers_body
              [Some "root"; Some "/usr/bin/cat /etc/shadow"])
    as (user & command & ev & Hm & _ & _ & Hp & _ & Hmd & _).
  - vm_compute. reflexivity.
  - repeat constructor; vm_compute; reflexivity.
  - vm_compute. reflexivity.
  - exists ev. split; [exact Hp |]. injection Hm as <- <-. exact Hmd.
Defined.

(** C10, as the claim has it: the key [source_ip] holds an address, not the
    command, when the body holds the pattern of a failed log-in too. *)
Lemma sudoers_line_after_ssh_keeps_address :
  Re.search Patterns.brute_force_3 Sample.sudoers_after_ssh_body
  = Some [Some "root"; Some "/bin/sh"]
  /\ exists ev,
      parse_log_line Sample.strptime Sample.now Sample.sudoers_after_ssh_line
      = Return (Some ev)
      /\ metadata_get ev "source_ip" = Some "10.0.0.5"
      /\ metadata_get ev "source_ip" <> Some "/bin/sh".
Proof.
  split; [vm_compute; reflexivity |].
  eexists. split; [vm_compute; reflexivity |].
  split; [vm_compute; reflexivity | vm_compute; discriminate].
Defined.

Lemma brute_force_threat_threshold_witness :
  (forall n,
      ~ In (brute_force_line "10.0.0.5" n)
           (threats (analyze_events (repeat (Sample.attempt "10.0.0.5") 5))))
  /\ count_occ string_dec
               (threats (analyze_events (repeat (Sample.attempt "10.0.0.5") 6)))
               (brute_force_line "10.0.0.5" 6) = 1.
Proof.
  split.
  - apply (brute_force_threat_threshold
             (repeat (Sample.attempt "10.0.0.5") 5) "10.0.0.5").
    vm_compute. reflexivity.
  - apply (brute_force_threat_threshold
             (repeat (Sample.attempt "10.0.0.5") 6) "10.0.0.5").
    vm_compute. reflexivity.
Defined.

(** ** More on stripping *)

Module StripFacts.
Import Str StrFacts.

Lemma rstrip_idem (s : string) : rstrip (rstrip s) = rstrip s.
Proof.
  induction s as [|c s IH]; simpl; [reflexivity |].
  destruct (rstrip s) as [|d t] eqn:E.
  - destruct (Char.isspace c) eqn:Hc; simpl; [reflexivity |].
    now rewrite Hc.
  - change (rstrip (String c (String d t))
            = String c (String d t)).
    simpl. simpl in IH. rewrite IH. reflexivity.
Qed.

Lemma lstrip_head (s : string) :
  match s with
  | EmptyString => True
  | String c _ => Char.isspace c = false
  end -> lstrip s = s.
Proof. destruct s as [|c s]; simpl; [reflexivity |]. now intros ->. Qed.

Lemma rstrip_head (c : ascii) (s : string) :
  Char.isspace c = false -> exists t, rstrip (String c s) = String c t.
Proof.
  intros Hc. simpl. destruct (rstrip s) as [|d t]; rewrite ?Hc; eauto.
Qed.

Lemma strip_head (s : string) :
  match strip s with
  | EmptyString => True
  | String c _ => Char.isspace c = false
  end.
Proof.
  unfold strip. destruct (lstrip_spec s) as (l & _ & _ & Hh).
  destruct (lstrip s) as [|c u]; simpl; [exact I |].
  destruct (rstrip_head c u Hh) as [t E]. simpl in E. now rewrite E.
Qed.

Lemma strip_idem (s : string) : strip (strip s) = strip s.
Proof.
  unfold strip at 1. rewrite (lstrip_head (strip s)) by apply strip_head.
  unfold strip. apply rstrip_idem.
Qed.

Lemma lstrip_blank_app (l s : string) :
  isblank l = true -> lstrip (l +:+ s) = lstrip s.
Proof.
  unfold isblank. induction l as [|c l IH]; simpl; [reflexivity |].
  intros [Hc Hl]%andb_prop. rewrite Hc. now apply IH.
Qed.

Lemma rstrip_app_blank (s r : string) :
  isblank r = true -> rstrip (s +:+ r) = rstrip s.
Proof.
  intros Hr. induction s as [|c s IH]; simpl.
  - now apply rstrip_blank.
  - now rewrite IH.
Qed.

Lemma lstrip_app (s r : string) :
  lstrip (s +:+ r) = if isblank s then lstrip r else lstrip s +:+ r.
Proof.
  unfold isblank. induction s as [|c s IH]; simpl; [reflexivity |].
  destruct (Char.isspace c); simpl; [exact IH | reflexivity].
Qed.

(** White space around a text does not change what [strip] leaves. *)
Lemma strip_padded (l s r : string) :
  isblank l = true -> isblank r = true -> strip (l +:+ s +:+ r) = strip s.
Proof.
  intros Hl Hr. unfold strip. rewrite (lstrip_blank_app _ _ Hl), lstrip_app.
  destruct (isblank s) eqn:Hs.
  - apply lstrip_blank in Hr as ->. apply lstrip_blank in Hs as ->. reflexivity.
  - now apply rstrip_app_blank.
Qed.

End StripFacts.

(** ** More on one line *)

Section MoreLineFacts.
Import StrFacts StripFacts Patterns PatternFacts.

Variable strptime : string -> option datetime.

Lemma parse_log_line_strip (now : datetime) (line : string) :
  parse_log_line strptime now (Str.strip line)
  = parse_log_line strptime now line.
Proof. unfold parse_log_line. now rewrite strip_idem. Qed.

(** X2.  White space before and after a line, a final newline included, does
    not change what the parser returns: the same event, with the same
    message, or no event in both cases. *)
Theorem parse_log_line_ignores_padding (now : datetime) (l line r : string) :
  Str.isblank l = true -> Str.isblank r = true ->
  parse_log_line strptime now (l +:+ line +:+ r)
  = parse_log_line strptime now line.
Proof.
  intros Hl Hr. unfold parse_log_line. now rewrite (strip_padded _ _ _ Hl Hr).
Qed.

(** The match that produced an event, pattern by pattern. *)
Lemma first_rule_cases (body : string) (rule : SecurityRule) (i : nat)
      (m : Re.Match) :
  first_rule patterns body = Some (rule, i, m) ->
  (rule = EGRESS /\ exists g1 g2 g3 g4 g5,
        m = [Some g1; Some g2; Some g3; Some g4; Some g5])
  \/ (rule = BRUTE_FORCE /\ exists g1 g2, m = [Some g1; Some g2])
  \/ (rule = SUDO
      /\ ((i = 0 /\ Re.search sudo_1 body = Some m
           /\ exists g1 g2 g3, m = [Some g1; Some g2; Some g3])
          \/ (i <> 0 /\ Re.search sudo_1 body = None
              /\ exists g1 g2, m = [Some g1; Some g2])))
  \/ (rule = OOM_KILL /\ ((exists g1 g2, m = [Some g1; Some g2])
                          \/ exists g1, m = [Some g1])).
Proof.
  rewrite first_rule_patterns.
  destruct (Re.search egress_1 body) eqn:E1.
  { intros [= <- <- <-]. left. split; [reflexivity |].
    now apply egress_1_groups in E1. }
  destruct (Re.search brute_force_1 body) eqn:E2.
  { intros [= <- <- <-]. right. left. split; [reflexivity |].
    now apply brute_force_1_groups in E2. }
  destruct (Re.search brute_force_2 body) eqn:E3.
  { intros [= <- <- <-]. right. left. split; [reflexivity |].
    now apply brute_force_2_groups in E3. }
  destruct (Re.search brute_force_3 body) eqn:E4.
  { intros [= <- <- <-]. right. left. split; [reflexivity |].
    now apply brute_force_3_groups in E4. }
  destruct (Re.search sudo_1 body) eqn:E5.
  { intros [= <- <- <-]. right. right. left. split; [reflexivity |].
    left. split; [reflexivity |]. split; [reflexivity |].
    now apply sudo_1_groups in E5. }
  destruct (Re.search sudo_2 body) eqn:E6.
  { intros [= <- <- <-]. right. right. left. split; [reflexivity |].
    right. split; [discriminate |]. split; [reflexivity |].
    now apply sudo_2_groups in E6. }
  destruct (Re.search sudo_3 body) eqn:E7.
  { intros [= <- <- <-]. right. right. left. split; [reflexivity |].
    right. split; [discriminate |]. split; [reflexivity |].
    now apply sudo_3_groups in E7. }
  destruct (Re.search oom_kill_1 body) eqn:E8.
  { intros [= <- <- <-]. right. right. right. split; [reflexivity |].
    left. now apply oom_kill_1_groups in E8. }
  destruct (Re.search oom_kill_2 body) eqn:E9; [| discriminate].
  intros [= <- <- <-]. right. right. right. split; [reflexivity |].
  right. now apply oom_kill_2_groups in E9.
Qed.

(** X3.  The severity of a produced event goes with its rule: a brute-force
    event is high, an out-of-memory event medium, an egress event critical
    or high, and a sudo event high exactly when its body holds [USER=root]
    or [session opened for user root] in these very letters, medium
    otherwise.  So a critical event is an egress event and a medium one a
    sudo or out-of-memory event. *)
Theorem severity_by_rule (now : datetime) (line : string) (ev : SecurityEvent) :
  parse_log_line strptime now line = Return (Some ev) ->
  (exists ts vm src body,
      fields line = [ts; vm; src; body]
      /\ match rule ev with
         | EGRESS => severity ev = CRITICAL \/ severity ev = HIGH
         | BRUTE_FORCE => severity ev = HIGH
         | SUDO =>
             severity ev
             = if Str.contains "USER=root" body
                  || Str.contains "session opened for user root" body
               then HIGH else MEDIUM
         | OOM_KILL => severity ev = MEDIUM
         | OTHER => False
         end)
  /\ (severity ev = CRITICAL -> rule ev = EGRESS)
  /\ (severity ev = MEDIUM -> rule ev = SUDO \/ rule ev = OOM_KILL).
Proof.
  intros (ts & vm & src & body & rule & idx & m & sev
          & Hne & Hf & Hr & Hs & ->)%parse_log_line_Some.
  simpl.
  assert (H : match rule with
              | EGRESS => sev = CRITICAL \/ sev = HIGH
              | BRUTE_FORCE => sev = HIGH
              | SUDO =>
                  sev = if Str.contains "USER=root" body
                           || Str.contains "session opened for user root" body
                        then HIGH else MEDIUM
              | OOM_KILL => sev = MEDIUM
              | OTHER => False
              end).
  { apply first_rule_In in Hr as Hin. destruct rule; simpl in Hs.
    - destruct (1 <? length m); [destruct (Re.group m 2) |]; simpl in Hs;
        try discriminate;
        try match type of Hs with
            | (if ?c then _ else _) = _ => destruct c
            end;
        injection Hs as <-; auto.
    - now injection Hs as <-.
    - match type of Hs with
      | (if ?c then _ else _) = _ => destruct c
      end; now injection Hs as <-.
    - now injection Hs as <-.
    - simpl in Hin. intuition discriminate. }
  split; [now exists ts, vm, src, body |].
  split; intros ->; destruct rule; try tauto; try discriminate;
    try (destruct H; discriminate);
    try (destruct (_ || _); discriminate).
Qed.

#[local] Ltac same_keys :=
  apply set_eq; intros ?;
  rewrite ?elem_of_union, ?elem_of_singleton, ?elem_of_empty; tauto.

(** X4.  The metadata of a produced event is a dictionary of the groups
    of the pattern that the registry found in the body, under the keys of
    its rule: the five egress fields; [username] and [source_ip]; [user],
    and [command] when the pattern found is the first of the sudo
    patterns, the one of a command, and only then; and no key at all for
    an out-of-memory event, whose captured process is dropped.  Every
    value is a captured text, never [None]. *)
Theorem metadata_keys_by_rule (now : datetime) (line : string)
        (ev : SecurityEvent) :
  parse_log_line strptime now line = Return (Some ev) ->
  exists (md : Metadata) (ts vm src body : string) (i : nat) (m : Re.Match),
    metadata ev = Some md
    /\ fields line = [ts; vm; src; body]
    /\ first_rule patterns body = Some (rule ev, i, m)
    /\ (forall k v, md !! k = Some v -> v <> None)
    /\ match rule ev with
       | EGRESS =>
           dom md = ({["pid"; "read_file"; "write_dest"; "uid"; "gid"]} : gset string)
           /\ exists g1 g2 g3 g4 g5,
               m = [Some g1; Some g2; Some g3; Some g4; Some g5]
               /\ md !! "pid" = Some (Some g1)
               /\ md !! "read_file" = Some (Some g2)
               /\ md !! "write_dest" = Some (Some g3)
               /\ md !! "uid" = Some (Some g4)
               /\ md !! "gid" = Some (Some g5)
       | BRUTE_FORCE =>
           dom md = ({["username"; "source_ip"]} : gset string)
           /\ exists g1 g2,
               m = [Some g1; Some g2]
               /\ md !! "username" = Some (Some g1)
               /\ md !! "source_ip" = Some (Some g2)
       | SUDO =>
           (i = 0 /\ Re.search sudo_1 body = Some m
            /\ dom md = ({["user"; "command"]} : gset string)
            /\ exists g1 g2 g3,
                m = [Some g1; Some g2; Some g3]
                /\ md !! "user" = Some (Some g1)
                /\ md !! "command" = Some (Some g3))
           \/ (i <> 0 /\ Re.search sudo_1 body = None
               /\ dom md = ({["user"]} : gset string)
               /\ exists g1 g2,
                   m = [Some g1; Some g2] /\ md !! "user" = Some (Some g1))
       | OOM_KILL => md = ∅
       | OTHER => False
       end
    /\ ("command" ∈ dom md <-> rule ev = SUDO /\ i = 0).
Proof.
  intros (ts & vm & src & body & rl & idx & m & sev
          & Hne & Hf & Hr & Hs & ->)%parse_log_line_Some.
  eexists _, ts, vm, src, body, idx, m. split; [reflexivity |].
  split; [exact Hf |]. split; [exact Hr |].
  apply first_rule_cases in Hr.
  destruct Hr
    as [(-> & g1 & g2 & g3 & g4 & g5 & ->)
       |[(-> & g1 & g2 & ->)
        |[(-> & [(-> & Hs1 & g1 & g2 & g3 & ->)|(Hi & Hs1 & g1 & g2 & ->)])
         |(-> & [(g1 & g2 & ->)|(g1 & ->)])]]];
    cbn [rule _extract_metadata length Nat.leb item nth];
    (split;
     [intros k v Hk Hv; subst v;
      repeat (rewrite lookup_insert_Some in Hk;
              destruct Hk as [[_ Hk]|[_ Hk]]; [discriminate Hk |]);
      now rewrite lookup_empty in Hk
     |]).
  - split.
    + split; [rewrite ?dom_insert_L, ?dom_empty_L; same_keys |].
      now exists g1, g2, g3, g4, g5.
    + rewrite ?dom_insert_L, ?dom_empty_L, ?elem_of_union,
        ?elem_of_singleton, elem_of_empty.
      split; [intuition discriminate | intros [? _]; discriminate].
  - split.
    + split; [rewrite ?dom_insert_L, ?dom_empty_L; same_keys |].
      now exists g1, g2.
    + rewrite ?dom_insert_L, ?dom_empty_L, ?elem_of_union,
        ?elem_of_singleton, elem_of_empty.
      split; [intuition discriminate | intros [? _]; discriminate].
  - split.
    + left. split; [reflexivity |]. split; [exact Hs1 |].
      split; [rewrite ?dom_insert_L, ?dom_empty_L; same_keys |].
      now exists g1, g2, g3.
    + rewrite ?dom_insert_L, ?dom_empty_L, ?elem_of_union,
        ?elem_of_singleton, elem_of_empty.
      split; [now intros _ | intros _; now left].
  - split.
    + right. split; [exact Hi |]. split; [exact Hs1 |].
      split; [rewrite ?dom_insert_L, ?dom_empty_L; same_keys |].
      now exists g1, g2.
    + rewrite ?dom_insert_L, ?dom_empty_L, ?elem_of_union,
        ?elem_of_singleton, elem_of_empty.
      split; [intuition discriminate | now intros [_ ?]].
  - split; [reflexivity |]. rewrite dom_empty_L, elem_of_empty.
    split; [tauto | intros [? _]; discriminate].
  - split; [reflexivity |]. rewrite dom_empty_L, elem_of_empty.
    split; [tauto | intros [? _]; discriminate].
Qed.

End MoreLineFacts.

(** ** More on counters *)

Module CounterMore.
Import Counter CounterFacts.

Lemma keys_incr (k : string) (t : Counter) :
  keys (incr k t) = add_key (keys t) k.
Proof.
  unfold add_key. destruct (in_dec string_dec k (keys t)).
  - now apply incr_keys_old.
  - now apply incr_keys_new.
Qed.

Lemma total_incr (k : string) (t : Counter) :
  counter_total (incr k t) = S (counter_total t).
Proof.
  unfold counter_total. induction t as [|[k' n] t IH]; simpl; [reflexivity |].
  destruct (String.eqb k' k); simpl; [reflexivity |]. rewrite IH. lia.
Qed.

Lemma total_touch (k : string) (t : Counter) :
  counter_total (touch k t) = counter_total t.
Proof.
  unfold counter_total. induction t as [|[k' n] t IH]; simpl; [reflexivity |].
  destruct (String.eqb k' k); simpl; [reflexivity |]. now rewrite IH.
Qed.

Lemma get_touch (k k' : string) (t : Counter) :
  get k' (touch k t) = get k' t.
Proof.
  induction t as [|[k0 n] t IH]; simpl.
  - now destruct (String.eqb k k').
  - destruct (String.eqb_spec k0 k) as [->|]; simpl; [reflexivity |].
    now rewrite IH.
Qed.

Lemma touch_keys_old (k : string) (t : Counter) :
  In k (keys t) -> keys (touch k t) = keys t.
Proof.
  induction t as [|[k' n] t IH]; simpl; [tauto |].
  destruct (String.eqb_spec k' k) as [->|Hne]; simpl; [reflexivity |].
  intros [|Hin]; [contradiction |]. f_equal. now apply IH.
Qed.

Lemma touch_keys_new (k : string) (t : Counter) :
  ~ In k (keys t) -> keys (touch k t) = keys t ++ [k].
Proof.
  induction t as [|[k' n] t IH]; simpl; [reflexivity |].
  destruct (String.eqb_spec k' k) as [->|Hne]; simpl; [tauto |].
  intros Hin. f_equal. apply IH. tauto.
Qed.

Lemma keys_touch (k : string) (t : Counter) :
  keys (touch k t) = add_key (keys t) k.
Proof.
  unfold add_key. destruct (in_dec string_dec k (keys t)).
  - now apply touch_keys_old.
  - now apply touch_keys_new.
Qed.

(** A well-formed counter is its keys with their counts. *)
Lemma wf_as_map (t : Counter) :
  wf t -> t = map (fun k => (k, get k t)) (keys t).
Proof.
  intros [Hnd _]. unfold keys. rewrite map_map.
  rewrite <- (map_id t) at 1. apply map_ext_in.
  intros [k n] Hin. simpl. now rewrite (In_get k n t Hnd Hin).
Qed.

End CounterMore.

(** ** Lists of keys *)

Module KeyFacts.

Lemma filter_filter {A : Type} (f g : A -> bool) (l : list A) :
  List.filter f (List.filter g l) = List.filter (fun x => g x && f x) l.
Proof.
  induction l as [|x l IH]; simpl; [reflexivity |].
  destruct (g x); simpl; [destruct (f x); now rewrite IH | exact IH].
Qed.

Lemma fold_add_key (l acc : list string) :
  fold_left add_key l acc = acc ++ List.filter (outside acc) (dedup_first l).
Proof.
  revert acc. induction l as [|x l IH]; intros acc; simpl.
  - now rewrite List.app_nil_r.
  - rewrite IH. unfold add_key, outside at 2.
    destruct (in_dec string_dec x acc) as [Hin|Hin].
    + f_equal. rewrite filter_filter. apply filter_ext_in. intros y _.
      unfold outside. destruct (in_dec string_dec y acc) as [Hy|Hy].
      * now rewrite andb_false_r.
      * destruct (String.eqb_spec y x) as [->|]; [contradiction | reflexivity].
    + rewrite <- List.app_assoc. simpl. do 2 f_equal.
      rewrite filter_filter. apply filter_ext_in. intros y _.
      unfold outside.
      destruct (in_dec string_dec y (acc ++ [x])) as [Hy|Hy];
        destruct (in_dec string_dec y acc) as [Hy'|Hy'];
        destruct (String.eqb_spec y x) as [->|Hne]; simpl; try reflexivity;
        exfalso; rewrite in_app_iff in Hy; simpl in Hy; intuition congruence.
Qed.

Lemma fold_add_key_nil (l : list string) :
  fold_left add_key l [] = dedup_first l.
Proof.
  rewrite fold_add_key. simpl.
  rewrite <- (filter_ext (fun _ => true)); [| reflexivity].
  induction (dedup_first l) as [|x d IH]; simpl; [reflexivity | now rewrite IH].
Qed.

Lemma dedup_first_In (x : string) (l : list string) :
  In x (dedup_first l) <-> In x l.
Proof.
  induction l as [|y l IH]; simpl; [tauto |].
  rewrite filter_In, IH.
  destruct (String.eqb_spec x y) as [->|Hne]; simpl.
  - split; [intros [|[? ?]]; auto; discriminate | auto].
  - split; [intros [|[? ?]]; auto | intros [|]; [auto | right; auto]].
Qed.

Lemma dedup_first_NoDup (l : list string) : NoDup (dedup_first l).
Proof.
  induction l as [|y l IH]; simpl; [constructor |].
  apply NoDup_cons. split.
  - rewrite list_elem_of_In, filter_In. intros [_ H].
    now rewrite String.eqb_refl in H.
  - now apply NoDup_ListNoDup, List.NoDup_filter, NoDup_ListNoDup.
Qed.

End KeyFacts.

(** ** More on the batch analysis *)

Module BatchFacts.
Import Counter CounterFacts CounterMore KeyFacts LineFacts AnalysisFacts StrFacts.

Lemma track_by_severity (event : SecurityEvent) (st : tallies) :
  by_severity (track event st) = bump (severity_key event) (by_severity st).
Proof. reflexivity. Qed.

Lemma track_by_rule (event : SecurityEvent) (st : tallies) :
  by_rule (track event st) = bump (rule_key event) (by_rule st).
Proof. reflexivity. Qed.

Lemma track_egress_files (event : SecurityEvent) (st : tallies) :
  egress_files (track event st)
  = egress_files st ++ option_list (egress_file event).
Proof.
  unfold track, egress_file. simpl.
  destruct (rule event); try (now rewrite List.app_nil_r).
  destruct (truthy _) as [f|]; [| now rewrite List.app_nil_r].
  destruct (String.eqb f "(null)"); [now rewrite List.app_nil_r | reflexivity].
Qed.

Lemma egress_files_tally (events : list SecurityEvent) :
  egress_files (tally events) = omap egress_file events.
Proof.
  unfold tally.
  enough (H : forall st,
             egress_files (fold_left (fun st event => track event st) events st)
             = egress_files st ++ omap egress_file events)
    by (now rewrite H).
  induction events as [|e events IH]; intros st; simpl.
  - now rewrite List.app_nil_r.
  - rewrite IH, track_egress_files, <- List.app_assoc. f_equal.
    now destruct (egress_file e).
Qed.

Section Fold.

Variable field : tallies -> Counter.
Variable key_of : SecurityEvent -> option string.
Hypothesis field_track :
  forall event st, field (track event st) = bump (key_of event) (field st).

Lemma fold_keys (events : list SecurityEvent) (st : tallies) :
  keys (field (fold_left (fun st event => track event st) events st))
  = fold_left add_key (omap key_of events) (keys (field st)).
Proof.
  revert st. induction events as [|e events IH]; intros st; simpl.
  - reflexivity.
  - rewrite IH, field_track. destruct (key_of e) as [k|]; simpl; [| reflexivity].
    now rewrite keys_incr.
Qed.

Lemma fold_total (events : list SecurityEvent) (st : tallies) :
  counter_total (field (fold_left (fun st event => track event st) events st))
  = counter_total (field st) + length (omap key_of events).
Proof.
  revert st. induction events as [|e events IH]; intros st; simpl.
  - lia.
  - rewrite IH, field_track. destruct (key_of e) as [k|]; simpl; [| reflexivity].
    rewrite total_incr, <- Nat.add_succ_comm. reflexivity.
Qed.

(** The counter after the loop: the keys in the order of their first
    occurrences, each with the number of its occurrences. *)
Lemma tally_counter (events : list SecurityEvent) :
  field no_tallies = [] ->
  field (tally events)
  = map (fun k => (k, occurrences key_of k events))
        (dedup_first (omap key_of events)).
Proof.
  intros H0. unfold tally.
  assert (Hwf : wf (field (fold_left (fun st event => track event st)
                                     events no_tallies))).
  { apply (fold_wf field key_of field_track). rewrite H0. apply wf_nil. }
  rewrite (wf_as_map _ Hwf) at 1.
  rewrite fold_keys, H0. simpl keys. rewrite fold_add_key_nil.
  apply map_ext. intros k.
  now rewrite (fold_get field key_of field_track), H0.
Qed.

End Fold.

Lemma ip_failures_tally (events : list SecurityEvent) :
  ip_failures (tally events)
  = map (fun ip => (ip, attempts ip events))
        (dedup_first (offending_ips events)).
Proof. now apply (tally_counter ip_failures attempt_ip track_ip_failures). Qed.

Lemma user_sudo_attempts_tally (events : list SecurityEvent) :
  user_sudo_attempts (tally events)
  = map (fun u => (u, occurrences sudo_user u events))
        (dedup_first (omap sudo_user events)).
Proof.
  now apply (tally_counter user_sudo_attempts sudo_user
                           track_user_sudo_attempts).
Qed.

Lemma threshold_lines (limit : nat) (line : string -> nat -> string)
      (count : string -> nat) (l : list string) :
  flat_map (fun '(k, n) => if limit <? n then [line k n] else [])
           (map (fun k => (k, count k)) l)
  = map (fun k => line k (count k))
        (List.filter (fun k => limit <? count k) l).
Proof.
  induction l as [|k l IH]; simpl; [reflexivity |].
  destruct (limit <? count k); simpl; now rewrite IH.
Qed.

Lemma sudo_line_inj (u u' : string) (n n' : nat) :
  sudo_line u n = sudo_line u' n' -> u = u' /\ n = n'.
Proof.
  unfold sudo_line. intros H.
  apply String.app_inj in H.
  change (u +:+ String ":" (" " +:+ dec n +:+ " attempts")
          = u' +:+ String ":" (" " +:+ dec n' +:+ " attempts")) in H.
  apply last_colon in H as [-> H].
  - split; [reflexivity |]. injection H as H.
    apply app_inv_tail in H. now apply dec_inj.
  - simpl. rewrite all_chars_app, dec_no_colon. reflexivity.
  - simpl. rewrite all_chars_app, dec_no_colon. reflexivity.
Qed.

Lemma sudo_line_not_exfiltration (u : string) (n k : nat) :
  sudo_line u n <> exfiltration_line k.
Proof. unfold sudo_line, exfiltration_line. simpl. discriminate. Qed.

Lemma exfiltration_line_inj (n n' : nat) :
  exfiltration_line n = exfiltration_line n' -> n = n'.
Proof.
  unfold exfiltration_line. intros H. apply String.app_inj in H.
  apply app_inv_tail in H. now apply dec_inj.
Qed.

Lemma occurrences_perm (f : SecurityEvent -> option string) (k : string)
      (events events' : list SecurityEvent) :
  Permutation events events' ->
  occurrences f k events = occurrences f k events'.
Proof.
  unfold occurrences. induction 1 as [|e l l' _ IH|e e' l|l l' l'' _ IH1 _ IH2];
    simpl.
  - reflexivity.
  - destruct (bool_decide _); simpl; now rewrite IH.
  - now destruct (bool_decide (f e = Some k)), (bool_decide (f e' = Some k)).
  - congruence.
Qed.

Lemma dedup_first_perm (l l' : list string) :
  Permutation l l' -> Permutation (dedup_first l) (dedup_first l').
Proof.
  intros H. apply NoDup_Permutation; try apply dedup_first_NoDup.
  intros x. rewrite !list_elem_of_In, !dedup_first_In.
  split; apply Permutation_in; [exact H | now symmetry].
Qed.

Lemma remove_dups_length_perm (l l' : list string) :
  Permutation l l' -> length (remove_dups l) = length (remove_dups l').
Proof.
  intros H. apply Permutation_length, NoDup_Permutation;
    try apply NoDup_remove_dups.
  intros x. rewrite !elem_of_remove_dups. now rewrite H.
Qed.

Lemma filter_perm {A : Type} (f : A -> bool) (l l' : list A) :
  Permutation l l' -> Permutation (List.filter f l) (List.filter f l').
Proof.
  induction 1 as [|x l l' _ IH|x y l|l l' l'' _ IH1 _ IH2]; simpl.
  - constructor.
  - destruct (f x); [now constructor | exact IH].
  - destruct (f x), (f y); try reflexivity. apply perm_swap.
  - now transitivity (List.filter f l').
Qed.

End BatchFacts.

(** ** More claims about a batch *)

Section MoreBatchClaims.
Import Counter CounterFacts CounterMore KeyFacts LineFacts AnalysisFacts
       BatchFacts StrFacts.

(** X5.  The threat list holds the sudo line of a user and a count exactly
    when the count is the number of sudo events of the batch whose metadata
    key [user] holds that text, and it is above 10: 10 such events give no
    line, 11 give one. *)
Theorem sudo_threat_threshold (events : list SecurityEvent) (user : string) :
  Counter.get user (user_sudo_attempts (tally events))
  = occurrences sudo_user user events
  /\ (forall n,
        In (sudo_line user n) (threats (analyze_events events))
        <-> occurrences sudo_user user events = n /\ 10 < n)
  /\ (occurrences sudo_user user events <= 10 ->
      forall n, ~ In (sudo_line user n) (threats (analyze_events events))).
Proof.
  assert (Hiff : forall n,
             In (sudo_line user n) (threats (analyze_events events))
             <-> occurrences sudo_user user events = n /\ 10 < n).
  { intros n. unfold analyze_events. simpl threats.
    unfold brute_force_threats, sudo_threats, exfiltration_threats.
    rewrite ip_failures_tally, user_sudo_attempts_tally, !threshold_lines.
    rewrite !in_app_iff, !in_map_iff. split.
    - intros [(ip & E & _)|[(u & E & Hin)|H]].
      + now apply brute_force_line_not_sudo in E.
      + apply sudo_line_inj in E as [-> E]. apply filter_In in Hin as [_ Hn].
        apply Nat.ltb_lt in Hn. split; [exact E | lia].
      + destruct (egress_files (tally events)); [destruct H |].
        destruct H as [H|[]]. symmetry in H.
        now apply sudo_line_not_exfiltration in H.
    - intros [<- Hn]. right. left. exists user. split; [reflexivity |].
      apply filter_In. split; [| now apply Nat.ltb_lt].
      apply dedup_first_In, occurrences_pos. lia. }
  split; [apply user_sudo_attempts_get |]. split; [exact Hiff |].
  intros Hle n [Hn Hlt]%Hiff. lia.
Qed.

(** X6.  The exfiltration line and the recommendation on file access come
    together: both are there exactly when some egress event of the batch
    has a [read_file] that is neither empty nor [(null)], and the line then
    gives the number of distinct such files.  A batch without an egress
    event has neither. *)
Theorem exfiltration_threat (events : list SecurityEvent) :
  (forall n,
      In (exfiltration_line n) (threats (analyze_events events))
      <-> omap egress_file events <> []
          /\ n = length (remove_dups (omap egress_file events)))
  /\ (In rec_dlp (recommendations (analyze_events events))
      <-> omap egress_file events <> [])
  /\ ((forall event, In event events -> rule event <> EGRESS) ->
      omap egress_file events = []).
Proof.
  split; [| split].
  - intros n. unfold analyze_events. simpl threats.
    unfold brute_force_threats, sudo_threats, exfiltration_threats.
    rewrite ip_failures_tally, user_sudo_attempts_tally, !threshold_lines.
    rewrite egress_files_tally, !in_app_iff, !in_map_iff. split.
    + intros [(ip & E & _)|[(u & E & _)|H]].
      * now apply brute_force_line_not_exfiltration in E.
      * now apply sudo_line_not_exfiltration in E.
      * destruct (omap egress_file events) as [|f fs] eqn:Ef; [destruct H |].
        destruct H as [H|[]]. apply exfiltration_line_inj in H.
        split; [discriminate | now symmetry].
    + intros [Hne ->]. right. right.
      destruct (omap egress_file events); [congruence | now left].
  - unfold analyze_events. simpl recommendations.
    rewrite egress_files_tally, !in_app_iff. split.
    + intros [H|[H|H]].
      * destruct (0 <? _); [destruct H as [H|[]]; discriminate | destruct H].
      * destruct (3 <? _); [destruct H as [H|[]]; discriminate | destruct H].
      * destruct (omap egress_file events); [destruct H | discriminate].
    + intros H. right. right.
      destruct (omap egress_file events); [congruence | now left].
  - intros H. induction events as [|e events IH]; [reflexivity |].
    simpl. replace (egress_file e) with (@None string).
    + apply IH. intros event Hin. apply H. now right.
    + unfold egress_file. specialize (H e (or_introl eq_refl)).
      now destruct (rule e).
Qed.

Lemma by_severity_get (events : list SecurityEvent) (s : SecuritySeverity) :
  Counter.get (severity_value s) (by_severity (tally events))
  = with_severity s events.
Proof.
  unfold tally.
  rewrite (fold_get by_severity severity_key track_by_severity). simpl.
  unfold occurrences, with_severity, severity_key. f_equal.
  apply filter_ext. intros e.
  apply bool_decide_ext. split.
  - intros [= H]. now destruct (severity e), s.
  - now intros ->.
Qed.

(** X7.  The batch is recommended for immediate investigation exactly when
    it holds an event of critical severity. *)
Theorem investigate_recommendation (events : list SecurityEvent) :
  In rec_investigate (recommendations (analyze_events events))
  <-> exists event, In event events /\ severity event = CRITICAL.
Proof.
  unfold analyze_events. simpl recommendations.
  rewrite get_touch.
  change "critical" with (severity_value CRITICAL). rewrite by_severity_get.
  rewrite !in_app_iff. unfold with_severity. split.
  - intros [H|[H|H]].
    + destruct (Nat.ltb_spec 0 (length (List.filter
                 (fun event => bool_decide (severity event = CRITICAL)) events)))
        as [Hlt|]; [| destruct H].
      destruct (List.filter _ events) as [|e l] eqn:E; [simpl in Hlt; lia |].
      assert (Hin : In e (List.filter
                (fun event => bool_decide (severity event = CRITICAL)) events))
        by (rewrite E; now left).
      apply filter_In in Hin as [Hin He]. exists e. split; [exact Hin |].
      now apply bool_decide_eq_true_1 in He.
    + destruct (3 <? _); [destruct H as [H|[]]; discriminate | destruct H].
    + destruct (egress_files _); [destruct H | destruct H as [H|[]]; discriminate].
  - intros (e & Hin & He). left.
    assert (Hf : In e (List.filter
               (fun event => bool_decide (severity event = CRITICAL)) events)).
    { apply filter_In. split; [exact Hin | now apply bool_decide_eq_true_2]. }
    destruct (List.filter _ events); [destruct Hf | now left].
Qed.

Lemma omap_total (f : SecurityEvent -> string) (events : list SecurityEvent) :
  length (omap (fun event => Some (f event)) events) = length events.
Proof. induction events; simpl; [reflexivity | now f_equal]. Qed.

(** X8.  The two breakdowns count every event of the batch once: the counts
    of each add up to the number of events, and the count under a severity,
    respectively a rule, is the number of events that have it.  The severity
    breakdown that is returned always has the key [critical], with the
    count 0 in a batch without a critical event. *)
Theorem breakdowns_partition (events : list SecurityEvent) :
  total_events (analyze_events events) = length events
  /\ counter_total (severity_breakdown (analyze_events events)) = length events
  /\ counter_total (rule_breakdown (analyze_events events)) = length events
  /\ (forall s,
        Counter.get (severity_value s)
                    (severity_breakdown (analyze_events events))
        = with_severity s events)
  /\ (forall r,
        Counter.get (rule_value r) (rule_breakdown (analyze_events events))
        = length (List.filter (fun event => bool_decide (rule event = r))
                              events))
  /\ In "critical" (Counter.keys (severity_breakdown (analyze_events events)))
  /\ (forall k, In k (Counter.keys (severity_breakdown (analyze_events events)))
                -> k = "critical"
                   \/ exists event, In event events
                                    /\ k = severity_value (severity event)).
Proof.
  unfold analyze_events. simpl.
  split; [reflexivity |]. split; [| split; [| split; [| split; [| split]]]].
  - rewrite total_touch. unfold tally.
    rewrite (fold_total by_severity severity_key track_by_severity). simpl.
    apply omap_total.
  - unfold tally.
    rewrite (fold_total by_rule rule_key track_by_rule). simpl.
    apply omap_total.
  - intros s. rewrite get_touch. apply by_severity_get.
  - intros r. unfold tally.
    rewrite (fold_get by_rule rule_key track_by_rule). simpl.
    unfold occurrences, rule_key. f_equal. apply filter_ext. intros e.
    apply bool_decide_ext. split.
    + intros [= H]. now destruct (rule e), r.
    + now intros ->.
  - rewrite keys_touch. unfold add_key.
    destruct (in_dec string_dec _ _) as [H|_]; [exact H |].
    apply in_app_iff. right. now left.
  - intros k. rewrite keys_touch. unfold add_key.
    assert (Hk : In k (Counter.keys (by_severity (tally events))) ->
                 exists event, In event events
                               /\ k = severity_value (severity event)).
    { intros Hin.
      apply (get_keys _ _ (fold_wf by_severity severity_key track_by_severity
                                   events no_tallies wf_nil)) in Hin.
      fold (tally events) in Hin.
      unfold tally in Hin.
      rewrite (fold_get by_severity severity_key track_by_severity) in Hin.
      simpl in Hin. apply occurrences_pos in Hin.
      apply list_elem_of_In, list_elem_of_omap in Hin as (e & He & [= <-]).
      exists e. split; [now apply list_elem_of_In | reflexivity]. }
    destruct (in_dec string_dec _ _) as [_|_].
    + intros H. right. now apply Hk.
    + intros [H|[<-|[]]]%in_app_iff; [right; now apply Hk | now left].
Qed.

(** X9.  The threat list in closed form.  First the brute-force lines, one
    for each address with more than 5 attempts, in the order in which the
    addresses first occur in the batch; then the sudo lines, one for each
    user key with more than 10 events, in the order of first occurrence;
    then the exfiltration line, if there is one. *)
Theorem threats_in_order (events : list SecurityEvent) :
  threats (analyze_events events)
  = map (fun ip => brute_force_line ip (attempts ip events))
        (List.filter (fun ip => 5 <? attempts ip events)
                     (dedup_first (offending_ips events)))
    ++ map (fun u => sudo_line u (occurrences sudo_user u events))
           (List.filter (fun u => 10 <? occurrences sudo_user u events)
                        (dedup_first (omap sudo_user events)))
    ++ match omap egress_file events with
       | [] => []
       | files => [exfiltration_line (length (remove_dups files))]
       end.
Proof.
  unfold analyze_events. simpl threats.
  unfold brute_force_threats, sudo_threats, exfiltration_threats.
  rewrite ip_failures_tally, user_sudo_attempts_tally, !threshold_lines.
  now rewrite egress_files_tally.
Qed.

(** X10.  The order of the events in a batch matters for the order of the
    threat lines only: two batches with the same events in another order
    get the same threat lines, possibly in another order, the same
    recommendations in the same order, and the same counts. *)
Theorem analysis_of_permuted_batch (events events' : list SecurityEvent) :
  Permutation events events' ->
  Permutation (threats (analyze_events events))
              (threats (analyze_events events'))
  /\ recommendations (analyze_events events)
     = recommendations (analyze_events events')
  /\ total_events (analyze_events events)
     = total_events (analyze_events events')
  /\ (forall k,
        Counter.get k (severity_breakdown (analyze_events events))
        = Counter.get k (severity_breakdown (analyze_events events')))
  /\ (forall k,
        Counter.get k (rule_breakdown (analyze_events events))
        = Counter.get k (rule_breakdown (analyze_events events'))).
Proof.
  intros Hp.
  assert (Hips : Permutation (offending_ips events) (offending_ips events'))
    by (unfold offending_ips; now rewrite Hp).
  assert (Hus : Permutation (omap sudo_user events) (omap sudo_user events'))
    by (now rewrite Hp).
  assert (Hfs : Permutation (omap egress_file events)
                            (omap egress_file events'))
    by (now rewrite Hp).
  assert (Hsev : forall k,
             Counter.get k (by_severity (tally events))
             = Counter.get k (by_severity (tally events'))).
  { intros k. unfold tally.
    rewrite !(fold_get by_severity severity_key track_by_severity).
    f_equal. now apply occurrences_perm. }
  split; [| split; [| split; [| split]]].
  - rewrite !threats_in_order.
    apply Permutation_app; [| apply Permutation_app].
    + rewrite (map_ext (fun ip => brute_force_line ip (attempts ip events))
                       (fun ip => brute_force_line ip (attempts ip events')))
        by (intros ip; unfold attempts; now rewrite (occurrences_perm _ _ _ _ Hp)).
      apply Permutation_map.
      rewrite (filter_ext (fun ip => 5 <? attempts ip events)
                          (fun ip => 5 <? attempts ip events'))
        by (intros ip; unfold attempts; now rewrite (occurrences_perm _ _ _ _ Hp)).
      now apply filter_perm, dedup_first_perm.
    + rewrite (map_ext (fun u => sudo_line u (occurrences sudo_user u events))
                       (fun u => sudo_line u (occurrences sudo_user u events')))
        by (intros u; now rewrite (occurrences_perm _ _ _ _ Hp)).
      apply Permutation_map.
      rewrite (filter_ext (fun u => 10 <? occurrences sudo_user u events)
                          (fun u => 10 <? occurrences sudo_user u events'))
        by (intros u; now rewrite (occurrences_perm _ _ _ _ Hp)).
      now apply filter_perm, dedup_first_perm.
    + pose proof (remove_dups_length_perm _ _ Hfs) as Hl.
      destruct (omap egress_file events) as [|f fs];
        destruct (omap egress_file events') as [|f' fs'].
      * reflexivity.
      * now apply Permutation_nil_cons in Hfs.
      * symmetry in Hfs. now apply Permutation_nil_cons in Hfs.
      * now rewrite Hl.
  - unfold analyze_events. simpl recommendations.
    rewrite !get_touch, Hsev, !ip_failures_length, !egress_files_tally.
    rewrite (remove_dups_length_perm _ _ Hips).
    f_equal. f_equal.
    destruct (omap egress_file events) as [|f fs];
      destruct (omap egress_file events') as [|f' fs']; try reflexivity.
    + now apply Permutation_nil_cons in Hfs.
    + symmetry in Hfs. now apply Permutation_nil_cons in Hfs.
  - simpl. now apply Permutation_length.
  - intros k. simpl. now rewrite !get_touch.
  - intros k. simpl. unfold tally.
    rewrite !(fold_get by_rule rule_key track_by_rule).
    f_equal. now apply occurrences_perm.
Qed.

End MoreBatchClaims.

(** ** Saving events and processing files *)

Module FileFacts.
Import Counter CounterFacts CounterMore.

Lemma accepted_app (respond : list statement -> statement -> option Z)
      (before a b : list statement) :
  accepted respond before (a ++ b)
  = accepted respond before a + accepted respond (before ++ a) b.
Proof.
  revert before. induction a as [|q a IH]; intros before; simpl.
  - now rewrite List.app_nil_r.
  - rewrite IH, <- List.app_assoc. simpl. lia.
Qed.

Lemma omap_nil_inserted (qs : list statement) :
  omap inserted_under qs = [] <-> omap inserted qs = [].
Proof.
  induction qs as [|q qs IH]; simpl; [tauto |].
  destruct q; simpl; [exact IH | exact IH |].
  split; discriminate.
Qed.

Section Saving.

Variable respond : list statement -> statement -> option Z.

Lemma save_event_no_pool (event : SecurityEvent) (p : SecurityProcessor) :
  db_pool p = false -> save_event respond event p = (false, p).
Proof. intros H. unfold save_event. now rewrite H. Qed.

(** What one call of [save_event] does when there is a pool. *)
Lemma save_event_pool (event : SecurityEvent) (p : SecurityProcessor) :
  db_pool p = true ->
  exists lookups vm_id cache,
    save_event respond event p
    = (accepts respond (sent p ++ lookups) (insertion vm_id event),
       mk_processor true cache
                    (sent p ++ lookups ++ [insertion vm_id event]))
    /\ omap inserted lookups = []
    /\ length lookups <= 2
    /\ (forall name, In name (omap looked_up lookups) ->
                     name = vm_name event /\ vm_cache p !! name = None)
    /\ (forall cached, vm_cache p !! vm_name event = Some cached ->
                       lookups = [] /\ vm_id = cached /\ cache = vm_cache p)
    /\ vm_cache p ⊆ cache
    /\ (forall name, is_Some (cache !! name) ->
                     is_Some (vm_cache p !! name) \/ name = vm_name event)
    /\ (cache !! vm_name event = Some vm_id \/ vm_id = 1%Z).
Proof.
  intros Hpool. unfold save_event, ensure_vm_exists, run, accepts.
  rewrite Hpool. cbn [negb].
  destruct (vm_cache p !! vm_name event) as [cached|] eqn:Hc.
  - exists [], cached, (vm_cache p). cbn [sent db_pool vm_cache app].
    rewrite ?List.app_nil_r, ?Hpool. unfold insertion.
    split; [now destruct (respond (sent p) _) |].
    repeat split; simpl in *; try lia; try tauto; try congruence; auto.
  - cbn [sent db_pool vm_cache].
    destruct (respond (sent p) (UpsertHost "default-host")) as [host_id|] eqn:Hh.
    + cbn [sent db_pool vm_cache].
      destruct (respond (sent p ++ [UpsertHost "default-host"])
                        (UpsertVM (vm_name event) host_id)) as [vm_id|] eqn:Hv.
      * exists [UpsertHost "default-host"; UpsertVM (vm_name event) host_id],
          vm_id, (<[vm_name event := vm_id]> (vm_cache p)).
        cbn [sent db_pool vm_cache]. rewrite <- ?List.app_assoc, ?Hpool.
        cbn [app]. unfold insertion.
        split; [now destruct (respond _ (InsertEvent _ _ _ _ _ _)) |].
        repeat split; simpl in *; try lia; try congruence.
        -- now destruct H as [<-|[]].
        -- now destruct H as [<-|[]].
        -- now apply insert_subseteq.
        -- intros name Hn. destruct (decide (name = vm_name event)) as [->|Hne];
             [now right |].
           rewrite lookup_insert_ne in Hn by congruence. now left.
        -- left. apply lookup_insert_eq.
      * exists [UpsertHost "default-host"; UpsertVM (vm_name event) host_id],
          1%Z, (vm_cache p).
        cbn [sent db_pool vm_cache]. rewrite <- ?List.app_assoc, ?Hpool.
        cbn [app]. unfold insertion.
        split; [now destruct (respond _ (InsertEvent _ _ _ _ _ _)) |].
        repeat split; simpl in *; try lia; try tauto; try congruence; auto.
        -- now destruct H as [<-|[]].
        -- now destruct H as [<-|[]].
    + exists [UpsertHost "default-host"], 1%Z, (vm_cache p).
      cbn [sent db_pool vm_cache]. rewrite <- ?List.app_assoc, ?Hpool.
      cbn [app]. unfold insertion.
      split; [now destruct (respond _ (InsertEvent _ _ _ _ _ _)) |].
      repeat split; simpl in *; try lia; try tauto; try congruence; auto.
Qed.

Lemma accepted_lookups (before qs : list statement) :
  omap inserted qs = [] -> accepted respond before qs = 0.
Proof.
  revert before. induction qs as [|q qs IH]; intros before; simpl;
    [reflexivity |].
  destruct (inserted q); [discriminate |]. intros H. now rewrite IH.
Qed.

Lemma accepted_insertion (before : list statement) (vm_id : Z)
      (event : SecurityEvent) :
  accepted respond before [insertion vm_id event]
  = if accepts respond before (insertion vm_id event) then 1 else 0.
Proof.
  unfold accepts. simpl. destruct (respond before _); reflexivity.
Qed.

Lemma save_events_no_pool (events : list SecurityEvent)
      (p : SecurityProcessor) :
  db_pool p = false -> save_events respond events p = (0, p).
Proof.
  intros H. induction events as [|e events IH]; simpl; [reflexivity |].
  now rewrite save_event_no_pool, IH.
Qed.

(** What saving the events of a list does when there is a pool. *)
Lemma save_events_pool (events : list SecurityEvent) (p : SecurityProcessor) :
  db_pool p = true ->
  exists new cache,
    save_events respond events p
    = (accepted respond (sent p) new,
       mk_processor true cache (sent p ++ new))
    /\ omap inserted new = map row_of events
    /\ length new <= 3 * length events
    /\ (forall name, In name (omap looked_up new) ->
                     vm_cache p !! name = None
                     /\ exists e, In e events /\ vm_name e = name)
    /\ ((forall e, In e events -> is_Some (vm_cache p !! vm_name e)) ->
        cache = vm_cache p
        /\ Forall2 (fun q e => exists vm_id,
                        vm_cache p !! vm_name e = Some vm_id
                        /\ q = insertion vm_id e) new events)
    /\ vm_cache p ⊆ cache
    /\ (forall name, is_Some (cache !! name) ->
                     is_Some (vm_cache p !! name)
                     \/ exists e, In e events /\ vm_name e = name)
    /\ Forall2 (fun vm_id e => cache !! vm_name e = Some vm_id \/ vm_id = 1%Z)
               (omap inserted_under new) events.
Proof.
  revert p. induction events as [|e events IH]; intros p Hpool.
  - exists [], (vm_cache p). simpl. rewrite List.app_nil_r.
    destruct p as [pool cache sent]. simpl in *. subst pool.
    repeat split; auto; try lia; try tauto; try constructor.
  - destruct (save_event_pool e p Hpool)
      as (lookups & vm_id & cache1 & Hsave & Hins & Hlen & Hlook & Hhit
          & Hsub & Hdom & Hid).
    set (p1 := mk_processor true cache1
                            (sent p ++ lookups ++ [insertion vm_id e])) in *.
    destruct (IH p1 eq_refl)
      as (new & cache & Hrest & Hins' & Hlen' & Hlook' & Hhit' & Hsub'
          & Hdom' & Hid').
    exists (lookups ++ [insertion vm_id e] ++ new), cache.
    split; [| split; [| split; [| split; [| split; [| split; [| split]]]]]].
    + simpl. rewrite Hsave, Hrest. subst p1. cbn [sent].
      rewrite accepted_app, (accepted_lookups _ lookups Hins).
      change (insertion vm_id e :: new) with ([insertion vm_id e] ++ new).
      rewrite accepted_app, accepted_insertion, <- !List.app_assoc.
      now destruct (accepts respond _ _).
    + rewrite !omap_app, Hins, Hins'. reflexivity.
    + rewrite !length_app. simpl. lia.
    + intros name. rewrite !omap_app. simpl.
      intros [Hin|Hin]%in_app_iff.
      * destruct (Hlook name Hin) as [-> Hc]. split; [exact Hc |].
        exists e. split; [now left | reflexivity].
      * destruct (Hlook' name Hin) as [Hc (e' & He' & Hn)].
        split; [| exists e'; split; [now right | exact Hn]].
        subst p1. cbn [vm_cache] in Hc.
        destruct (vm_cache p !! name) eqn:E; [| reflexivity].
        eapply lookup_weaken in E; [| exact Hsub]. congruence.
    + intros Hall.
      destruct (Hall e (or_introl eq_refl)) as [cached Hc].
      destruct (Hhit cached Hc) as (-> & -> & ->).
      destruct Hhit' as [-> HF].
      { intros e' He'. subst p1. cbn [vm_cache]. apply Hall. now right. }
      split; [reflexivity |]. simpl. constructor; [| exact HF].
      now exists cached.
    + subst p1. cbn [vm_cache] in Hsub'. now transitivity cache1.
    + intros name Hn. destruct (Hdom' name Hn) as [H|(e' & He' & Hn')].
      * subst p1. cbn [vm_cache] in H. destruct (Hdom name H) as [H'| ->].
        -- now left.
        -- right. exists e. split; [now left | reflexivity].
      * right. exists e'. split; [now right | exact Hn'].
    + rewrite !omap_app, (proj2 (omap_nil_inserted lookups) Hins).
      simpl. constructor; [| exact Hid'].
      destruct Hid as [Hid|Hid]; [left | now right].
      subst p1. cbn [vm_cache] in Hsub'.
      eapply lookup_weaken; [exact Hid | exact Hsub'].
Qed.

End Saving.

Section Reading.
Import Patterns.

Variable strptime : string -> option datetime.
Variable clock : string -> nat -> datetime.
Variable respond : list statement -> statement -> option Z.

Lemma parse_log_line_parsed (now : datetime) (line : string) :
  parse_log_line strptime now line = Return (parsed strptime now line).
Proof.
  unfold parsed, parse_log_line.
  destruct (String.eqb (Str.strip line) ""); [reflexivity |].
  destruct (Str.split " | " 3 (Str.strip line))
    as [|ts [|vm [|src [|body [|]]]]]; try reflexivity.
  destruct (first_rule patterns body) as [[[rule i] m]|] eqn:Hr;
    [| reflexivity].
  destruct (severity_defined _ _ _ _ Hr) as [sev ->]. reflexivity.
Qed.

Lemma events_of_length (n : nat) (ls : list string) (f : nat -> datetime) :
  length (events_of strptime f n ls) <= length ls.
Proof.
  revert n. induction ls as [|l ls IH]; intros n; simpl; [lia |].
  specialize (IH (S n)).
  destruct (parse_log_line strptime (f n) l) as [[e|]|]; simpl; lia.
Qed.

(** The loop of [process_log_file] parses every line and saves the events
    that it finds, in their order. *)
Lemma process_lines_spec (path : string) (n : nat) (ls : list string)
      (stats : FileStats) (p : SecurityProcessor) :
  process_lines strptime clock respond path n ls stats p
  = (mk_stats (file stats)
              (lines_processed stats + length ls)
              (events_found stats
               + length (events_of strptime (clock path) n ls))
              (events_saved stats
               + fst (save_events respond
                                  (events_of strptime (clock path) n ls) p))
              (fold_left count_severity
                         (events_of strptime (clock path) n ls)
                         (events_by_severity stats))
              (fold_left count_rule
                         (events_of strptime (clock path) n ls)
                         (events_by_rule stats))
              (error stats),
     snd (save_events respond (events_of strptime (clock path) n ls) p),
     None).
Proof.
  revert n stats p. induction ls as [|l ls IH]; intros n stats p.
  - simpl. destruct stats; simpl. now rewrite !Nat.add_0_r.
  - cbn [process_lines events_of]. rewrite parse_log_line_parsed.
    destruct (parsed strptime (clock path n) l) as [e|].
    + cbn [save_events].
      destruct (save_event respond e p) as [saved p'].
      rewrite IH. cbn [file lines_processed events_found events_saved
                            events_by_severity events_by_rule error].
      destruct (save_events respond _ p') as [k p2]. cbn [fst snd length].
      cbn [fold_left]. unfold count_severity at 2, count_rule at 2.
      f_equal. f_equal. f_equal; [lia | lia |].
      destruct saved; lia.
    + rewrite IH. cbn [file lines_processed events_found events_saved
                            events_by_severity events_by_rule error length].
      f_equal. f_equal. f_equal. lia.
Qed.

End Reading.

End FileFacts.

(** ** Claims about files *)

Section FileClaims.
Import Counter CounterFacts CounterMore AnalysisFacts BatchFacts FileFacts.

Variable strptime : string -> option datetime.
Variable clock : string -> nat -> datetime.
Variable fs : string -> option reading.
Variable respond : list statement -> statement -> option Z.

Lemma fold_count_severity (events : list SecurityEvent) (st : tallies) :
  by_severity (fold_left (fun st event => track event st) events st)
  = fold_left count_severity events (by_severity st).
Proof.
  revert st. induction events as [|e events IH]; intros st; simpl;
    [reflexivity | now rewrite IH].
Qed.

Lemma fold_count_rule (events : list SecurityEvent) (st : tallies) :
  by_rule (fold_left (fun st event => track event st) events st)
  = fold_left count_rule events (by_rule st).
Proof.
  revert st. induction events as [|e events IH]; intros st; simpl;
    [reflexivity | now rewrite IH].
Qed.

Lemma save_events_le (events : list SecurityEvent) (p : SecurityProcessor) :
  fst (save_events respond events p) <= length events.
Proof.
  revert p. induction events as [|e events IH]; intros p; simpl; [lia |].
  destruct (save_event respond e p) as [saved p1]. specialize (IH p1).
  destruct (save_events respond events p1) as [k p2]. simpl in *.
  destruct saved; lia.
Qed.

(** A file that exists: the report and the processor after it. *)
Lemma process_log_file_spec (path : string) (p : SecurityProcessor)
      (r : reading) :
  fs path = Some r ->
  process_log_file strptime clock fs respond path p
  = (Report (mk_stats path (length (lines r))
                      (length (events_of strptime (clock path) 1 (lines r)))
                      (fst (save_events
                              respond
                              (events_of strptime (clock path) 1 (lines r)) p))
                      (by_severity
                         (tally (events_of strptime (clock path) 1 (lines r))))
                      (by_rule
                         (tally (events_of strptime (clock path) 1 (lines r))))
                      (failure r)),
     snd (save_events respond
                      (events_of strptime (clock path) 1 (lines r)) p)).
Proof.
  intros Hr. unfold process_log_file. rewrite Hr, process_lines_spec.
  cbn [file lines_processed events_found events_saved events_by_severity
            events_by_rule error Nat.add].
  unfold tally. rewrite fold_count_severity, fold_count_rule.
  cbn [by_severity by_rule no_tallies].
  now destruct (failure r).
Qed.

(** X11.  The statistics of a file that exists do not depend on the
    database, but for the number of saved events: every line that is read
    is counted, the events found are those that the parser returns for the
    lines, each counted once under its severity and once under its rule,
    and the only error is the one of reading the file.  No more events are
    saved than found, and no more found than lines read. *)
Theorem process_log_file_counts (path : string) (p : SecurityProcessor)
        (r : reading) :
  fs path = Some r ->
  exists stats p',
    process_log_file strptime clock fs respond path p = (Report stats, p')
    /\ file stats = path
    /\ lines_processed stats = length (lines r)
    /\ events_found stats
       = length (events_of strptime (clock path) 1 (lines r))
    /\ events_saved stats <= events_found stats
    /\ events_found stats <= lines_processed stats
    /\ counter_total (events_by_severity stats) = events_found stats
    /\ counter_total (events_by_rule stats) = events_found stats
    /\ (forall s,
          Counter.get (severity_value s) (events_by_severity stats)
          = with_severity s (events_of strptime (clock path) 1 (lines r)))
    /\ error stats = failure r.
Proof.
  intros Hr. eexists _, _. split; [exact (process_log_file_spec _ _ _ Hr) |].
  cbn [file lines_processed events_found events_saved events_by_severity
            events_by_rule error].
  repeat split.
  - apply save_events_le.
  - apply events_of_length.
  - unfold tally.
    rewrite (fold_total by_severity severity_key track_by_severity). simpl.
    apply omap_total.
  - unfold tally.
    rewrite (fold_total by_rule rule_key track_by_rule). simpl.
    apply omap_total.
  - intros s. apply by_severity_get.
Qed.

(** X12.  The breakdowns in the statistics of a file are the ones that
    [analyze_events] computes for the events of the file, except that the
    severity breakdown of the analysis always has the key [critical]. *)
Theorem statistics_agree_with_analysis (path : string) (p : SecurityProcessor)
        (r : reading) (stats : FileStats) (p' : SecurityProcessor) :
  fs path = Some r ->
  process_log_file strptime clock fs respond path p = (Report stats, p') ->
  let analysis :=
    analyze_events (events_of strptime (clock path) 1 (lines r)) in
  events_found stats = total_events analysis
  /\ events_by_rule stats = rule_breakdown analysis
  /\ Counter.touch "critical" (events_by_severity stats)
     = severity_breakdown analysis
  /\ forall k, Counter.get k (events_by_severity stats)
               = Counter.get k (severity_breakdown analysis).
Proof.
  intros Hr. rewrite (process_log_file_spec _ _ _ Hr). intros [= <- <-].
  cbn [events_found events_by_rule events_by_severity].
  unfold analyze_events. cbn [total_events rule_breakdown severity_breakdown].
  repeat split. intros k. now rewrite get_touch.
Qed.

(** X13.  Without a connection pool nothing is saved and nothing changes:
    the report of a file has no saved event, no statement is sent and the
    processor is as before. *)
Theorem no_database_nothing_saved (path : string) (p : SecurityProcessor) :
  db_pool p = false ->
  saved_of (fst (process_log_file strptime clock fs respond path p)) = 0
  /\ snd (process_log_file strptime clock fs respond path p) = p.
Proof.
  intros Hp. destruct (fs path) as [r|] eqn:Hr.
  - rewrite (process_log_file_spec _ _ _ Hr).
    now rewrite save_events_no_pool.
  - unfold process_log_file. now rewrite Hr.
Qed.

(** X14.  With a pool, every event found in a file is sent to the database
    once, in the order of the file: the insertions among the statements
    sent are the rows of the events found.  The number of saved events is
    the number of insertions that the database accepts.  An event is
    inserted under the identifier that the cache has for its virtual
    machine afterwards, or under 1 when the lookup failed. *)
Theorem saved_events_are_rows (path : string) (p : SecurityProcessor)
        (r : reading) :
  db_pool p = true ->
  fs path = Some r ->
  exists stats p' new,
    process_log_file strptime clock fs respond path p = (Report stats, p')
    /\ db_pool p' = true
    /\ sent p' = sent p ++ new
    /\ omap inserted new
       = map row_of (events_of strptime (clock path) 1 (lines r))
    /\ events_saved stats = accepted respond (sent p) new
    /\ Forall2 (fun vm_id event =>
                  vm_cache p' !! vm_name event = Some vm_id \/ vm_id = 1%Z)
               (omap inserted_under new)
               (events_of strptime (clock path) 1 (lines r)).
Proof.
  intros Hp Hr.
  destruct (save_events_pool
              respond (events_of strptime (clock path) 1 (lines r)) p Hp)
    as (new & cache & Hs & Hrows & _ & _ & _ & _ & _ & Hid).
  eexists _, _, new. split; [exact (process_log_file_spec _ _ _ Hr) |].
  rewrite Hs. cbn [fst snd db_pool sent vm_cache events_saved].
  repeat split; assumption.
Qed.

(** X15.  The cache of identifiers.  A file costs at most three statements
    for each event found.  A virtual machine is looked up only when an
    event of the file has its name and the cache did not have it; the cache
    keeps what it had, and gets entries only for names of events.  When the
    cache has the names of all events, no lookup is made: the statements
    sent are the insertions of the events under the cached identifiers,
    and the cache is unchanged. *)
Theorem vm_lookups (path : string) (p : SecurityProcessor) (r : reading) :
  db_pool p = true ->
  fs path = Some r ->
  exists new,
    let events := events_of strptime (clock path) 1 (lines r) in
    let p' := snd (process_log_file strptime clock fs respond path p) in
    sent p' = sent p ++ new
    /\ length new <= 3 * length events
    /\ (forall name, In name (omap looked_up new) ->
                     vm_cache p !! name = None
                     /\ exists event, In event events /\ vm_name event = name)
    /\ vm_cache p ⊆ vm_cache p'
    /\ (forall name, is_Some (vm_cache p' !! name) ->
                     is_Some (vm_cache p !! name)
                     \/ exists event, In event events /\ vm_name event = name)
    /\ ((forall event, In event events ->
                       is_Some (vm_cache p !! vm_name event)) ->
        vm_cache p' = vm_cache p
        /\ Forall2 (fun q event => exists vm_id,
                        vm_cache p !! vm_name event = Some vm_id
                        /\ q = insertion vm_id event) new events).
Proof.
  intros Hp Hr.
  destruct (save_events_pool
              respond (events_of strptime (clock path) 1 (lines r)) p Hp)
    as (new & cache & Hs & _ & Hlen & Hlook & Hhit & Hsub & Hdom & _).
  exists new. cbn zeta. rewrite (process_log_file_spec _ _ _ Hr), Hs.
  cbn [fst snd db_pool sent vm_cache].
  repeat split; try assumption.
  - now apply Hlook.
  - now apply Hlook.
  - now apply Hhit.
  - now apply Hhit.
Qed.

Lemma process_one_spec (log_file : string) (all_stats : AllStats)
      (p : SecurityProcessor) :
  process_one strptime clock fs respond log_file (all_stats, p)
  = match fs log_file with
    | Some r =>
        (mk_all_stats
           (total_files all_stats)
           (S (files_processed all_stats))
           (all_events all_stats
            + found_of
                (fst (process_log_file strptime clock fs respond log_file p)))
           (total_saved all_stats
            + saved_of
                (fst (process_log_file strptime clock fs respond log_file p)))
           (file_stats all_stats
            ++ [fst (process_log_file strptime clock fs respond log_file p)]),
         snd (process_log_file strptime clock fs respond log_file p))
    | None => (all_stats, p)
    end.
Proof.
  unfold process_one. destruct (fs log_file); [| reflexivity].
  now destruct (process_log_file strptime clock fs respond log_file p).
Qed.

Lemma filter_exists_cons (f : string) (files : list string) :
  List.filter (exists_in fs) (f :: files)
  = match fs f with
    | Some _ => f :: List.filter (exists_in fs) files
    | None => List.filter (exists_in fs) files
    end.
Proof. simpl. unfold exists_in at 1. now destruct (fs f). Qed.

(** The loop of [process_all_logs], on any list of files. *)
Lemma process_files_spec (files : list string) (all_stats : AllStats)
      (p : SecurityProcessor) :
  let result := fold_left (fun st log_file =>
                             process_one strptime clock fs respond log_file st)
                          files (all_stats, p) in
  total_files (fst result) = total_files all_stats
  /\ exists reports,
      file_stats (fst result) = file_stats all_stats ++ reports
      /\ files_processed (fst result)
         = files_processed all_stats + length reports
      /\ all_events (fst result)
         = all_events all_stats + list_sum (map found_of reports)
      /\ total_saved (fst result)
         = total_saved all_stats + list_sum (map saved_of reports)
      /\ omap report_file reports = List.filter (exists_in fs) files
      /\ Forall (fun report => exists stats,
                     report = Report stats
                     /\ events_saved stats <= events_found stats) reports
      /\ (db_pool p = false ->
          snd result = p /\ Forall (fun report => saved_of report = 0) reports).
Proof.
  revert all_stats p. induction files as [|f files IH]; intros all_stats p.
  - cbn zeta. simpl. split; [reflexivity |]. exists []. simpl.
    rewrite List.app_nil_r, !Nat.add_0_r. repeat split; auto.
  - cbn zeta. cbn [fold_left]. rewrite process_one_spec, filter_exists_cons.
    destruct (fs f) as [r|] eqn:Hr.
    + rewrite (process_log_file_spec _ p _ Hr). cbn [fst snd].
      match goal with
      | |- context [fold_left _ files (?a, ?q)] =>
          specialize (IH a q); set (a1 := a) in *; set (p1 := q) in *
      end.
      cbn zeta in IH.
      destruct IH as (Ht & reports & Hfs & Hfp & Hev & Hsv & Hnames & Hrep
                      & Hno).
      split; [exact Ht |].
      eexists (_ :: reports). subst a1.
      cbn [file_stats files_processed all_events total_saved] in *.
      rewrite Hfs, Hfp, Hev, Hsv, <- List.app_assoc. cbn [app].
      split; [reflexivity |].
      cbn [length map list_sum fold_right found_of saved_of events_found events_saved
                  omap list_omap report_file file].
      fold (list_sum (map found_of reports)).
      fold (list_sum (map saved_of reports)).
      split; [lia |]. split; [lia |]. split; [lia |].
      split; [now rewrite Hnames |].
      split.
      * constructor; [| exact Hrep]. eexists. split; [reflexivity |].
        cbn [events_saved events_found]. apply save_events_le.
      * intros Hp. subst p1. rewrite save_events_no_pool in * by exact Hp.
        cbn [snd fst] in *. destruct (Hno Hp) as [Hq HF].
        split; [exact Hq |]. constructor; [reflexivity | exact HF].
    + apply IH.
Qed.

(** X16.  The totals of [process_all_logs].  Three files are looked for;
    the reports are those of the files that exist, in the order auth.log,
    kern.log, syslog, each with full statistics, so that the default of
    the two [get] calls is never used; the totals are the sums over the
    reports, no more events are saved than found, and without a pool
    nothing is saved. *)
Theorem process_all_logs_totals (log_dir : string) (p : SecurityProcessor) :
  let result := process_all_logs strptime clock fs respond log_dir p in
  total_files (fst result) = 3
  /\ files_processed (fst result) = length (file_stats (fst result))
  /\ files_processed (fst result) <= total_files (fst result)
  /\ omap report_file (file_stats (fst result))
     = List.filter (exists_in fs) (log_files log_dir)
  /\ Forall (fun report => exists stats, report = Report stats)
            (file_stats (fst result))
  /\ all_events (fst result)
     = list_sum (map found_of (file_stats (fst result)))
  /\ total_saved (fst result)
     = list_sum (map saved_of (file_stats (fst result)))
  /\ total_saved (fst result) <= all_events (fst result)
  /\ (db_pool p = false -> total_saved (fst result) = 0 /\ snd result = p).
Proof.
  cbn zeta. unfold process_all_logs.
  destruct (process_files_spec
              (log_files log_dir)
              (mk_all_stats (length (log_files log_dir)) 0 0 0 []) p)
    as (Ht & reports & Hfs & Hfp & Hev & Hsv & Hnames & Hrep & Hno).
  cbn zeta in *.
  cbn [total_files files_processed all_events total_saved file_stats app
                   Nat.add] in *.
  rewrite Ht, Hfs, Hfp, Hev, Hsv.
  assert (Hlen : length reports <= 3).
  { assert (H : length (omap report_file reports) = length reports).
    { clear - Hrep. induction Hrep as [|x l (stats & -> & _) _ IH];
        simpl; [reflexivity | f_equal; exact IH]. }
    rewrite <- H, Hnames.
    etransitivity; [apply List.filter_length_le | reflexivity]. }
  assert (Hle : list_sum (map saved_of reports)
                <= list_sum (map found_of reports)).
  { clear - Hrep. induction Hrep as [|x l (stats & -> & Hx) _ IH];
      simpl; lia. }
  repeat split; try assumption; try reflexivity.
  - eapply List.Forall_impl; [| exact Hrep]. intros x (stats & -> & _).
    now exists stats.
  - destruct (Hno H) as [_ HF]. clear - HF.
    induction HF as [|x l Hx _ IH]; simpl; lia.
  - now destruct (Hno H).
Qed.

End FileClaims.

(** ** The scanner *)

Module ScanFacts.
Import Str StrFacts StripFacts.

Lemma app_not_empty (a b : string) : b <> "" -> a +:+ b <> "".
Proof. destruct a; simpl; [tauto | discriminate]. Qed.

Lemma rstrip_app_fixed (a b : string) :
  b <> "" -> rstrip b = b -> rstrip (a +:+ b) = a +:+ b.
Proof.
  intros Hb Hr. induction a as [|c a IH]; [exact Hr |].
  change (String c a +:+ b) with (String c (a +:+ b)).
  cbn [rstrip]. rewrite IH.
  destruct (a +:+ b) eqn:E; [| reflexivity].
  now apply app_not_empty in E.
Qed.

Lemma lstrip_fixed (s : string) : strip s = s -> lstrip s = s.
Proof. intros H. apply lstrip_head. rewrite <- H. apply strip_head. Qed.

Lemma rstrip_strip (s : string) : rstrip (strip s) = strip s.
Proof. unfold strip. apply rstrip_idem. Qed.

(** A text that begins with a stripped word and ends with a stripped one
    is stripped. *)
Lemma strip_between (a mid b : string) :
  strip a = a -> a <> "" -> strip b = b -> b <> "" ->
  strip (a +:+ mid +:+ b) = a +:+ mid +:+ b.
Proof.
  intros Ha Hna Hb Hnb. unfold strip.
  rewrite lstrip_app.
  destruct (isblank a) eqn:Hbl.
  - apply strip_blank in Hbl. congruence.
  - rewrite (lstrip_fixed _ Ha), <- StrFacts.app_assoc.
    apply rstrip_app_fixed; [exact Hnb |].
    rewrite <- Hb. apply rstrip_strip.
Qed.

End ScanFacts.

Section FormatClaims.
Import Str StrFacts StripFacts ScanFacts Patterns.

Variable strptime : string -> option datetime.
Variable stamp : string -> nat -> string.
Variable respond : list statement -> statement -> option Z.

Lemma fields_format_line (ts vm src line : string) :
  no_bar ts = true -> no_bar vm = true -> no_bar src = true ->
  strip ts = ts -> ts <> "" -> strip line <> "" ->
  strip (format_line ts vm src (strip line))
  = format_line ts vm src (strip line)
  /\ fields (format_line ts vm src (strip line)) = [ts; vm; src; strip line].
Proof.
  intros Hts Hvm Hsrc Hs Hne Hl.
  assert (E : strip (format_line ts vm src (strip line))
              = format_line ts vm src (strip line)).
  { unfold format_line.
    replace (ts +:+ " | " +:+ vm +:+ " | " +:+ src +:+ " | " +:+ strip line)
      with (ts +:+ (" | " +:+ vm +:+ " | " +:+ src +:+ " | ") +:+ strip line)
      by (now rewrite !StrFacts.app_assoc).
    apply strip_between; auto using strip_idem. }
  split; [exact E |]. unfold fields. rewrite E. unfold format_line.
  now apply split_no_bar.
Qed.

(** The clock does not matter for a line whose first field is a time. *)
Lemma parse_log_line_clock (t t' : datetime) (line ts vm src body : string) :
  fields line = [ts; vm; src; body] -> strptime ts <> None ->
  parse_log_line strptime t line = parse_log_line strptime t' line.
Proof.
  intros Hf Ht. unfold parse_log_line. unfold fields in Hf. rewrite Hf.
  destruct (strptime ts); [reflexivity | now contradiction Ht].
Qed.

Section OneLog.

Variable vm log_source : string.
Hypothesis vm_no_bar : no_bar vm = true.
Hypothesis log_no_bar : no_bar log_source = true.
Hypothesis stamps :
  forall k, no_bar (stamp log_source k) = true
            /\ strip (stamp log_source k) = stamp log_source k
            /\ stamp log_source k <> "".

Lemma fields_stamped (k : nat) (raw : string) :
  strip raw <> "" ->
  strip (format_line (stamp log_source k) vm log_source (strip raw))
  = format_line (stamp log_source k) vm log_source (strip raw)
  /\ fields (format_line (stamp log_source k) vm log_source (strip raw))
     = [stamp log_source k; vm; log_source; strip raw].
Proof.
  intros Hr. destruct (stamps k) as (H1 & H2 & H3).
  now apply fields_format_line.
Qed.

(** The lines that [format_from] makes, with the raw lines they come
    from. *)
Lemma format_from_lines (k : nat) (ls : list string) :
  Forall (fun l =>
            exists j raw,
              nth_error ls j = Some raw /\ strip raw <> ""
              /\ l = format_line (stamp log_source (k + j)) vm log_source
                                 (strip raw))
         (format_from stamp vm log_source k ls).
Proof.
  revert k. induction ls as [|raw ls IH]; intros k; cbn [format_from];
    [constructor |].
  assert (Hrest : Forall (fun l =>
                            exists j raw0,
                              nth_error (raw :: ls) j = Some raw0
                              /\ strip raw0 <> ""
                              /\ l = format_line (stamp log_source (k + j))
                                                 vm log_source (strip raw0))
                         (format_from stamp vm log_source (S k) ls)).
  { eapply List.Forall_impl; [| apply (IH (S k))].
    intros l (j & raw0 & Hn & Hne & ->). exists (S j), raw0.
    repeat split; try assumption. now replace (k + S j) with (S k + j) by lia. }
  destruct (String.eqb_spec (strip raw) "") as [|Hne]; [exact Hrest |].
  constructor; [| exact Hrest].
  exists 0, raw. repeat split; try assumption.
  now replace (k + 0) with k by lia.
Qed.

Lemma format_from_bodies (k : nat) (ls : list string) :
  map (fun l => nth 3 (fields l) "") (format_from stamp vm log_source k ls)
  = List.filter (fun s => negb (String.eqb s "")) (map strip ls).
Proof.
  revert k. induction ls as [|raw ls IH]; intros k;
    cbn [format_from map List.filter]; [reflexivity |].
  destruct (String.eqb_spec (strip raw) "") as [|Hne]; cbn [negb];
    [apply IH |].
  cbn [map]. rewrite IH.
  destruct (fields_stamped k raw Hne) as [_ ->]. reflexivity.
Qed.

(** The local path does with a raw line what the other path does with
    the formatted one. *)
Lemma feed_local_feed (now now' : string -> nat -> datetime)
      (ls : list string) (k j : nat) (st : VMStats * SecurityProcessor) :
  (forall i, strptime (stamp log_source i) <> None) ->
  feed_local strptime stamp now respond vm log_source k ls st
  = feed strptime now' respond log_source j
         (format_from stamp vm log_source k ls) st.
Proof.
  intros Ht. revert k j st. induction ls as [|raw ls IH]; intros k j st;
    cbn [feed_local format_from]; [reflexivity |].
  destruct (String.eqb_spec (strip raw) "") as [|Hne]; cbn [negb];
    [apply IH |].
  cbn [feed]. destruct (fields_stamped k raw Hne) as [_ Hf].
  rewrite (parse_log_line_clock (now log_source k) (now' log_source j)
                                _ _ _ _ _ Hf (Ht k)).
  destruct (parse_log_line strptime (now' log_source j) _);
    [apply IH | reflexivity].
Qed.

End OneLog.

(** X17.  What the scanner hands to the parser, when the name of the
    virtual machine and of the log have no bar and the clock stamps have
    no bar, are not empty and have no white space at their ends.  Every
    line that [format_log_lines] returns comes from a raw line of the
    content that is not blank, and has the four fields stamp, name, log
    and stripped raw line; no such raw line is left out and their order is
    kept.  The parser yields an event for it exactly when the registry
    finds a pattern in the stripped raw line: the event has the rule of
    that pattern, the name of the virtual machine and of the log, the
    whole formatted line as message and the time of the stamp, whatever
    time the raw line states.  When the stamps parse as times, the loop
    over the lines of a local log does with them what the loop over the
    formatted lines does. *)
Theorem formatted_line_parses (now now' : string -> nat -> datetime)
        (vm log_source : string) :
  no_bar vm = true -> no_bar log_source = true ->
  (forall k, no_bar (stamp log_source k) = true
             /\ strip (stamp log_source k) = stamp log_source k
             /\ stamp log_source k <> "") ->
  (forall raw_content,
      Forall
        (fun l =>
           exists k raw,
             nth_error (split_all (String Char.newline "") raw_content) k
             = Some raw
             /\ strip raw <> ""
             /\ fields l = [stamp log_source k; vm; log_source; strip raw]
             /\ forall t,
                 (first_rule patterns (strip raw) = None ->
                  parse_log_line strptime t l = Return None)
                 /\ (forall rl i m,
                       first_rule patterns (strip raw) = Some (rl, i, m) ->
                       exists ev,
                         parse_log_line strptime t l = Return (Some ev)
                         /\ vm_name ev = vm
                         /\ source ev = log_source
                         /\ message ev = l
                         /\ timestamp ev
                            = default t (strptime (stamp log_source k))
                         /\ rule ev = rl
                         /\ metadata ev
                            = Some (_extract_metadata rl m (strip raw))))
        (format_log_lines stamp vm log_source raw_content)
      /\ map (fun l => nth 3 (fields l) "")
             (format_log_lines stamp vm log_source raw_content)
         = List.filter (fun s => negb (String.eqb s ""))
                       (map strip
                            (split_all (String Char.newline "") raw_content)))
  /\ ((forall k, strptime (stamp log_source k) <> None) ->
      forall ls k j st,
        feed_local strptime stamp now respond vm log_source k ls st
        = feed strptime now' respond log_source j
               (format_from stamp vm log_source k ls) st).
Proof.
  intros Hvm Hlog Hst. split.
  - intros raw_content. unfold format_log_lines.
    split; [| now apply format_from_bodies].
    eapply List.Forall_impl;
      [| apply (format_from_lines vm log_source 0)].
    intros l (k & raw & Hn & Hne & ->). cbn [Nat.add].
    destruct (fields_stamped vm log_source Hvm Hlog Hst k raw Hne)
      as [E Hf].
    exists k, raw. split; [exact Hn |]. split; [exact Hne |].
    split; [exact Hf |]. intros t. split.
    + intros Hr. exact (parse_log_line_unclassified strptime t _ _ _ _ _ Hf Hr).
    + intros rl i m Hr.
      destruct (parse_classified strptime t _ _ _ _ _ _ _ _ Hf Hr)
        as (sev & _ & Hp).
      eexists. split; [exact Hp |]. rewrite E. now cbn.
  - intros Ht ls k j st.
    now apply (feed_local_feed vm log_source Hvm Hlog Hst).
Qed.

End FormatClaims.

(** ** Claims about the scanner *)

Module VMFacts.
Import FileFacts.

Section Loops.

Variable strptime : string -> option datetime.
Variable stamp : string -> nat -> string.
Variable now : string -> nat -> datetime.
Variable respond : list statement -> statement -> option Z.

(** A property of the statistics and the processor that counting an event
    keeps. *)
Variable P : VMStats * SecurityProcessor -> Prop.
Hypothesis P_count : forall event st, P st -> P (count_event respond event st).

Lemma feed_keeps (log_source : string) (k : nat) (ls : list string)
      (st : VMStats * SecurityProcessor) :
  P st ->
  exists st', feed strptime now respond log_source k ls st = (st', None)
              /\ P st'.
Proof.
  revert k st. induction ls as [|l ls IH]; intros k st H; simpl.
  - now exists st.
  - rewrite parse_log_line_parsed. apply IH. now apply P_count.
Qed.

Lemma feed_local_keeps (vm_name log_file : string) (k : nat)
      (ls : list string) (st : VMStats * SecurityProcessor) :
  P st ->
  exists st',
    feed_local strptime stamp now respond vm_name log_file k ls st
    = (st', None)
    /\ P st'.
Proof.
  revert k st. induction ls as [|l ls IH]; intros k st H; simpl.
  - now exists st.
  - destruct (negb (String.eqb (Str.strip l) "")); [| now apply IH].
    rewrite parse_log_line_parsed. apply IH. now apply P_count.
Qed.

Lemma feed_collected_keeps (vm_name : string)
      (collected_logs : list (string * string))
      (st : VMStats * SecurityProcessor) :
  P st ->
  exists st',
    feed_collected strptime stamp now respond vm_name collected_logs st
    = (st', None)
    /\ P st'.
Proof.
  revert st. induction collected_logs as [|[src content] rest IH];
    intros st H; simpl.
  - now exists st.
  - destruct (negb (String.eqb content "")); [| now apply IH].
    destruct (feed_keeps src 0 (format_log_lines stamp vm_name src content)
                         st H) as (st1 & -> & H1).
    now apply IH.
Qed.

End Loops.

Section Invariants.

Variable respond : list statement -> statement -> option Z.

(** Counting an event changes only the two counts, and no more events are
    saved than found. *)
Lemma count_event_fields (event : option SecurityEvent)
      (st : VMStats * SecurityProcessor) :
  vm (fst (count_event respond event st)) = vm (fst st)
  /\ logs_found (fst (count_event respond event st)) = logs_found (fst st)
  /\ logs_collected_ssh (fst (count_event respond event st))
     = logs_collected_ssh (fst st)
  /\ errors (fst (count_event respond event st)) = errors (fst st)
  /\ (vm_saved (fst st) <= vm_found (fst st) ->
      vm_saved (fst (count_event respond event st))
      <= vm_found (fst (count_event respond event st)))
  /\ (db_pool (snd st) = false ->
      vm_saved (fst (count_event respond event st)) = vm_saved (fst st)
      /\ snd (count_event respond event st) = snd st).
Proof.
  destruct st as [stats p]. destruct event as [e|]; simpl; [| tauto].
  destruct (save_event respond e p) as [b p'] eqn:E. simpl.
  repeat split; try (destruct b; lia).
  - rewrite (save_event_no_pool respond e p H) in E. now injection E as <- <-.
  - rewrite (save_event_no_pool respond e p H) in E. now injection E as <- <-.
Qed.

End Invariants.

Section Machine.

Variable strptime : string -> option datetime.
Variable stamp : string -> nat -> string.
Variable now : string -> nat -> datetime.
Variable fs : string -> option reading.
Variable getsize : string -> nat.
Variable subprocess_run : list string -> run_result.
Variable respond : list statement -> statement -> option Z.
Variable base_path : string.

Lemma kept_count (vm_name : string) (local collected errs : list string)
      (event : option SecurityEvent) (st : VMStats * SecurityProcessor) :
  kept vm_name local collected errs st ->
  kept vm_name local collected errs (count_event respond event st).
Proof.
  intros (H1 & H2 & H3 & H4 & H5).
  destruct (count_event_fields respond event st)
    as (E1 & E2 & E3 & E4 & E5 & _).
  unfold kept. rewrite E1, E2, E3, E4. repeat split; auto.
Qed.

Lemma idle_count (p : SecurityProcessor) (event : option SecurityEvent)
      (st : VMStats * SecurityProcessor) :
  db_pool p = false -> idle p st -> idle p (count_event respond event st).
Proof.
  intros Hp [H1 H2].
  destruct (count_event_fields respond event st)
    as (_ & _ & _ & _ & _ & E).
  rewrite H2 in E. destruct (E Hp) as [E1 E2]. unfold idle.
  now rewrite E1, E2.
Qed.

Lemma found_logs (vm_name : string) :
  map fst (List.filter snd
                       (check_vm_logs_exist_locally fs getsize base_path
                                                    vm_name))
  = List.filter (is_local_log fs getsize (path_join base_path vm_name))
                log_names.
Proof.
  unfold check_vm_logs_exist_locally. induction log_names as [|l ls IH];
    simpl; [reflexivity |].
  unfold is_local_log at 1.
  destruct (fs (path_join (path_join base_path vm_name) l)); simpl;
    [destruct (0 <? _); simpl; now rewrite IH | exact IH].
Qed.

(** One local log that exists: only the errors can change. *)
Lemma process_local_kept (vm_name vm_path log_file : string)
      (local collected errs : list string)
      (st : VMStats * SecurityProcessor) :
  is_local_log fs getsize vm_path log_file = true ->
  kept vm_name local collected errs st ->
  kept vm_name local collected
       (errs ++ match read_error fs vm_path log_file with
                | Some msg => [msg]
                | None => []
                end)
       (process_local strptime stamp now fs respond vm_name vm_path st
                      log_file).
Proof.
  unfold is_local_log, read_error, process_local.
  destruct (fs (path_join vm_path log_file)) as [r|]; [| discriminate].
  intros _ H. destruct (failure r) as [msg|].
  - destruct H as (H1 & H2 & H3 & H4 & H5). unfold kept, add_error. simpl.
    now rewrite H4.
  - destruct (feed_local_keeps strptime stamp now respond _
                               (kept_count vm_name local collected errs)
                               vm_name log_file 0 (last_1000 (lines r)) st H)
      as (st' & -> & H').
    now rewrite List.app_nil_r.
Qed.

Lemma process_local_idle (p : SecurityProcessor)
      (vm_name vm_path log_file : string)
      (st : VMStats * SecurityProcessor) :
  db_pool p = false -> idle p st ->
  idle p (process_local strptime stamp now fs respond vm_name vm_path st
                        log_file).
Proof.
  intros Hp H. unfold process_local.
  destruct (fs (path_join vm_path log_file)) as [r|]; [| exact H].
  destruct (failure r) as [msg|]; [exact H |].
  destruct (feed_local_keeps strptime stamp now respond _
                             (fun event st => idle_count p event st Hp)
                             vm_name log_file 0 (last_1000 (lines r)) st H)
    as (st' & -> & H').
  exact H'.
Qed.

Lemma local_logs_kept (vm_name vm_path : string) (logs : list string)
      (local collected errs : list string)
      (st : VMStats * SecurityProcessor) :
  Forall (fun log_file => is_local_log fs getsize vm_path log_file = true)
         logs ->
  kept vm_name local collected errs st ->
  kept vm_name local collected
       (errs ++ omap (read_error fs vm_path) logs)
       (fold_left (process_local strptime stamp now fs respond vm_name
                                 vm_path) logs st).
Proof.
  intros HF. revert errs st.
  induction HF as [|l logs Hl _ IH]; intros errs st H; simpl.
  - now rewrite List.app_nil_r.
  - apply (process_local_kept vm_name vm_path l _ _ _ _ Hl) in H.
    apply IH in H. rewrite <- List.app_assoc in H.
    now destruct (read_error fs vm_path l).
Qed.

Lemma local_logs_idle (p : SecurityProcessor) (vm_name vm_path : string)
      (logs : list string) (st : VMStats * SecurityProcessor) :
  db_pool p = false -> idle p st ->
  idle p (fold_left (process_local strptime stamp now fs respond vm_name
                                   vm_path) logs st).
Proof.
  intros Hp. revert st. induction logs as [|l logs IH]; intros st H; simpl;
    [exact H |].
  apply IH. now apply process_local_idle.
Qed.

Lemma filter_Forall {A : Type} (f : A -> bool) (l : list A) :
  Forall (fun x => f x = true) (List.filter f l).
Proof.
  apply List.Forall_forall. intros x Hx. now apply filter_In in Hx.
Qed.

(** The statistics of one virtual machine. *)
Lemma process_vm_logs_kept (vm_name : string) (p : SecurityProcessor) :
  let local :=
    List.filter (is_local_log fs getsize (path_join base_path vm_name))
                log_names in
  kept vm_name local
       (match local with
        | [] => map fst (collect_logs_via_ssh subprocess_run base_path vm_name)
        | _ :: _ => []
        end)
       (omap (read_error fs (path_join base_path vm_name)) local)
       (process_vm_logs strptime stamp now fs getsize subprocess_run respond
                        base_path vm_name p).
Proof.
  cbn zeta. unfold process_vm_logs. cbn [logs_found vm vm_found vm_saved errors].
  rewrite found_logs.
  pose proof (filter_Forall
                (is_local_log fs getsize (path_join base_path vm_name))
                log_names) as HF.
  destruct (List.filter _ log_names) as [|l logs] eqn:E.
  - cbn [nonempty negb omap list_omap].
    destruct (feed_collected_keeps
                strptime stamp now respond _
                (kept_count vm_name []
                            (map fst (collect_logs_via_ssh subprocess_run
                                                           base_path vm_name))
                            [])
                vm_name
                (collect_logs_via_ssh subprocess_run base_path vm_name)
                (mk_vm_stats vm_name []
                             (map fst (collect_logs_via_ssh subprocess_run
                                                            base_path vm_name))
                             0 0 [], p))
      as (st' & -> & H'); [| exact H'].
    unfold kept. simpl. auto.
  - cbn [nonempty negb].
    apply (local_logs_kept vm_name _ (l :: logs) (l :: logs) [] [] _ HF).
    unfold kept. simpl. auto.
Qed.

Lemma process_vm_logs_idle (vm_name : string) (p : SecurityProcessor) :
  db_pool p = false ->
  idle p (process_vm_logs strptime stamp now fs getsize subprocess_run respond
                          base_path vm_name p).
Proof.
  intros Hp. unfold process_vm_logs. cbn [logs_found vm vm_found vm_saved errors].
  destruct (map fst (List.filter snd _)) as [|l logs].
  - cbn [nonempty negb].
    destruct (feed_collected_keeps
                strptime stamp now respond _
                (fun event st => idle_count p event st Hp)
                vm_name
                (collect_logs_via_ssh subprocess_run base_path vm_name)
                (mk_vm_stats vm_name []
                             (map fst (collect_logs_via_ssh subprocess_run
                                                            base_path vm_name))
                             0 0 [], p))
      as (st' & -> & H'); [| exact H'].
    now split.
  - cbn [nonempty negb]. apply local_logs_idle; [exact Hp | now split].
Qed.

End Machine.

End VMFacts.

Section ScannerClaims.
Import VMFacts.

Variable strptime : string -> option datetime.
Variable stamp : string -> nat -> string.
Variable now : string -> nat -> datetime.
Variable getsize : string -> nat.
Variable respond : list statement -> statement -> option Z.
Variable base_path : string.

Lemma read_error_not_warning (fs : string -> option reading)
      (vm_path vm_name : string) (logs : list string) :
  ~ In (no_logs_warning vm_name) (omap (read_error fs vm_path) logs).
Proof.
  intros H. apply list_elem_of_In, list_elem_of_omap in H as (l & _ & H).
  unfold read_error in H.
  destruct (fs (path_join vm_path l)) as [r|]; [| discriminate].
  destruct (failure r); discriminate.
Qed.

(** X18.  The errors of one virtual machine.  The local logs that count
    are those that exist and are not empty; the errors are the failures of
    reading these, one message for each in their order, and nothing else.
    So a machine without a local log has no error, whatever the collection
    over SSH did, and the message of the last branch, that no logs are
    available, is never issued.  No more events are saved than found. *)
Theorem process_vm_logs_errors (fs : string -> option reading)
        (subprocess_run : list string -> run_result)
        (vm_name : string) (p : SecurityProcessor) :
  let stats :=
    fst (process_vm_logs strptime stamp now fs getsize subprocess_run respond
                         base_path vm_name p) in
  vm stats = vm_name
  /\ logs_found stats
     = List.filter (is_local_log fs getsize (path_join base_path vm_name))
                   log_names
  /\ errors stats
     = omap (read_error fs (path_join base_path vm_name)) (logs_found stats)
  /\ (logs_found stats = [] -> errors stats = [])
  /\ ~ In (no_logs_warning vm_name) (errors stats)
  /\ vm_saved stats <= vm_found stats.
Proof.
  cbn zeta.
  destruct (process_vm_logs_kept strptime stamp now fs getsize subprocess_run
                                 respond base_path vm_name p)
    as (H1 & H2 & H3 & H4 & H5).
  rewrite H1, H2, H4. repeat split; auto.
  - now intros ->.
  - apply read_error_not_warning.
Qed.

(** X19.  Local logs take precedence.  When a local log of the machine
    exists and is not empty, nothing depends on what a command over SSH
    would give, and no log is reported as collected; otherwise the logs
    reported as collected are the keys of the collection. *)
Theorem local_logs_take_precedence (fs : string -> option reading)
        (subprocess_run subprocess_run' : list string -> run_result)
        (vm_name : string) (p : SecurityProcessor) :
  (List.filter (is_local_log fs getsize (path_join base_path vm_name))
               log_names <> [] ->
   process_vm_logs strptime stamp now fs getsize subprocess_run respond
                   base_path vm_name p
   = process_vm_logs strptime stamp now fs getsize subprocess_run' respond
                     base_path vm_name p
   /\ logs_collected_ssh
        (fst (process_vm_logs strptime stamp now fs getsize subprocess_run
                              respond base_path vm_name p)) = [])
  /\ (List.filter (is_local_log fs getsize (path_join base_path vm_name))
                  log_names = [] ->
      logs_collected_ssh
        (fst (process_vm_logs strptime stamp now fs getsize subprocess_run
                              respond base_path vm_name p))
      = map fst (collect_logs_via_ssh subprocess_run base_path vm_name)).
Proof.
  pose proof (process_vm_logs_kept strptime stamp now fs getsize
                                   subprocess_run respond base_path vm_name p)
    as (_ & _ & H3 & _).
  split.
  - intros Hne. split.
    + unfold process_vm_logs. cbn [logs_found]. rewrite found_logs.
      destruct (List.filter _ log_names); [congruence | reflexivity].
    + rewrite H3. now destruct (List.filter _ log_names).
  - intros E. rewrite H3, E. reflexivity.
Qed.

Lemma is_local_log_same (fs fs' : string -> option reading)
      (vm_path log_file : string) :
  same_tail fs fs' ->
  is_local_log fs getsize vm_path log_file
  = is_local_log fs' getsize vm_path log_file.
Proof.
  intros H. unfold is_local_log. specialize (H (path_join vm_path log_file)).
  destruct (fs _), (fs' _); tauto.
Qed.

Lemma process_local_same (fs fs' : string -> option reading)
      (vm_name vm_path log_file : string)
      (st : VMStats * SecurityProcessor) :
  same_tail fs fs' ->
  process_local strptime stamp now fs respond vm_name vm_path st log_file
  = process_local strptime stamp now fs' respond vm_name vm_path st log_file.
Proof.
  intros H. unfold process_local.
  specialize (H (path_join vm_path log_file)).
  destruct (fs _) as [r|], (fs' _) as [r'|]; try tauto.
  destruct H as [-> ->]. reflexivity.
Qed.

Lemma local_logs_same (fs fs' : string -> option reading)
      (vm_name vm_path : string) (logs : list string)
      (st : VMStats * SecurityProcessor) :
  same_tail fs fs' ->
  fold_left (process_local strptime stamp now fs respond vm_name vm_path)
            logs st
  = fold_left (process_local strptime stamp now fs' respond vm_name vm_path)
              logs st.
Proof.
  intros H. revert st. induction logs as [|x logs IH]; intros st; simpl;
    [reflexivity |].
  now rewrite (process_local_same fs fs' _ _ _ _ H), IH.
Qed.

(** X20.  Of a local log only the last 1000 lines count: two file systems
    with the same files, the same failures of reading and the same last
    1000 lines of every file give the same statistics and send the same
    statements. *)
Theorem only_last_1000_lines (fs fs' : string -> option reading)
        (subprocess_run : list string -> run_result)
        (vm_name : string) (p : SecurityProcessor) :
  same_tail fs fs' ->
  process_vm_logs strptime stamp now fs getsize subprocess_run respond
                  base_path vm_name p
  = process_vm_logs strptime stamp now fs' getsize subprocess_run respond
                    base_path vm_name p.
Proof.
  intros H. unfold process_vm_logs. cbn [logs_found].
  rewrite !found_logs.
  rewrite (filter_ext _ _ (fun l => is_local_log_same fs fs' _ l H)).
  destruct (List.filter _ log_names) as [|l logs]; [reflexivity |].
  cbn [nonempty negb]. now apply local_logs_same.
Qed.

End ScannerClaims.

(** ** Discovery and the scan of all machines *)

Module SortFacts.

Lemma insert_sorted_perm (x : string) (l : list string) :
  Permutation (insert_sorted x l) (x :: l).
Proof.
  induction l as [|y l IH]; simpl; [reflexivity |].
  destruct (String.leb x y); [reflexivity |].
  rewrite IH. apply perm_swap.
Qed.

Lemma sorted_perm (l : list string) : Permutation (sorted l) l.
Proof.
  induction l as [|x l IH]; simpl; [reflexivity |].
  now rewrite insert_sorted_perm, IH.
Qed.

Lemma sorted_In (x : string) (l : list string) : In x (sorted l) <-> In x l.
Proof.
  split; intros H; apply list_elem_of_In; apply list_elem_of_In in H;
    [now rewrite <- (sorted_perm l) | now rewrite (sorted_perm l)].
Qed.

Lemma ascending_cons (x y : string) (l : list string) :
  ascending (x :: y :: l) = String.leb x y && ascending (y :: l).
Proof. reflexivity. Qed.

Lemma ascending_insert (x : string) (l : list string) :
  ascending l = true -> ascending (insert_sorted x l) = true.
Proof.
  induction l as [|y l IH]; [reflexivity |].
  intros H. cbn [insert_sorted].
  destruct (String.leb x y) eqn:E.
  - rewrite ascending_cons, E. exact H.
  - assert (Hyx : String.leb y x = true)
      by (destruct (String.leb_total x y); congruence).
    destruct l as [|z l].
    + cbn [insert_sorted]. rewrite ascending_cons, Hyx. reflexivity.
    + rewrite ascending_cons in H. apply andb_prop in H as [Hyz Hl].
      specialize (IH Hl). cbn [insert_sorted] in *.
      destruct (String.leb x z).
      * rewrite ascending_cons, Hyx. exact IH.
      * rewrite ascending_cons, Hyz. exact IH.
Qed.

Lemma sorted_ascending (l : list string) : ascending (sorted l) = true.
Proof.
  induction l as [|x l IH]; [reflexivity |].
  simpl. now apply ascending_insert.
Qed.

Lemma is_vm_directory_shape (item : string) :
  is_vm_directory item = true ->
  exists rest,
    item = String "u" rest
    /\ (isdigit rest = true \/ Str.contains "-vm" item = true).
Proof.
  unfold is_vm_directory. intros [Hp Hr]%andb_prop.
  destruct item as [|c rest]; [discriminate |].
  rewrite StrFacts.prefix_cons in Hp.
  destruct (ascii_dec "u" c) as [<-|]; [| discriminate].
  exists rest. split; [reflexivity |].
  apply orb_prop in Hr. exact Hr.
Qed.

End SortFacts.

Section DiscoveryClaims.
Import SortFacts StripFacts.

Variable fs : string -> option reading.
Variable listdir : string -> option (list string).
Variable isdir : string -> bool.
Variable subprocess_run : list string -> run_result.
Variable base_path : string.

Lemma remote_directories_In (stdout item : string) :
  In item (remote_directories stdout) ->
  is_vm_directory item = true /\ Str.strip item = item /\ item <> "".
Proof.
  unfold remote_directories. rewrite sorted_In, filter_In, in_map_iff.
  intros [(raw & <- & _) [Hne Hvm]%andb_prop].
  split; [exact Hvm |]. split; [apply strip_idem |].
  intros E. rewrite E in Hne. discriminate.
Qed.

#[local] Ltac empty_listing :=
  split; [reflexivity |];
  split; [intros ? [] |];
  split; [intros; congruence |];
  split; [intros; reflexivity |];
  intros _ ? [].

(** X21.  The directories that are discovered, locally or on the remote
    host, are in ascending order and have names that begin with the letter
    u, followed by digits only or with [-vm] somewhere in the name.  From a
    local listing they are the directories that pass this test, each as
    often as it is listed; if the local listing fails there is none.  From
    the remote listing the names come without white space around them. *)
Theorem discovered_directories :
  let dirs :=
    discover_vm_directories fs listdir isdir subprocess_run base_path in
  ascending dirs = true
  /\ (forall item, In item dirs ->
        exists rest,
          item = String "u" rest
          /\ (isdigit rest = true \/ Str.contains "-vm" item = true))
  /\ (forall items,
        fs base_path <> None -> listdir base_path = Some items ->
        Permutation dirs
                    (List.filter
                       (fun item => isdir (path_join base_path item)
                                    && is_vm_directory item) items))
  /\ (fs base_path <> None -> listdir base_path = None -> dirs = [])
  /\ (fs base_path = None ->
      forall item, In item dirs -> Str.strip item = item /\ item <> "").
Proof.
  cbn zeta. unfold discover_vm_directories, discover_remote_vm_directories.
  destruct (fs base_path) as [r|].
  - destruct (listdir base_path) as [items|].
    + split; [apply sorted_ascending |]. split; [| split; [| split]].
      * intros item [_ [_ H]%andb_prop]%sorted_In%filter_In.
        now apply is_vm_directory_shape.
      * intros items' _ [= <-]. apply sorted_perm.
      * discriminate.
      * discriminate.
    + empty_listing.
  - assert (Hnil : sorted [] = []) by reflexivity.
    destruct (subprocess_run _) as [| |code out err].
    + empty_listing.
    + empty_listing.
    + destruct ((code =? 0)%Z && _).
      * split; [apply sorted_ascending |]. split; [| split; [| split]].
        -- intros item H%remote_directories_In.
           now apply is_vm_directory_shape.
        -- congruence.
        -- congruence.
        -- intros _ item H%remote_directories_In. tauto.
      * empty_listing.
Qed.

End DiscoveryClaims.

Section ScanClaims.
Import VMFacts.

Variable strptime : string -> option datetime.
Variable stamp : string -> nat -> string.
Variable now : string -> nat -> datetime.
Variable fs : string -> option reading.
Variable getsize : string -> nat.
Variable listdir : string -> option (list string).
Variable isdir : string -> bool.
Variable subprocess_run : list string -> run_result.
Variable respond : list statement -> statement -> option Z.
Variable base_path : string.

Lemma scan_one_spec (overall_stats : ScanStats) (p : SecurityProcessor)
      (vm_name : string) :
  scan_one strptime stamp now fs getsize subprocess_run respond base_path
           (overall_stats, p) vm_name
  = (mk_scan_stats
       (total_vms overall_stats)
       (S (vms_processed overall_stats))
       (total_events_found overall_stats
        + vm_found (fst (process_vm_logs strptime stamp now fs getsize
                                      subprocess_run respond base_path
                                      vm_name p)))
       (total_events_saved overall_stats
        + vm_saved (fst (process_vm_logs strptime stamp now fs getsize
                                      subprocess_run respond base_path
                                      vm_name p)))
       (vm_results overall_stats
        ++ [fst (process_vm_logs strptime stamp now fs getsize
                                 subprocess_run respond base_path
                                 vm_name p)]),
     snd (process_vm_logs strptime stamp now fs getsize subprocess_run
                          respond base_path vm_name p)).
Proof.
  unfold scan_one.
  now destruct (process_vm_logs strptime stamp now fs getsize subprocess_run
                                respond base_path vm_name p).
Qed.

(** The loop of [scan_all_vms], on any list of names. *)
Lemma scan_spec (dirs : list string) (overall_stats : ScanStats)
      (p : SecurityProcessor) :
  let result :=
    fold_left (scan_one strptime stamp now fs getsize subprocess_run respond
                        base_path)
              dirs (overall_stats, p) in
  total_vms (fst result) = total_vms overall_stats
  /\ exists results,
      vm_results (fst result) = vm_results overall_stats ++ results
      /\ vms_processed (fst result)
         = vms_processed overall_stats + length results
      /\ map vm results = dirs
      /\ total_events_found (fst result)
         = total_events_found overall_stats + list_sum (map vm_found results)
      /\ total_events_saved (fst result)
         = total_events_saved overall_stats + list_sum (map vm_saved results)
      /\ Forall (fun stats => vm_saved stats <= vm_found stats) results
      /\ (db_pool p = false ->
          snd result = p /\ Forall (fun stats => vm_saved stats = 0) results).
Proof.
  revert overall_stats p.
  induction dirs as [|d dirs IH]; intros overall_stats p.
  - cbn zeta. simpl. split; [reflexivity |]. exists []. simpl.
    rewrite List.app_nil_r, !Nat.add_0_r. repeat split; auto.
  - cbn zeta. cbn [fold_left]. rewrite scan_one_spec.
    pose proof (process_vm_logs_kept strptime stamp now fs getsize
                                     subprocess_run respond base_path d p)
      as (Hvm & _ & _ & _ & Hle).
    pose proof (process_vm_logs_idle strptime stamp now fs getsize
                                     subprocess_run respond base_path d p)
      as Hidle.
    destruct (process_vm_logs strptime stamp now fs getsize subprocess_run
                              respond base_path d p) as [stats p1].
    cbn [fst snd] in *.
    match goal with
    | |- context [fold_left _ dirs (?a, p1)] =>
        specialize (IH a p1); set (a1 := a) in *
    end.
    cbn zeta in IH.
    destruct IH as (Ht & results & Hr & Hp & Hn & Hf & Hs & Hall & Hno).
    split; [exact Ht |]. exists (stats :: results). subst a1.
    cbn [vm_results vms_processed total_events_found total_events_saved
                    total_vms] in *.
    rewrite Hr, Hp, Hf, Hs, <- List.app_assoc. cbn [app].
    split; [reflexivity |].
    cbn [length map]. rewrite Hvm, Hn.
    change (list_sum (vm_found stats :: map vm_found results))
      with (vm_found stats + list_sum (map vm_found results)).
    change (list_sum (vm_saved stats :: map vm_saved results))
      with (vm_saved stats + list_sum (map vm_saved results)).
    split; [lia |]. split; [reflexivity |]. split; [lia |]. split; [lia |].
    split; [constructor; assumption |].
    intros Hpool. destruct (Hidle Hpool) as [H0 H1].
    cbn [fst snd] in H0, H1. subst p1.
    destruct (Hno Hpool) as [Hq HF]. split; [exact Hq |].
    constructor; assumption.
Qed.

(** X22.  The totals of a scan.  Every discovered machine is processed
    once, in the order of the discovery; the totals are the sums over the
    results, no more events are saved than found, and without a pool
    nothing is saved and the processor is as before. *)
Theorem scan_all_vms_totals (p : SecurityProcessor) :
  let result :=
    scan_all_vms strptime stamp now fs getsize listdir isdir subprocess_run
                 respond base_path p in
  let dirs :=
    discover_vm_directories fs listdir isdir subprocess_run base_path in
  total_vms (fst result) = length dirs
  /\ vms_processed (fst result) = total_vms (fst result)
  /\ map vm (vm_results (fst result)) = dirs
  /\ total_events_found (fst result)
     = list_sum (map vm_found (vm_results (fst result)))
  /\ total_events_saved (fst result)
     = list_sum (map vm_saved (vm_results (fst result)))
  /\ total_events_saved (fst result) <= total_events_found (fst result)
  /\ (db_pool p = false ->
      total_events_saved (fst result) = 0 /\ snd result = p).
Proof.
  cbn zeta. unfold scan_all_vms.
  destruct (scan_spec
              (discover_vm_directories fs listdir isdir subprocess_run
                                       base_path)
              (mk_scan_stats
                 (length (discover_vm_directories fs listdir isdir
                                                  subprocess_run base_path))
                 0 0 0 []) p)
    as (Ht & results & Hr & Hp & Hn & Hf & Hs & Hall & Hno).
  cbn zeta in *.
  cbn [vm_results vms_processed total_events_found total_events_saved
                  total_vms app Nat.add] in *.
  rewrite Ht, Hr, Hp, Hf, Hs.
  assert (Hle : list_sum (map vm_saved results) <= list_sum (map vm_found results)).
  { clear - Hall. induction Hall as [|x l Hx _ IH]; simpl; lia. }
  repeat split; try assumption; try reflexivity.
  - rewrite <- Hn. now rewrite length_map.
  - destruct (Hno H) as [_ HF]. clear - HF.
    induction HF as [|x l Hx _ IH]; simpl; lia.
  - now destruct (Hno H).
Qed.

End ScanClaims.

(** ** The listing of events of the API *)

Module ApiFacts.
Import Str StrFacts LineFacts Api.

Lemma dec_decimal (n : nat) : all_chars Char.isdecimal (dec n) = true.
Proof.
  unfold dec. induction (Nat.to_uint n) as [|d IH|d IH|d IH|d IH|d IH|d IH
                                            |d IH|d IH|d IH|d IH];
    cbn [NilEmpty.string_of_uint all_chars]; try reflexivity;
    rewrite IH; reflexivity.
Qed.

Lemma digits_prefix_app (a b : string) :
  no_digit_first b = true -> digits_prefix (a +:+ b) = digits_prefix a.
Proof.
  intros Hb. induction a as [|c a IH]; simpl.
  - destruct b as [|c b]; [reflexivity |]. simpl in *.
    now destruct (Char.isdecimal c).
  - now rewrite IH.
Qed.

Lemma digits_prefix_all (s : string) :
  all_chars Char.isdecimal s = true -> digits_prefix s = s.
Proof.
  induction s as [|c s IH]; simpl; [reflexivity |].
  intros [-> Hs]%andb_prop. now rewrite IH.
Qed.

Lemma placeholders_app (a b : string) :
  no_digit_first b = true ->
  placeholders (a +:+ b) = placeholders a ++ placeholders b.
Proof.
  intros Hb. induction a as [|c a IH]; simpl; [reflexivity |].
  rewrite IH. destruct (Ascii.eqb c "$"); [| reflexivity].
  now rewrite digits_prefix_app.
Qed.

Lemma placeholders_digits (s : string) :
  all_chars Char.isdecimal s = true -> placeholders s = [].
Proof.
  induction s as [|c s IH]; simpl; [reflexivity |].
  intros [Hc Hs]%andb_prop.
  destruct (Ascii.eqb_spec c "$") as [->|_]; [discriminate | now apply IH].
Qed.

(** A placeholder at the end of a text without one. *)
Lemma placeholders_numbered (text : string) (n : nat) :
  placeholders text = [] ->
  placeholders (text +:+ "$" +:+ dec n) = [dec n].
Proof.
  intros Ht. rewrite placeholders_app by reflexivity. rewrite Ht.
  cbn [app]. change ("$" +:+ dec n) with (String "$" (dec n)).
  cbn [placeholders]. rewrite Ascii.eqb_refl.
  rewrite (digits_prefix_all _ (dec_decimal n)).
  now rewrite (placeholders_digits _ (dec_decimal n)).
Qed.

Lemma join_snoc (sep : string) (l : list string) (x : string) :
  join sep (l ++ [x])
  = match l with
    | [] => x
    | _ :: _ => join sep l +:+ sep +:+ x
    end.
Proof.
  induction l as [|y l IH]; [reflexivity |].
  destruct l as [|z l]; [reflexivity |].
  change ((y :: z :: l) ++ [x]) with (y :: z :: (l ++ [x])).
  rewrite (join_cons sep y (z :: l ++ [x])) by discriminate.
  rewrite (join_cons sep y (z :: l)) by discriminate.
  change (z :: l ++ [x]) with ((z :: l) ++ [x]).
  rewrite IH. now rewrite !StrFacts.app_assoc.
Qed.

Lemma placeholders_join_snoc (l : list string) (x : string) :
  placeholders (join " AND " (l ++ [x]))
  = placeholders (join " AND " l) ++ placeholders x.
Proof.
  rewrite join_snoc. destruct l as [|y l]; [reflexivity |].
  rewrite placeholders_app by reflexivity.
  reflexivity.
Qed.

Lemma numbered_add (condition : string) (value : sql_value) (st : builder) :
  placeholders condition = [] -> numbered st ->
  numbered (add_condition condition value st).
Proof.
  destruct st as [[conds params] n]. intros Hc [Hl Hp]. unfold numbered.
  cbn [add_condition]. split.
  - rewrite List.length_app. simpl. lia.
  - rewrite placeholders_join_snoc, Hp, (placeholders_numbered _ _ Hc).
    now rewrite seq_S, map_app.
Qed.

Lemma numbered_plain (text : string) (conds : list string)
      (params : list sql_value) (n : nat) :
  placeholders text = [] -> numbered (conds, params, n) ->
  numbered (conds ++ [text], params, n).
Proof.
  intros Ht [Hl Hp]. split; [exact Hl |].
  now rewrite placeholders_join_snoc, Hp, Ht, List.app_nil_r.
Qed.

Section Builder.

Variable fromisoformat : string -> option datetime.

Lemma numbered_time (condition : string) (value : option string)
      (st st' : builder) :
  placeholders condition = [] -> numbered st ->
  add_time fromisoformat condition value st = Some st' -> numbered st'.
Proof.
  intros Hc H. unfold add_time.
  destruct (truthy value) as [s|]; [| now intros [= <-]].
  destruct (fromisoformat _) as [t|]; [| discriminate].
  intros [= <-]. now apply numbered_add.
Qed.

Lemma where_builder_numbered (vmId : option Z)
      (severity rule since until : option string)
      (acknowledged : option bool) (st : builder) :
  where_builder fromisoformat vmId severity rule since until acknowledged
  = Some st ->
  numbered st /\ snd st <= 5.
Proof.
  unfold where_builder.
  set (st0 := (([] : list string), ([] : list sql_value), 0)).
  assert (H0 : numbered st0 /\ snd st0 <= 0) by (repeat split; simpl; lia).
  set (st1 := match truthy_int vmId with
              | Some v => add_condition _ (IntValue v) st0
              | None => st0
              end).
  assert (H1 : numbered st1 /\ snd st1 <= 1).
  { subst st1. destruct (truthy_int vmId); [| split; [apply H0 | simpl; lia]].
    split; [apply numbered_add; [reflexivity | apply H0] | simpl; lia]. }
  clearbody st1. clear H0 st0.
  set (st2 := match truthy severity with
              | Some s => add_condition _ (TextValue s) st1
              | None => st1
              end).
  assert (H2 : numbered st2 /\ snd st2 <= 2).
  { subst st2. destruct H1 as [H1 Hn].
    destruct (truthy severity); [| split; [exact H1 | lia]].
    split; [now apply numbered_add |].
    destruct st1 as [[? ?] ?]. simpl in *. lia. }
  clearbody st2. clear H1 st1.
  set (st3 := match truthy rule with
              | Some s => add_condition _ (TextValue s) st2
              | None => st2
              end).
  assert (H3 : numbered st3 /\ snd st3 <= 3).
  { subst st3. destruct H2 as [H2 Hn].
    destruct (truthy rule); [| split; [exact H2 | lia]].
    split; [now apply numbered_add |].
    destruct st2 as [[? ?] ?]. simpl in *. lia. }
  clearbody st3. clear H2 st2.
  destruct (add_time fromisoformat "timestamp >= " since st3) as [st4|] eqn:E4;
    [| discriminate].
  assert (H4 : numbered st4 /\ snd st4 <= 4).
  { destruct H3 as [H3 Hn].
    split; [now apply (numbered_time "timestamp >= " since st3 st4) |].
    unfold add_time in E4. destruct (truthy since);
      [destruct (fromisoformat _); [| discriminate] |];
      injection E4 as <-; destruct st3 as [[? ?] ?]; simpl in *; lia. }
  clear H3 E4 st3.
  destruct (add_time fromisoformat "timestamp <= " until st4) as [st5|] eqn:E5;
    [| discriminate].
  assert (H5 : numbered st5 /\ snd st5 <= 5).
  { destruct H4 as [H4 Hn].
    split; [now apply (numbered_time "timestamp <= " until st4 st5) |].
    unfold add_time in E5. destruct (truthy until);
      [destruct (fromisoformat _); [| discriminate] |];
      injection E5 as <-; destruct st4 as [[? ?] ?]; simpl in *; lia. }
  clear H4 E5 st4.
  destruct st5 as [[conds params] n]. intros [= <-]. destruct H5 as [H5 Hn].
  split; [| exact Hn].
  destruct acknowledged as [[|]|]; [| | exact H5];
    now apply numbered_plain.
Qed.

End Builder.

End ApiFacts.

Module QueryFacts.
Import Str StrFacts LineFacts Api ApiFacts.

Lemma placeholders_plain (text rest : string) :
  all_chars not_dollar text = true ->
  placeholders (text +:+ rest) = placeholders rest.
Proof.
  induction text as [|c text IH]; simpl; [reflexivity |].
  unfold not_dollar at 1. intros [Hc Ht]%andb_prop.
  apply negb_true_iff in Hc. rewrite Hc. now apply IH.
Qed.

Lemma placeholders_inside (text : string) (n : nat) (rest : string) :
  all_chars not_dollar text = true -> no_digit_first rest = true ->
  placeholders (text +:+ "$" +:+ dec n +:+ rest)
  = dec n :: placeholders rest.
Proof.
  intros Ht Hr. rewrite (placeholders_plain _ _ Ht).
  change ("$" +:+ dec n +:+ rest) with (String "$" (dec n +:+ rest)).
  cbn [placeholders]. rewrite Ascii.eqb_refl.
  rewrite (digits_prefix_app _ _ Hr), (digits_prefix_all _ (dec_decimal n)).
  rewrite (placeholders_app _ _ Hr), (placeholders_digits _ (dec_decimal n)).
  reflexivity.
Qed.

Lemma texts_add (condition : string) (value value' : sql_value)
      (st st' : builder) :
  texts st = texts st' ->
  texts (add_condition condition value st)
  = texts (add_condition condition value' st').
Proof.
  destruct st as [[c p] n], st' as [[c' p'] n']. unfold texts. simpl.
  now intros [= -> ->].
Qed.

Lemma texts_time (f f' : string -> option datetime) (condition : string)
      (value value' : option string) (st st' s s' : builder) :
  same_use (truthy value) (truthy value') ->
  texts st = texts st' ->
  add_time f condition value st = Some s ->
  add_time f' condition value' st' = Some s' ->
  texts s = texts s'.
Proof.
  unfold add_time, same_use. intros Hu Ht.
  destruct (truthy value) as [v|], (truthy value') as [v'|]; try tauto.
  - destruct (f _); [| discriminate]. destruct (f' _); [| discriminate].
    intros [= <-] [= <-]. now apply texts_add.
  - now intros [= <-] [= <-].
Qed.

Lemma texts_filter {A : Type} (u u' : option A) (condition : string)
      (value : A -> sql_value) (st st' : builder) :
  same_use u u' -> texts st = texts st' ->
  texts (match u with
         | Some v => add_condition condition (value v) st
         | None => st
         end)
  = texts (match u' with
           | Some v => add_condition condition (value v) st'
           | None => st'
           end).
Proof.
  unfold same_use. destruct u, u'; try tauto.
  intros _ H. now apply texts_add.
Qed.

(** The conditions and the count depend only on which filters are used. *)
Lemma where_builder_texts (f f' : string -> option datetime)
      (vmId vmId' : option Z)
      (severity severity' rule rule' since since' until until' : option string)
      (acknowledged : option bool) (st st' : builder) :
  same_use (truthy_int vmId) (truthy_int vmId') ->
  same_use (truthy severity) (truthy severity') ->
  same_use (truthy rule) (truthy rule') ->
  same_use (truthy since) (truthy since') ->
  same_use (truthy until) (truthy until') ->
  where_builder f vmId severity rule since until acknowledged = Some st ->
  where_builder f' vmId' severity' rule' since' until' acknowledged
  = Some st' ->
  texts st = texts st'.
Proof.
  intros U1 U2 U3 U4 U5. unfold where_builder.
  pose proof (texts_filter (truthy_int vmId) (truthy_int vmId')
                           (quote +:+ "vmId" +:+ quote +:+ " = ") IntValue
                           ([], [], 0) ([], [], 0) U1 eq_refl) as H1.
  pose proof (texts_filter (truthy severity) (truthy severity')
                           "severity = " TextValue _ _ U2 H1) as H2.
  pose proof (texts_filter (truthy rule) (truthy rule')
                           "rule = " TextValue _ _ U3 H2) as H3.
  destruct (add_time f "timestamp >= " since _) as [a4|] eqn:E4;
    [| discriminate].
  destruct (add_time f' "timestamp >= " since' _) as [b4|] eqn:E4';
    [| discriminate].
  pose proof (texts_time _ _ _ _ _ _ _ _ _ U4 H3 E4 E4') as H4.
  destruct (add_time f "timestamp <= " until a4) as [a5|] eqn:E5;
    [| discriminate].
  destruct (add_time f' "timestamp <= " until' b4) as [b5|] eqn:E5';
    [| discriminate].
  pose proof (texts_time _ _ _ _ _ _ _ _ _ U5 H4 E5 E5') as H5.
  destruct a5 as [[c p] n], b5 as [[c' p'] n'].
  unfold texts in H5. simpl in H5. injection H5 as -> ->.
  now intros [= <-] [= <-].
Qed.

End QueryFacts.

Section ApiClaims.
Import Str StrFacts Api ApiFacts QueryFacts.

Variable fromisoformat : string -> option datetime.

(** X23.  The placeholders of the two queries are the numbers 1, 2, ...
    in this order, as many as parameters are passed: the k-th parameter
    goes with the placeholder k.  The query of the events has the
    parameters of the count, then the limit and the offset, which is
    [(page - 1) * limit].  At most five filters take a parameter. *)
Theorem placeholders_match_parameters (page limit : Z) (vmId : option Z)
        (severity rule since until : option string)
        (acknowledged : option bool) (q : Queries) :
  queries fromisoformat page limit vmId severity rule since until
          acknowledged = Some q ->
  placeholders (count_query q)
  = map dec (seq 1 (length (count_params q)))
  /\ placeholders (events_query q)
     = map dec (seq 1 (length (events_params q)))
  /\ events_params q
     = count_params q ++ [IntValue limit; IntValue (offset q)]
  /\ offset q = ((page - 1) * limit)%Z
  /\ length (count_params q) <= 5.
Proof.
  unfold queries.
  destruct (where_builder fromisoformat vmId severity rule since until
                          acknowledged) as [[[conds params] n]|] eqn:E;
    [| discriminate].
  apply where_builder_numbered in E as [[Hl Hp] Hn]. simpl in Hn.
  intros Hq. apply (inj Some) in Hq. rewrite <- Hq.
  unfold count_query, count_params, events_query, events_params, offset.
  cbv beta iota.
  assert (Hw : placeholders (if nonempty conds
                             then "WHERE " +:+ join " AND " conds else "")
               = map dec (seq 1 n)).
  { destruct conds as [|c conds]; [exact Hp |].
    cbn [nonempty]. now rewrite placeholders_plain by reflexivity. }
  assert (Hd : no_digit_first (if nonempty conds
                               then "WHERE " +:+ join " AND " conds else "")
               = true)
    by (now destruct conds).
  split; [| split; [| split; [| split]]]; try reflexivity.
  - rewrite Hl, placeholders_plain by reflexivity. exact Hw.
  - rewrite List.length_app, Hl. cbn [length].
    rewrite placeholders_plain by reflexivity.
    rewrite placeholders_app by reflexivity. rewrite Hw.
    rewrite placeholders_inside by reflexivity.
    rewrite placeholders_inside by reflexivity.
    replace (n + 2) with (S (S n)) by lia.
    rewrite !seq_S, !map_app. cbn [map Nat.add app].
    rewrite <- List.app_assoc. reflexivity.
  - lia.
Qed.

(** X24.  The texts of the two queries depend only on which filters are
    used, never on their values, nor on the page and the limit: two
    requests that use the same filters, a filter being used when its value
    is neither absent nor empty nor zero, send the same texts with as many
    parameters. *)
Theorem query_text_ignores_values
        (fromisoformat' : string -> option datetime) (page limit page' limit' : Z)
        (vmId vmId' : option Z)
        (severity severity' rule rule' since since' until until'
         : option string)
        (acknowledged : option bool) (q q' : Queries) :
  same_use (truthy_int vmId) (truthy_int vmId') ->
  same_use (truthy severity) (truthy severity') ->
  same_use (truthy rule) (truthy rule') ->
  same_use (truthy since) (truthy since') ->
  same_use (truthy until) (truthy until') ->
  queries fromisoformat page limit vmId severity rule since until
          acknowledged = Some q ->
  queries fromisoformat' page' limit' vmId' severity' rule' since' until'
          acknowledged = Some q' ->
  count_query q = count_query q'
  /\ events_query q = events_query q'
  /\ length (count_params q) = length (count_params q').
Proof.
  intros U1 U2 U3 U4 U5. unfold queries.
  destruct (where_builder fromisoformat vmId severity rule since until
                          acknowledged) as [[[conds params] n]|] eqn:E;
    [| discriminate].
  destruct (where_builder fromisoformat' vmId' severity' rule' since' until'
                          acknowledged) as [[[conds' params'] n']|] eqn:E';
    [| discriminate].
  pose proof (where_builder_texts _ _ _ _ _ _ _ _ _ _ _ _ _ _ _
                                  U1 U2 U3 U4 U5 E E') as Ht.
  apply where_builder_numbered in E as [[Hl _] _].
  apply where_builder_numbered in E' as [[Hl' _] _].
  unfold texts in Ht. simpl in Ht. injection Ht as -> ->.
  intros [= <-] [= <-].
  unfold count_query, count_params, events_query. cbv beta iota.
  repeat split. congruence.
Qed.

End ApiClaims.

Section ListingClaims.
Import Api.

Variable fromisoformat : string -> option datetime.
Variable isoformat : datetime -> string.
Variable db_pool : bool.
Variable fetchval : string -> list sql_value -> option Z.
Variable fetch : string -> list sql_value -> option (list Row).

(** X25.  A listing that is returned.  The page and the limit were
    admitted and there is a pool; the total is the answer to the count
    query and the data are the rows of the query of the events, one event
    for each row in their order.  For a total that is not negative the
    number of pages is the least number of pages of [limit] events that
    hold [total] events, and the requested page is one of them exactly
    when its offset is below the total. *)
Theorem listing_pages (page limit : Z) (vmId : option Z)
        (severity rule since until : option string)
        (acknowledged : option bool) (listing : Listing) :
  get_security_events fromisoformat isoformat db_pool fetchval fetch
                      page limit vmId severity rule since until acknowledged
  = Ok listing ->
  (1 <= page /\ 1 <= limit <= 100)%Z
  /\ db_pool = true
  /\ Api.page listing = page
  /\ Api.limit listing = limit
  /\ (exists q rows,
         queries fromisoformat page limit vmId severity rule since until
                 acknowledged = Some q
         /\ fetchval (count_query q) (count_params q) = Some (total listing)
         /\ fetch (events_query q) (events_params q) = Some rows
         /\ data listing = map (format_row isoformat) rows
         /\ (0 <= offset q)%Z
         /\ ((0 <= total listing)%Z ->
             (offset q < total listing <-> page <= totalPages listing)%Z))
  /\ ((0 <= total listing)%Z ->
      (0 <= totalPages listing
       /\ (totalPages listing - 1) * limit < total listing
          <= totalPages listing * limit)%Z).
Proof.
  unfold get_security_events.
  destruct ((1 <=? page)%Z && (1 <=? limit)%Z && (limit <=? 100)%Z) eqn:Hv;
    [| discriminate].
  apply andb_prop in Hv as [[Hp Hl]%andb_prop Hu].
  apply Z.leb_le in Hp, Hl, Hu. cbn [negb].
  destruct db_pool; [| discriminate]. cbn [negb].
  destruct (queries fromisoformat page limit vmId severity rule since until
                    acknowledged) as [q|] eqn:Hq; [| discriminate].
  destruct (fetchval _ _) as [t|] eqn:Ht; [| discriminate].
  destruct (fetch _ _) as [rows|] eqn:Hr; [| discriminate].
  intros [= <-]. cbn [Api.page Api.limit total data totalPages].
  assert (Hoff : offset q = ((page - 1) * limit)%Z).
  { unfold queries in Hq.
    destruct (where_builder _ _ _ _ _ _ _) as [[[c ps] n]|]; [| discriminate].
    now injection Hq as <-. }
  assert (Hpages : (0 <= t ->
                    0 <= (t + limit - 1) / limit
                    /\ ((t + limit - 1) / limit - 1) * limit < t
                       <= (t + limit - 1) / limit * limit)%Z).
  { intros H0.
    pose proof (Z.div_mod (t + limit - 1) limit ltac:(lia)) as Hd.
    pose proof (Z.mod_pos_bound (t + limit - 1) limit ltac:(lia)) as Hm.
    split; [apply Z.div_pos; lia | nia]. }
  split; [lia |]. split; [reflexivity |]. split; [reflexivity |].
  split; [reflexivity |]. split; [| exact Hpages].
  exists q, rows. repeat split; try assumption.
  - rewrite Hoff. nia.
  - rewrite Hoff. specialize (Hpages H). nia.
  - rewrite Hoff. specialize (Hpages H). nia.
Qed.

End ListingClaims.

(** ** The remaining endpoints, the collected logs and the addresses *)

Module EndpointFacts.
Import Str StrFacts LineFacts Api ApiFacts QueryFacts Endpoints.

Lemma seq_snoc (n : nat) : seq 0 (S n) = seq 0 n ++ [n].
Proof. now rewrite seq_S. Qed.

(** The placeholders of the identifiers are numbered from 1 on. *)
Lemma placeholders_ids (n : nat) :
  placeholders (id_placeholders n) = map dec (seq 1 n).
Proof.
  unfold id_placeholders. induction n as [|n IH]; [reflexivity |].
  rewrite seq_snoc, map_app. cbn [map]. rewrite join_snoc.
  rewrite (seq_S n 1), map_app. cbn [map]. rewrite <- IH.
  replace (n + 1) with (1 + n) by lia.
  destruct (map _ (seq 0 n)) as [|x l] eqn:E.
  - cbn [join String.concat placeholders app].
    exact (placeholders_numbered "" (1 + n) eq_refl).
  - rewrite placeholders_app by reflexivity. f_equal.
    exact (placeholders_numbered ", " (1 + n) eq_refl).
Qed.

Lemma placeholders_acknowledge (n : nat) :
  placeholders (acknowledge_query n) = map dec (seq 1 n).
Proof.
  unfold acknowledge_query.
  rewrite placeholders_plain by reflexivity.
  rewrite placeholders_app by reflexivity.
  rewrite placeholders_ids. now rewrite List.app_nil_r.
Qed.

End EndpointFacts.

Section AcknowledgeClaims.
Import Api Endpoints EndpointFacts.

Variable db_pool : bool.
Variable execute : string -> list sql_value -> option string.
Variable updated_count : string -> option Z.

(** X26.  An acknowledgement that is returned.  There is a pool and the
    list of the identifiers is not empty; one update was sent, with the
    identifiers as its parameters in their order, duplicates included,
    and its text has the placeholders 1, 2, ... in this order, one for
    each parameter.  The answer gives the count that the database
    reports and the length of the list. *)
Theorem acknowledged_events (ids : list Z) (r : Acknowledgement) :
  acknowledge_multiple_events db_pool execute updated_count ids = Ok r ->
  db_pool = true /\ ids <> []
  /\ requested r = length ids
  /\ placeholders (acknowledge_query (length ids))
     = map dec (seq 1 (length (map IntValue ids)))
  /\ exists result,
       execute (acknowledge_query (length ids)) (map IntValue ids)
       = Some result
       /\ updated_count result = Some (acknowledged r).
Proof.
  unfold acknowledge_multiple_events.
  destruct db_pool; [| discriminate]. cbn [negb].
  destruct ids as [|i ids]; [discriminate |]. cbn [nonempty negb].
  destruct (execute _ _) as [result|] eqn:He; [| discriminate].
  destruct (updated_count result) as [count|] eqn:Hc; [| discriminate].
  intros [= <-]. cbn [requested acknowledged].
  split; [reflexivity |]. split; [discriminate |].
  split; [reflexivity |]. split.
  - rewrite length_map. apply placeholders_acknowledge.
  - exists result. now split.
Qed.

End AcknowledgeClaims.

Section ParsingClaims.
Import Endpoints.

Variable strptime : string -> option datetime.
Variable now : datetime.
Variable isoformat : datetime -> string.
Variable security_processor : bool.

(** X27.  The endpoint that tests the parser.  It fails with an
    exception that nothing handles exactly when there is a processor and
    [logLine] holds a value that is true and not a string, a number that
    is not zero for instance: the parser takes [strip] of it.  For a string
    the parser raises nothing: with a processor, a line that is not empty
    always gets an answer, which is no match for a line that has not
    exactly four fields, whatever it contains, a line of white space
    included; an event that is returned has the stripped line as its
    message and the second and third field as its machine and source.  A
    key that is absent or holds a false value gets the refusal. *)
Theorem test_log_parsing_answers (request : gmap string json) :
  (test_log_parsing strptime now isoformat security_processor request
   = Api.ServerError
   <-> security_processor = true
       /\ exists v, request !! "logLine" = Some v
                    /\ json_truthy v = true
                    /\ forall s, v <> JString s)
  /\ (security_processor = true ->
      forall line, request !! "logLine" = Some (JString line) ->
                   line <> "" ->
        exists r,
          test_log_parsing strptime now isoformat security_processor request
          = Api.Ok r
          /\ (length (fields line) <> 4 ->
              r = Unmatched "No security patterns matched")
          /\ (forall event, r = Matched event ->
                parsed_message event = Str.strip line
                /\ exists ts body,
                     fields line
                     = [ts; parsed_vm_name event; parsed_source event; body]
                     /\ parsed_timestamp event
                        = isoformat (default now (strptime ts))))
  /\ (security_processor = true ->
      (request !! "logLine" = None
       \/ exists v, request !! "logLine" = Some v /\ json_truthy v = false) ->
      test_log_parsing strptime now isoformat security_processor request
      = Api.HTTPException 400 "logLine is required").
Proof.
  unfold test_log_parsing. split; [| split].
  - split.
    + destruct security_processor; [| discriminate]. cbn [negb].
      destruct (request !! "logLine") as [v|]; [| discriminate].
      destruct (json_truthy v) eqn:Hv; [| discriminate]. cbn [negb].
      intros H. split; [reflexivity |]. exists v.
      split; [reflexivity |]. split; [exact Hv |].
      intros s ->. rewrite FileFacts.parse_log_line_parsed in H.
      destruct (parsed strptime now s); discriminate.
    + intros (-> & v & -> & -> & Hs). cbn [negb].
      destruct v; try reflexivity. now contradiction (Hs s).
  - intros -> line -> Hne. cbn [negb json_truthy].
    destruct (String.eqb_spec line "") as [|_]; [contradiction |].
    cbn [negb].
    destruct (parse_log_line strptime now line) as [[ev|]|e] eqn:E.
    + apply parse_log_line_Some in E
        as (ts & vm & src & body & rule & idx & m & sev
            & Hne' & Hf & Hr & Hs & ->).
      eexists. split; [reflexivity |]. split.
      * rewrite Hf. intros H. now contradiction H.
      * intros event [= <-]. cbn. split; [reflexivity |].
        exists ts, body. now split.
    + eexists. split; [reflexivity |]. split; [reflexivity |]. discriminate.
    + rewrite FileFacts.parse_log_line_parsed in E. discriminate.
  - intros -> [->|(v & -> & ->)]; reflexivity.
Qed.

End ParsingClaims.

Section CollectClaims.

Variable subprocess_run : list string -> run_result.
Variable base_path : string.

Lemma collect_one_shape (vm_name : string)
      (collected_logs : list (string * string)) (log_file : string) :
  collect_one subprocess_run base_path vm_name collected_logs log_file
  = collected_logs
  \/ exists content,
       collected_content content
       /\ collect_one subprocess_run base_path vm_name collected_logs log_file
          = collected_logs ++ [(log_file, content)].
Proof.
  unfold collect_one.
  destruct (subprocess_run _) as [|msg|returncode stdout stderr];
    try (now left).
  destruct ((returncode =? 0)%Z) ; cbn [andb]; [| now left].
  destruct (String.eqb_spec (Str.strip stdout) "FILE_NOT_FOUND") as [|Hm];
    cbn [negb]; [now left |].
  destruct (String.eqb_spec (Str.strip stdout) "") as [|He];
    cbn [negb]; [now left |].
  right. exists (Str.strip stdout). split; [| reflexivity].
  repeat split; try assumption. apply StripFacts.strip_idem.
Qed.

Lemma collect_fold_shape (vm_name : string) (names : list string)
      (collected_logs : list (string * string)) :
  exists more,
    fold_left (collect_one subprocess_run base_path vm_name) names
              collected_logs
    = collected_logs ++ more
    /\ sublist (map fst more) names
    /\ Forall (fun entry => collected_content (snd entry)) more.
Proof.
  revert collected_logs. induction names as [|name names IH];
    intros collected_logs; cbn [fold_left].
  - exists []. rewrite List.app_nil_r. repeat split; constructor.
  - destruct (collect_one_shape vm_name collected_logs name)
      as [->|(content & Hc & ->)].
    + destruct (IH collected_logs) as (more & -> & Hs & Hf).
      exists more. repeat split; [| exact Hf]. now apply sublist_cons.
    + destruct (IH (collected_logs ++ [(name, content)]))
        as (more & -> & Hs & Hf).
      exists ((name, content) :: more). rewrite <- List.app_assoc.
      repeat split.
      * cbn [map fst]. now apply sublist_skip.
      * now constructor.
Qed.

(** X28.  The logs collected over SSH.  The keys of the dictionary are
    among the three names of logs, in their order and without
    repetition, so that no assignment replaces an earlier one.  Every
    content is stripped, not empty and not the marker of a missing file:
    a log whose last lines are this marker is taken for a missing one, and
    the test of the content in [process_vm_logs] never fails. *)
Theorem collected_logs_shape (vm_name : string) :
  sublist (map fst (collect_logs_via_ssh subprocess_run base_path vm_name))
          log_names
  /\ NoDup (map fst (collect_logs_via_ssh subprocess_run base_path vm_name))
  /\ Forall (fun entry => collected_content (snd entry))
            (collect_logs_via_ssh subprocess_run base_path vm_name).
Proof.
  unfold collect_logs_via_ssh.
  destruct (collect_fold_shape vm_name log_names [])
    as (more & -> & Hs & Hf).
  cbn [app]. split; [exact Hs |]. split; [| exact Hf].
  refine (sublist_NoDup _ _ _ Hs). unfold log_names.
  repeat (apply NoDup_cons; split;
          [rewrite ?elem_of_cons, elem_of_nil; intuition discriminate |]).
  apply NoDup_nil_2.
Qed.

End CollectClaims.

(** X29.  The table of the addresses.  A name that has an address passes
    the test of the discovery for the directory of a virtual machine, and
    the address is [10.1.0.] followed by the number after the [u] of the
    name. *)
Theorem address_by_number (vm_name ip : string) :
  get_vm_ip_from_name vm_name = Some ip ->
  is_vm_directory vm_name = true
  /\ ip = "10.1.0." +:+ Api.digits_prefix (Str.drop 1 vm_name).
Proof.
  unfold get_vm_ip_from_name. intros H.
  apply elem_of_list_to_map_2 in H. unfold vm_ip_mapping in H.
  repeat (apply elem_of_cons in H as [[= -> ->]|H];
          [split; vm_compute; reflexivity |]).
  now apply elem_of_nil in H.
Qed.
(** ** Instances of the further properties *)

Lemma parse_log_line_ignores_padding_witness :
  parse_log_line Sample.strptime Sample.now Sample.ssh_line_padded
  = parse_log_line Sample.strptime Sample.now Sample.ssh_line.
Proof.
  apply (parse_log_line_ignores_padding Sample.strptime Sample.now
                                        "  " Sample.ssh_line "  ");
    reflexivity.
Defined.

Lemma severity_by_rule_witness :
  exists ev,
    parse_log_line Sample.strptime Sample.now Sample.pam_line
    = Return (Some ev)
    /\ rule ev = SUDO
    /\ (severity ev = CRITICAL -> rule ev = EGRESS).
Proof.
  eexists. split; [vm_compute; reflexivity |].
  split; [reflexivity |].
  apply (severity_by_rule Sample.strptime Sample.now Sample.pam_line).
  vm_compute. reflexivity.
Defined.

Lemma metadata_keys_by_rule_witness :
  exists ev md,
    parse_log_line Sample.strptime Sample.now Sample.ssh_line
    = Return (Some ev)
    /\ metadata ev = Some md
    /\ forall k v, md !! k = Some v -> v <> None.
Proof.
  exists Sample.ssh_event.
  destruct (metadata_keys_by_rule Sample.strptime Sample.now Sample.ssh_line
                                  Sample.ssh_event)
    as (md & ts & vm & src & body & i & m & Hmd & _ & _ & Hv & _).
  - vm_compute. reflexivity.
  - exists md. split; [vm_compute; reflexivity |]. split; assumption.
Defined.

Lemma analysis_of_permuted_batch_witness :
  recommendations
    (analyze_events [Sample.attempt "10.0.0.5"; Sample.attempt "10.0.0.6"])
  = recommendations
      (analyze_events [Sample.attempt "10.0.0.6"; Sample.attempt "10.0.0.5"]).
Proof.
  apply (analysis_of_permuted_batch
           [Sample.attempt "10.0.0.5"; Sample.attempt "10.0.0.6"]
           [Sample.attempt "10.0.0.6"; Sample.attempt "10.0.0.5"]).
  apply perm_swap.
Defined.

Lemma process_log_file_counts_witness :
  exists stats p',
    process_log_file Sample.strptime SampleFiles.clock SampleFiles.fs
                     SampleFiles.respond "./kern.log" SampleFiles.connected
    = (Report stats, p')
    /\ lines_processed stats = 1
    /\ events_saved stats <= events_found stats
    /\ error stats = Some "'utf-8' codec can't decode byte 0xff".
Proof.
  destruct (process_log_file_counts
              Sample.strptime SampleFiles.clock SampleFiles.fs
              SampleFiles.respond "./kern.log" SampleFiles.connected
              SampleFiles.kern_log)
    as (stats & p' & H & _ & Hl & _ & Hs & _ & _ & _ & _ & He).
  - reflexivity.
  - exists stats, p'. repeat split; assumption.
Defined.

Lemma statistics_agree_with_analysis_witness :
  exists stats p',
    process_log_file Sample.strptime SampleFiles.clock SampleFiles.fs
                     SampleFiles.respond "./auth.log" SampleFiles.connected
    = (Report stats, p')
    /\ events_by_rule stats
       = rule_breakdown
           (analyze_events
              (events_of Sample.strptime (SampleFiles.clock "./auth.log") 1
                         (lines SampleFiles.auth_log))).
Proof.
  eexists _, _. split; [vm_compute; reflexivity |].
  refine (proj1 (proj2 (statistics_agree_with_analysis
                          Sample.strptime SampleFiles.clock SampleFiles.fs
                          SampleFiles.respond "./auth.log"
                          SampleFiles.connected SampleFiles.auth_log
                          _ _ _ _)));
    vm_compute; reflexivity.
Defined.

Lemma no_database_nothing_saved_witness :
  saved_of (fst (process_log_file Sample.strptime SampleFiles.clock
                                  SampleFiles.fs SampleFiles.respond
                                  "./auth.log" SampleFiles.offline)) = 0.
Proof.
  apply (no_database_nothing_saved
           Sample.strptime SampleFiles.clock SampleFiles.fs
           SampleFiles.respond "./auth.log" SampleFiles.offline).
  reflexivity.
Defined.

Lemma saved_events_are_rows_witness :
  exists stats p' new,
    process_log_file Sample.strptime SampleFiles.clock SampleFiles.fs
                     SampleFiles.respond "./auth.log" SampleFiles.connected
    = (Report stats, p')
    /\ sent p' = new
    /\ events_saved stats = accepted SampleFiles.respond [] new.
Proof.
  destruct (saved_events_are_rows
              Sample.strptime SampleFiles.clock SampleFiles.fs
              SampleFiles.respond "./auth.log" SampleFiles.connected
              SampleFiles.auth_log)
    as (stats & p' & new & H & _ & Hs & _ & Ha & _).
  - reflexivity.
  - reflexivity.
  - exists stats, p', new. repeat split; assumption.
Defined.

Lemma vm_lookups_witness :
  exists new,
    sent (snd (process_log_file Sample.strptime SampleFiles.clock
                                SampleFiles.fs SampleFiles.respond
                                "./auth.log" SampleFiles.connected))
    = new
    /\ length new
       <= 3 * length (events_of Sample.strptime
                                (SampleFiles.clock "./auth.log") 1
                                (lines SampleFiles.auth_log)).
Proof.
  destruct (vm_lookups
              Sample.strptime SampleFiles.clock SampleFiles.fs
              SampleFiles.respond "./auth.log" SampleFiles.connected
              SampleFiles.auth_log)
    as (new & Hs & Hl & _).
  - reflexivity.
  - reflexivity.
  - exists new. split; assumption.
Defined.

Lemma formatted_line_parses_witness :
  map (fun l => nth 3 (fields l) "")
      (format_log_lines SampleScan.stamp "u2-vm30000" "auth.log"
                        SampleScan.raw_line)
  = [Str.strip SampleScan.raw_line].
Proof.
  refine (eq_trans
            (proj2 (proj1 (formatted_line_parses
                             Sample.strptime SampleScan.stamp
                             SampleFiles.respond SampleScan.now
                             SampleScan.now "u2-vm30000" "auth.log" _ _ _)
                          SampleScan.raw_line))
            _).
  - reflexivity.
  - reflexivity.
  - intros k. vm_compute. repeat split; discriminate.
  - vm_compute. reflexivity.
Defined.

Lemma only_last_1000_lines_witness :
  process_vm_logs Sample.strptime SampleScan.stamp SampleScan.now
                  SampleScan.fs SampleScan.getsize SampleScan.subprocess_run
                  SampleFiles.respond "/mnt/vm-security" "u2-vm30000"
                  SampleFiles.connected
  = process_vm_logs Sample.strptime SampleScan.stamp SampleScan.now
                    SampleScan.fs' SampleScan.getsize
                    SampleScan.subprocess_run
                    SampleFiles.respond "/mnt/vm-security" "u2-vm30000"
                    SampleFiles.connected.
Proof.
  apply (only_last_1000_lines Sample.strptime SampleScan.stamp SampleScan.now
                              SampleScan.getsize SampleFiles.respond
                              "/mnt/vm-security"
                              SampleScan.fs SampleScan.fs'
                              SampleScan.subprocess_run "u2-vm30000"
                              SampleFiles.connected).
  intros path. unfold SampleScan.fs, SampleScan.fs'.
  destruct (String.eqb path "/mnt/vm-security/u2-vm30000/auth.log");
    [split; vm_compute; reflexivity | exact I].
Defined.

Lemma placeholders_match_parameters_witness :
  exists q,
    Api.queries SampleApi.fromisoformat 2 50 (Some 7%Z) (Some "high") None
                (Some "2025-01-01T00:00:00Z") None (Some false)
    = Some q
    /\ Api.placeholders (Api.events_query q) = ["1"; "2"; "3"; "4"; "5"].
Proof.
  eexists. split; [vm_compute; reflexivity |].
  refine (eq_trans
            (proj1 (proj2 (placeholders_match_parameters
                             SampleApi.fromisoformat 2 50 (Some 7%Z)
                             (Some "high") None
                             (Some "2025-01-01T00:00:00Z") None (Some false)
                             _ _)))
            _);
    vm_compute; reflexivity.
Defined.

Lemma query_text_ignores_values_witness :
  exists q q',
    Api.queries SampleApi.fromisoformat 1 50 (Some 7%Z) (Some "high") None
                None None None
    = Some q
    /\ Api.queries SampleApi.fromisoformat 9 10 (Some 8%Z)
                   (Some "x' OR '1'='1") None None None None
       = Some q'
    /\ Api.events_query q = Api.events_query q'.
Proof.
  eexists _, _. split; [vm_compute; reflexivity |].
  split; [vm_compute; reflexivity |].
  refine (proj1 (proj2 (query_text_ignores_values
                          SampleApi.fromisoformat SampleApi.fromisoformat
                          1 50 9 10 (Some 7%Z) (Some 8%Z)
                          (Some "high") (Some "x' OR '1'='1")
                          None None None None None None None _ _
                          I I I I I _ _)));
    vm_compute; reflexivity.
Defined.

Lemma listing_pages_witness :
  exists listing,
    Api.get_security_events SampleApi.fromisoformat SampleApi.isoformat true
                            SampleApi.fetchval SampleApi.fetch
                            3 50 None None None None None None
    = Api.Ok listing
    /\ Api.page listing = 3%Z
    /\ Api.totalPages listing = 3%Z.
Proof.
  eexists. split; [vm_compute; reflexivity |].
  split; [| vm_compute; reflexivity].
  refine (proj1 (proj2 (proj2 (listing_pages
                                 SampleApi.fromisoformat SampleApi.isoformat
                                 true SampleApi.fetchval SampleApi.fetch
                                 3 50 None None None None None None _ _)))).
  vm_compute. reflexivity.
Defined.

Lemma acknowledged_events_witness :
  exists r,
    Endpoints.acknowledge_multiple_events
      true SampleEndpoints.execute SampleEndpoints.updated_count
      [4; 9; 4]%Z
    = Api.Ok r
    /\ Endpoints.requested r = 3
    /\ Api.placeholders (Endpoints.acknowledge_query 3) = ["1"; "2"; "3"].
Proof.
  eexists. split; [vm_compute; reflexivity |].
  split; [vm_compute; reflexivity |].
  refine (proj1 (proj2 (proj2 (proj2
            (acknowledged_events true SampleEndpoints.execute
                                 SampleEndpoints.updated_count
                                 [4; 9; 4]%Z _ _))))).
  vm_compute. reflexivity.
Defined.

Lemma test_log_parsing_answers_witness :
  (exists r,
      Endpoints.test_log_parsing
        Sample.strptime Sample.now SampleApi.isoformat true
        SampleEndpoints.line_request
      = Api.Ok r
      /\ r = Endpoints.Unmatched "No security patterns matched")
  /\ Endpoints.test_log_parsing
       Sample.strptime Sample.now SampleApi.isoformat true
       SampleEndpoints.number_request
     = Api.ServerError.
Proof.
  split.
  - assert (Hl : SampleEndpoints.line_request !! "logLine"
                 = Some (Endpoints.JString SampleEndpoints.raw_line))
      by (vm_compute; reflexivity).
    destruct (proj1 (proj2 (test_log_parsing_answers
                              Sample.strptime Sample.now SampleApi.isoformat
                              true SampleEndpoints.line_request))
                    eq_refl SampleEndpoints.raw_line Hl
                    ltac:(discriminate))
      as (r & Hr & Hu & _).
    exists r. split; [exact Hr |]. apply Hu. vm_compute. discriminate.
  - apply (proj1 (test_log_parsing_answers
                    Sample.strptime Sample.now SampleApi.isoformat true
                    SampleEndpoints.number_request)).
    split; [reflexivity |]. exists (Endpoints.JInt 123).
    split; [vm_compute; reflexivity |]. split; [reflexivity |].
    discriminate.
Defined.

Lemma address_by_number_witness :
  is_vm_directory "u2-vm30000" = true
  /\ "10.1.0.2" = "10.1.0." +:+ Api.digits_prefix (Str.drop 1 "u2-vm30000").
Proof.
  apply (address_by_number "u2-vm30000" "10.1.0.2").
  vm_compute. reflexivity.
Defined.
